(** * boidkit: hydraulic muscle simulation, physics and integrator

    A shallow embedding of [boidkit_simulation/hydraulic_muscle]
    ([constants.py], [physics.py], [integrator.py], and with them the mesh
    provider [mesh.py] and the driver [driver.py]) and the properties its
    specification states about it, followed by further properties of the
    same code.

    Conventions of the embedding.
    - A Python/numpy float that holds a force, a position, a velocity, a
      mass or a length is a real number ([R]): its rounding, overflow,
      infinities and NaN are abstracted away.  numpy's division is a
      parameter [dv] of the force functions; the program itself is their
      instance at real division.
    - The times of [simulate] decide which pass records a frame and when
      the loop ends, so their rounding is kept: [t], [next_frame_time] and
      [frame_dt] are stored through a rounding [fl : R -> R], a parameter
      of the loop.  The statements hold for every [fl], or for every [fl]
      that [rounds] (it is monotone and keeps 0) and [resolves]
      the step (binary64 does when [t_end/dt] is at most [2^52 - 1]), or they
      name the sums that they need to be exact; [unrounded] is the
      rounding of exact arithmetic.  A quotient that leaves the range of
      the floats (as in [int(t_end/dt)] of the first log line) is not
      modelled.
    - Where a statement is about one float sum, the sum is that of
      binary64, [SpecFloat.SFadd 53 1024] of the Standard Library.
    - An [(N, 3)] array is a [list vec3]; an integer index is a [nat].
      The embedding covers the index values 0, 1, 2, ...: numpy's negative
      indices, which count from the end of the array, are outside it (the
      mesh provider produces none), and a statement about the indices that
      raise [IndexError] is a statement about indices that are not
      negative.
    - A Python exception is a [Raise] in the [result] monad: indexing
      outside an array raises [IndexError], Python's float division by
      zero raises [ZeroDivisionError].
    - The [while] loop of [simulate] is run with fuel; [None] means that
      the fuel ran out before the loop ended.
    - Logging, the progress bar and the wall-clock timing have no effect on
      the result and are left out, but for the two quotients that their
      messages take and that can raise: [t_end/dt] before the loop and
      [t/t_end] in the interrupt handler, and [sim_time/duration] in the
      driver.
    - The sizes [n_circ] and [n_axial] of the mesh are natural numbers;
      the 32-bit width of the triangle indices is not modelled.  The
      drawing of render.py is not modelled: the driver ends where it calls
      [create_animation]. *)

From Stdlib Require Import Reals Lra Lia ZArith.
From Stdlib Require Floats.SpecFloat.
From stdpp Require Import base list gmap.

#[local] Open Scope R_scope.

(** ** Exceptions *)

Inductive exn : Type :=
| IndexError
| ZeroDivisionError
| KeyboardInterrupt.

Inductive result (A : Type) : Type :=
| Ok (a : A)
| Raise (e : exn).

Arguments Ok {A} a.
Arguments Raise {A} e.

Definition rbind {A B : Type} (m : result A) (f : A -> result B) : result B :=
  match m with
  | Ok a => f a
  | Raise e => Raise e
  end.

Notation "'do' x <- m ; k" := (rbind m (fun x => k))
  (at level 10, x name, m at level 100, k at level 200).

(** [for x in l: acc = f(acc, x)], stopping at the first exception. *)
Fixpoint foldM {A B : Type} (f : B -> A -> result B) (acc : B) (l : list A)
  : result B :=
  match l with
  | [] => Ok acc
  | x :: l' => do acc' <- f acc x; foldM f acc' l'
  end.

(** [[f(x) for x in l]], stopping at the first exception. *)
Fixpoint mapM {A B : Type} (f : A -> result B) (l : list A) : result (list B) :=
  match l with
  | [] => Ok []
  | x :: l' => do y <- f x; do ys <- mapM f l'; Ok (y :: ys)
  end.

(** ** Vectors and arrays *)

Record vec3 : Type := V3 { vx : R; vy : R; vz : R }.

Definition vzero : vec3 := V3 0 0 0.
Definition vadd (a b : vec3) : vec3 := V3 (vx a + vx b) (vy a + vy b) (vz a + vz b).
Definition vsub (a b : vec3) : vec3 := V3 (vx a - vx b) (vy a - vy b) (vz a - vz b).
Definition vscale (c : R) (a : vec3) : vec3 := V3 (c * vx a) (c * vy a) (c * vz a).
Definition vopp (a : vec3) : vec3 := V3 (- vx a) (- vy a) (- vz a).

(** [a / c] on a row, with the division [dv]. *)
Definition vdiv (dv : R -> R -> R) (a : vec3) (c : R) : vec3 :=
  V3 (dv (vx a) c) (dv (vy a) c) (dv (vz a) c).

(** [np.linalg.norm] of a row, and of its first two entries [a[:2]]. *)
Definition norm (a : vec3) : R := sqrt (vx a * vx a + vy a * vy a + vz a * vz a).
Definition norm_xy (a : vec3) : R := sqrt (vx a * vx a + vy a * vy a).

(** [np.cross]. *)
Definition cross (a b : vec3) : vec3 :=
  V3 (vy a * vz b - vz a * vy b)
     (vz a * vx b - vx a * vz b)
     (vx a * vy b - vy a * vx b).

Abbreviation array := (list vec3).

(** [np.zeros_like(a)]. *)
Definition zeros_like (a : array) : array := repeat vzero (length a).

(** [a[i]], raising [IndexError] outside the array. *)
Definition get {A : Type} (a : list A) (i : nat) : result A :=
  match a !! i with
  | Some x => Ok x
  | None => Raise IndexError
  end.

(** [a[i] = f(a[i])]: the read comes first and raises outside the array. *)
Definition update_at (a : array) (i : nat) (f : vec3 -> vec3) : result array :=
  do x <- get a i; Ok (<[i := f x]> a).

(** ** constants.py *)

Definition TUBE_LENGTH : R := 0.30.
Definition TUBE_RADIUS : R := 0.010.
Definition RING_SPACING : R := 0.020.
Definition WALL_THICKNESS : R := 0.001.
Definition WALL_DENSITY : R := 1100.
Definition ELASTIC_MODULUS : R := 1.0e6.
Definition GRAVITY : R := 9.81.
Definition EXTERNAL_LOAD : R := 10.0.
Definition PRESSURE_AMPLITUDE : R := 1.0e6.
Definition PRESSURE_ON_DURATION : R := 0.5.
Definition PRESSURE_PERIOD : R := 5.0.
Definition DT : R := 1.0e-4.
Definition DAMPING_RATIO : R := 0.02.
Definition N_CIRCUMFERENTIAL : nat := 24.
Definition N_AXIAL : nat := 60.
Definition VIDEO_FPS : R := 30.

(** Python's [x / y] on floats: division by zero raises. *)
Definition py_div (x y : R) : result R :=
  if Req_EM_T y 0 then Raise ZeroDivisionError else Ok (x / y).

(** Python's [x % y] on floats, for a divisor [y > 0]: the remainder takes
    the sign of the divisor. *)
Definition py_mod (x y : R) : R := x - y * IZR (Zfloor (x / y)).

(** ** physics.py *)

Abbreviation triangle := (nat * nat * nat)%type.

(** A spring element [(i, j, rest_length, spring_constant)]. *)
Abbreviation spring := (nat * nat * R * R)%type.

Definition spring_i (s : spring) : nat := s.1.1.1.
Definition spring_j (s : spring) : nat := s.1.1.2.
Definition spring_rest (s : spring) : R := s.1.2.
Definition spring_k (s : spring) : R := s.2.

(** The inner loop [for i in range(3)] of [build_springs]: the edges
    [(tri[i], tri[(i+1)%3])], each as [(min, max)]. *)
Definition tri_edges (tri : triangle) : list (nat * nat) :=
  let '(a, b, c) := tri in
  [ (Nat.min a b, Nat.max a b);
    (Nat.min b c, Nat.max b c);
    (Nat.min c a, Nat.max c a) ].

(** The set [edges] after the first loop of [build_springs]. *)
Definition edge_set (triangles : list triangle) : gset (nat * nat) :=
  foldl (fun edges tri =>
           foldl (fun edges edge => edges ∪ {[ edge ]}) edges (tri_edges tri))
        ∅ triangles.

(** The body of the second loop of [build_springs].  For a rest length of
    zero numpy's quotient is infinite, which [R] cannot express; no
    statement below relies on the value of [k] in that case. *)
Definition make_spring (vertices : array) (edge : nat * nat) : result spring :=
  let '(i, j) := edge in
  do v_i <- get vertices i;
  do v_j <- get vertices j;
  let rest_length := norm (vsub v_i v_j) in
  let dz := Rabs (vz v_i - vz v_j) in
  let k :=
    if Rlt_dec dz (0.25 * RING_SPACING)
    then ELASTIC_MODULUS * WALL_THICKNESS * RING_SPACING / rest_length
    else ELASTIC_MODULUS * WALL_THICKNESS
         * (2 * PI * TUBE_RADIUS / INR N_CIRCUMFERENTIAL) / rest_length in
  Ok (i, j, rest_length, k).

(** Python iterates the set in an order of its own; [elements] stands for
    that order, of which nothing is assumed but that every member comes
    once. *)
Definition build_springs (vertices : array) (triangles : list triangle)
  : result (list spring) :=
  let edges := edge_set triangles in
  mapM (make_spring vertices) (elements edges).

Section ForceModel.

(** numpy's array division. *)
Variable dv : R -> R -> R.

Definition spring_step (vertices : array) (forces : array) (s : spring)
  : result array :=
  let '(i, j, rest_length, k) := s in
  do x_i <- get vertices i;
  do x_j <- get vertices j;
  let displacement := vsub x_j x_i in
  let length := norm displacement in
  if Rlt_dec length 1e-10 then Ok forces
  else
    let direction := vdiv dv displacement length in
    let force_mag := k * (length - rest_length) in
    let force_vec := vscale force_mag direction in
    do forces <- update_at forces i (fun f => vadd f force_vec);
    update_at forces j (fun f => vsub f force_vec).

Definition compute_spring_forces (vertices : array) (springs : list spring)
  : result array :=
  let forces := zeros_like vertices in
  foldM (spring_step vertices) forces springs.

Definition pressure_step (vertices : array) (pressure : R)
    (forces : array) (tri : triangle) : result array :=
  let '(t0, t1, t2) := tri in
  do v0 <- get vertices t0;
  do v1 <- get vertices t1;
  do v2 <- get vertices t2;
  let normal := cross (vsub v1 v0) (vsub v2 v0) in
  let area := 0.5 * norm normal in
  if Rlt_dec area 1e-10 then Ok forces
  else
    let normal := vdiv dv normal (2 * area) in
    let force := vdiv dv (vscale (pressure * area) normal) 3 in
    do forces <- update_at forces t0 (fun f => vadd f force);
    do forces <- update_at forces t1 (fun f => vadd f force);
    update_at forces t2 (fun f => vadd f force).

Definition compute_pressure_forces (vertices : array)
    (triangles : list triangle) (pressure : R) : result array :=
  let forces := zeros_like vertices in
  if Rle_dec pressure 0 then Ok forces
  else foldM (pressure_step vertices pressure) forces triangles.

Definition ring_step (vertices velocities original_vertices : array)
    (forces : array) (idx : nat) : result array :=
  do orig_pos <- get original_vertices idx;
  do curr_pos <- get vertices idx;
  let r_orig := norm_xy orig_pos in
  if Rlt_dec r_orig 1e-10 then Ok forces
  else
    let r_curr := norm_xy curr_pos in
    if Rlt_dec r_curr 1e-10 then Ok forces
    else
      let xy_dir := (dv (vx curr_pos) r_curr, dv (vy curr_pos) r_curr) in
      let k_ring := 1e7 in
      let radial_force :=
        (- k_ring * (r_curr - r_orig) * xy_dir.1,
         - k_ring * (r_curr - r_orig) * xy_dir.2) in
      do forces <- update_at forces idx
                     (fun f => V3 (vx f + radial_force.1) (vy f) (vz f));
      do forces <- update_at forces idx
                     (fun f => V3 (vx f) (vy f + radial_force.2) (vz f));
      do vel <- get velocities idx;
      let damping := (-200.0 * vx vel, -200.0 * vy vel) in
      update_at forces idx
        (fun f => V3 (vx f + damping.1) (vy f + damping.2) (vz f)).

Definition compute_ring_constraints (vertices velocities : array)
    (ring_indices : list (list nat)) (original_vertices : array)
  : result array :=
  let forces := zeros_like vertices in
  foldM (fun forces ring =>
           foldM (ring_step vertices velocities original_vertices) forces ring)
        forces ring_indices.

End ForceModel.

(** [forces[idx, 2] -= load / n_end] (with [op] subtraction) and
    [forces[idx, 2] += load / n_end] (with [op] addition): the element is
    read before the quotient is taken, so an index outside the array raises
    first. *)
Definition load_step (op : R -> R -> R) (load : R) (n_end : nat)
    (forces : array) (idx : nat) : result array :=
  do f <- get forces idx;
  do share <- py_div load (INR n_end);
  Ok (<[idx := V3 (vx f) (vy f) (op (vz f) share)]> forces).

Definition apply_external_load (forces : array)
    (end_vertices : list nat * list nat) (load : R) : result array :=
  let n_end := length end_vertices.1 in
  do forces <- foldM (load_step Rminus load n_end) forces end_vertices.2;
  foldM (load_step Rplus load n_end) forces end_vertices.1.

(** ** Python floats *)

(** A Python float is a binary64 number; [float m e] is the finite float
    [m * 2^e], and [float_value] the real number a float stands for. *)
Abbreviation binary64 := SpecFloat.spec_float.

Definition float (m : positive) (e : Z) : binary64 :=
  SpecFloat.S754_finite false m e.

Definition float_value (x : binary64) : R :=
  match x with
  | SpecFloat.S754_finite s m e =>
      let v := if (0 <=? e)%Z
               then IZR (Z.pos m * 2 ^ e)
               else IZR (Z.pos m) / IZR (2 ^ (- e)) in
      if s then - v else v
  | _ => 0
  end.

(** Python's [x + y] on floats: the sum, rounded to the nearest float. *)
Definition float_add (x y : binary64) : binary64 := SpecFloat.SFadd 53 1024 x y.

(** ** integrator.py *)

Definition pressure_at_time (t : R) : R :=
  let cycle_position := py_mod t PRESSURE_PERIOD in
  if Rlt_dec cycle_position PRESSURE_ON_DURATION
  then PRESSURE_AMPLITUDE
  else 0.0.

(** Elementwise [a + b] and [c * a] on arrays of one shape (in [simulate]
    every array has the shape of [vertices]). *)
Definition arr_add (a b : array) : array := zip_with vadd a b.
Definition arr_scale (c : R) (a : array) : array := map (vscale c) a.

(** [forces / mass[:, np.newaxis]]: row [i] divided by [mass[i]]. *)
Definition arr_div_rows (a : array) (mass : list R) : array :=
  zip_with (fun f m => vdiv Rdiv f m) a mass.

(** The mutable locals of [simulate] that the loop reads and writes. *)
Record state : Type := State {
  s_t : R;
  s_positions : array;
  s_velocities : array;
  s_next_frame_time : R;
  s_frames : list array
}.

(** Where in the loop body a [KeyboardInterrupt] lands, relative to
    [frames.append]. *)
Inductive phase : Type :=
| BeforeRecord
| AfterRecord.

(** The [except KeyboardInterrupt] handler.  Its log line evaluates
    [t/t_end*100] first. *)
Definition on_interrupt (t_end : R) (s : state) : result (list array) :=
  do _pct <- py_div (s_t s) t_end;
  match s_frames s with
  | [] => Raise KeyboardInterrupt
  | _ :: _ => Ok (s_frames s)
  end.

Section Simulate.

(** [fl] rounds the sum of two times to the float that [t += dt] and
    [next_frame_time += frame_dt] store. *)
Variable fl : R -> R.

Variables (triangles : list triangle) (springs : list spring)
          (ring_indices : list (list nat))
          (end_vertices : list nat * list nat)
          (original_vertices : array)
          (mass : list R)
          (t_end dt frame_dt : R).

(** Steps 1 to 5 of the loop body: the net force on every vertex. *)
Definition net_force (positions velocities : array) (t : R) : result array :=
  let pressure := pressure_at_time t in
  let forces := zeros_like positions in
  do spring_forces <- compute_spring_forces Rdiv positions springs;
  let forces := arr_add forces spring_forces in
  do pressure_forces <-
    compute_pressure_forces Rdiv positions triangles pressure;
  let forces := arr_add forces pressure_forces in
  do forces <- apply_external_load forces end_vertices EXTERNAL_LOAD;
  do constraint_forces <-
    compute_ring_constraints Rdiv positions velocities ring_indices
      original_vertices;
  let forces := arr_add forces constraint_forces in
  let damping := arr_scale (- DAMPING_RATIO) velocities in
  let forces := arr_add forces damping in
  Ok forces.

(** The integration part of the loop body. *)
Definition integrate (s : state) : result (array * array) :=
  do forces <- net_force (s_positions s) (s_velocities s) (s_t s);
  let accelerations := arr_div_rows forces mass in
  let velocities := arr_add (s_velocities s) (arr_scale dt accelerations) in
  let positions := arr_add (s_positions s) (arr_scale dt velocities) in
  Ok (positions, velocities).

(** One pass through the body of [while t < t_end]. *)
Definition body (s : state) : result state :=
  do pv <- integrate s;
  let positions := pv.1 in
  let velocities := pv.2 in
  if Rge_dec (s_t s) (s_next_frame_time s)
  then Ok (State (fl (s_t s + dt)) positions velocities
                 (fl (s_next_frame_time s + frame_dt))
                 (s_frames s ++ [positions]))
  else Ok (State (fl (s_t s + dt)) positions velocities
                 (s_next_frame_time s) (s_frames s)).

(** The state when an interrupt lands in the pass that starts in [s]. *)
Definition interrupted_state (ph : phase) (s : state) : result state :=
  match ph with
  | BeforeRecord => Ok s
  | AfterRecord => body s
  end.

(** The [try] block.  [intr = Some (k, ph)] delivers a
    [KeyboardInterrupt] in pass [k] (counted from 0) at phase [ph];
    [None] delivers none.  The result is [None] when the fuel runs out. *)
Fixpoint loop (fuel : nat) (intr : option (nat * phase)) (s : state)
  : option (result (list array)) :=
  if Rlt_dec (s_t s) t_end then
    match fuel with
    | O => None
    | S fuel' =>
        match intr with
        | Some (O, ph) =>
            Some (do s' <- interrupted_state ph s; on_interrupt t_end s')
        | _ =>
            match body s with
            | Raise e => Some (Raise e)
            | Ok s' =>
                let intr' :=
                  match intr with
                  | Some (S k, ph) => Some (k, ph)
                  | _ => None
                  end in
                loop fuel' intr' s'
            end
        end
    end
  else Some (Ok (s_frames s)).

(** The loop as a step relation: [reaches s0 k s] when [k] passes, each
    entered with [t < t_end] and completed without an exception, lead from
    [s0] to [s]. *)
Inductive reaches (s0 : state) : nat -> state -> Prop :=
| reaches_O : reaches s0 O s0
| reaches_S (k : nat) (s s' : state) :
    reaches s0 k s -> s_t s < t_end -> body s = Ok s' ->
    reaches s0 (S k) s'.

End Simulate.

(** [mass = np.ones(n_vertices) * (total_mass / n_vertices)]. *)
Definition vertex_mass (n_vertices : nat) : result (list R) :=
  let tube_volume := PI * (2 * TUBE_RADIUS) * TUBE_LENGTH * WALL_THICKNESS in
  let total_mass := tube_volume * WALL_DENSITY in
  do m <- py_div total_mass (INR n_vertices);
  Ok (repeat (1 * m) n_vertices).

(** The state on entry to the loop. *)
Definition initial_state (vertices : array) : state :=
  State 0.0 vertices (zeros_like vertices) 0.0 [].

(** The part of [simulate] before the loop: the mass array, [frame_dt]
    (the quotient [1.0/fps], rounded to the float it is stored as) and the
    quotient [t_end/dt] of the first log line. *)
Definition prelude (fl : R -> R) (vertices : array) (t_end dt fps : R)
  : result (list R * R) :=
  do mass <- vertex_mass (length vertices);
  do frame_dt <- py_div 1.0 fps;
  do _iters <- py_div t_end dt;
  Ok (mass, fl frame_dt).

Definition simulate (fl : R -> R) (fuel : nat) (intr : option (nat * phase))
    (vertices : array) (triangles : list triangle) (springs : list spring)
    (ring_indices : list (list nat)) (end_vertices : list nat * list nat)
    (t_end dt fps : R) : option (result (list array)) :=
  match prelude fl vertices t_end dt fps with
  | Raise e => Some (Raise e)
  | Ok (mass, frame_dt) =>
      loop fl triangles springs ring_indices end_vertices vertices mass
           t_end dt frame_dt fuel intr (initial_state vertices)
  end.

(** ** mesh.py *)

(** Python's [int(x)] on a float: truncation towards zero. *)
Definition py_int (x : R) : Z :=
  if Rle_dec 0 x then Zfloor x else (- Zfloor (- x))%Z.

(** Python's [round(x)] on a float: the nearest integer, a tie going to the
    even one. *)
Definition py_round (x : R) : Z :=
  let f := Zfloor x in
  if Rlt_dec (x - IZR f) 0.5 then f
  else if Rlt_dec 0.5 (x - IZR f) then (f + 1)%Z
  else if Z.even f then f else (f + 1)%Z.

(** [a[i] = f(a[i])] on an array of any rows, as [update_at]. *)
Definition modify {A : Type} (a : list A) (i : nat) (f : A -> A)
  : result (list A) :=
  do x <- get a i; Ok (<[i := f x]> a).

(** The exceptions [generate_cylinder] and [run_simulation] can end with:
    those of [exn], and the [ValueError] of [np.zeros] for a negative
    dimension. *)
Inductive failure : Type :=
| Builtin (e : exn)
| ValueError.

Inductive outcome (A : Type) : Type :=
| Returns (a : A)
| Fails (e : failure).
Arguments Returns {A} a.
Arguments Fails {A} e.

(** The tuple [generate_cylinder] returns:
    [(vertices, triangles, ring_indices, (start_vertices, end_vertices))]. *)
Abbreviation mesh :=
  (array * list triangle * list (list nat) * (list nat * list nat))%type.

(** The body of the inner loop that places the vertices.  It runs for
    [j < n_circ] only, so [n_circ] is not zero in the quotient. *)
Definition place_vertex (radius z : R) (n_circ i : nat) (vertices : array)
    (j : nat) : result array :=
  let theta := 2 * PI * INR j / INR n_circ in
  let idx := (i * n_circ + j)%nat in
  do vertices <- update_at vertices idx
                   (fun v => V3 (radius * cos theta) (vy v) (vz v));
  do vertices <- update_at vertices idx
                   (fun v => V3 (vx v) (radius * sin theta) (vz v));
  update_at vertices idx (fun v => V3 (vx v) (vy v) z).

(** The body of the outer loop that places the vertices; [n_axial - 1] is
    an integer, zero for [n_axial = 1]. *)
Definition place_row (length radius : R) (n_circ n_axial : nat)
    (vertices : array) (i : nat) : result array :=
  do z <- py_div (length * INR i) (IZR (Z.of_nat n_axial - 1));
  foldM (place_vertex radius z n_circ i) vertices (seq 0 n_circ).

(** The body of the inner loop that fills [triangles]; the state is the
    array and the row counter [t]. *)
Definition quad (n_circ i : nat) (st : list triangle * nat) (j : nat)
  : result (list triangle * nat) :=
  let '(triangles, t) := st in
  let j_next := ((j + 1) mod n_circ)%nat in
  let v00 := (i * n_circ + j)%nat in
  let v01 := (i * n_circ + j_next)%nat in
  let v10 := ((i + 1) * n_circ + j)%nat in
  let v11 := ((i + 1) * n_circ + j_next)%nat in
  do triangles <- modify triangles t (fun tri => (v00, tri.1.2, tri.2));
  do triangles <- modify triangles t (fun tri => (tri.1.1, v10, tri.2));
  do triangles <- modify triangles t (fun tri => (tri.1.1, tri.1.2, v01));
  let t := (t + 1)%nat in
  do triangles <- modify triangles t (fun tri => (v01, tri.1.2, tri.2));
  do triangles <- modify triangles t (fun tri => (tri.1.1, v10, tri.2));
  do triangles <- modify triangles t (fun tri => (tri.1.1, tri.1.2, v11));
  let t := (t + 1)%nat in
  Ok (triangles, t).

(** The body of the loop over the rings.  [i_closest] is an integer; a
    ring has vertices only when [n_circ] is positive, and then [i_closest]
    is not negative (the call has failed before for [n_axial < 2], and
    [z_target] is positive only for a positive [length]), so that the
    indices are natural numbers. *)
Definition ring_row (length : R) (n_circ n_axial : nat) (ring : nat)
  : result (list nat) :=
  let z_target := INR ring * RING_SPACING in
  do q <- py_div (z_target * IZR (Z.of_nat n_axial - 1)) length;
  let i_closest := py_round q in
  let ring_verts :=
    map (fun j => Z.to_nat (i_closest * Z.of_nat n_circ + Z.of_nat j))
        (seq 0 n_circ) in
  Ok ring_verts.

(** [generate_cylinder], for natural numbers [n_circ] and [n_axial] and
    Python floats [length] and [radius].  [n_axial - 1] is negative for
    [n_axial = 0]: [range(n_axial - 1)] is empty then, and [np.zeros]
    refuses the negative [n_triangles] unless [n_circ] is zero; the end
    group is empty in that case, the only one where [(n_axial - 1) * n_circ]
    is not a natural number.  [int] and [round] are taken of the real
    quotients. *)
Definition generate_cylinder (n_circ n_axial : nat) (length radius : R)
  : outcome mesh :=
  let n_vertices := (n_circ * n_axial)%nat in
  let vertices := repeat vzero n_vertices in
  match foldM (place_row length radius n_circ n_axial) vertices
              (seq 0 n_axial) with
  | Raise e => Fails (Builtin e)
  | Ok vertices =>
      let n_triangles := (2 * Z.of_nat n_circ * (Z.of_nat n_axial - 1))%Z in
      if (n_triangles <? 0)%Z then Fails ValueError
      else
        let triangles := repeat (0, 0, 0)%nat (Z.to_nat n_triangles) in
        match foldM (fun st i => foldM (quad n_circ i) st (seq 0 n_circ))
                    (triangles, 0%nat) (seq 0 (n_axial - 1)) with
        | Raise e => Fails (Builtin e)
        | Ok (triangles, _) =>
            let n_rings := (py_int (length / RING_SPACING) + 1)%Z in
            match mapM (ring_row length n_circ n_axial)
                       (seq 0 (Z.to_nat n_rings)) with
            | Raise e => Fails (Builtin e)
            | Ok ring_indices =>
                let start_vertices := seq 0 n_circ in
                let end_vertices :=
                  map (fun j => ((n_axial - 1) * n_circ + j)%nat)
                      (seq 0 n_circ) in
                Returns (vertices, triangles, ring_indices,
                         (start_vertices, end_vertices))
            end
        end
  end.

(** ** driver.py *)

(** What [run_simulation] ends with: the call of [create_animation] of
    render.py with the frames, the triangles and the frame rate (the drawing
    itself and the output path are left out), or the warning that no frames
    were collected. *)
Inductive ending : Type :=
| CreateAnimation (frames : list array) (triangles : list triangle) (fps : R)
| NoFramesWarning.

(** [run_simulation].  [sim_time] is the wall-clock time the call of
    [simulate] took, which the log line divides by [duration]; [fuel] and
    [intr] are those of [simulate], which is called with its default step
    [DT]. *)
Definition run_simulation (fl : R -> R) (fuel : nat)
    (intr : option (nat * phase))
    (sim_time : R) (duration fps : R) (reduced_mesh : bool)
  : option (outcome ending) :=
  let generated :=
    if reduced_mesh
    then generate_cylinder 12 30 TUBE_LENGTH TUBE_RADIUS
    else generate_cylinder N_CIRCUMFERENTIAL N_AXIAL TUBE_LENGTH TUBE_RADIUS in
  match generated with
  | Fails e => Some (Fails e)
  | Returns (vertices, triangles, ring_indices, end_vertices) =>
      match build_springs vertices triangles with
      | Raise e => Some (Fails (Builtin e))
      | Ok springs =>
          match simulate fl fuel intr vertices triangles springs ring_indices
                  end_vertices duration DT fps with
          | None => None
          | Some (Raise e) => Some (Fails (Builtin e))
          | Some (Ok frames) =>
              match py_div sim_time duration with
              | Raise e => Some (Fails (Builtin e))
              | Ok _ =>
                  match frames with
                  | _ :: _ => Some (Returns (CreateAnimation frames triangles fps))
                  | [] => Some (Returns NoFramesWarning)
                  end
              end
          end
      end
  end.

(** * Vocabulary of the statements *)

(** Every row of the array has a zero axial entry. *)
Definition axis_free (forces : array) : Prop :=
  forall i f, forces !! i = Some f -> vz f = 0.

(** The ring indices an array of [n] rows can be indexed with. *)
Definition rings_in_range (n : nat) (ring_indices : list (list nat)) : Prop :=
  Forall (Forall (fun idx => (idx < n)%nat)) ring_indices.

(** A mesh whose indices are rows of an array of [n] rows, and whose first
    end group is empty only if the second one is. *)
Definition valid_mesh (n : nat) (triangles : list triangle)
    (springs : list spring) (ring_indices : list (list nat))
    (end_vertices : list nat * list nat) : Prop :=
  (forall a b c, (a, b, c) ∈ triangles -> (a < n)%nat /\ (b < n)%nat /\ (c < n)%nat) /\
  (forall s, s ∈ springs -> (spring_i s < n)%nat /\ (spring_j s < n)%nat) /\
  rings_in_range n ring_indices /\
  (forall idx, idx ∈ end_vertices.1 ++ end_vertices.2 -> (idx < n)%nat) /\
  (end_vertices.1 <> [] \/ end_vertices.2 = []).

(** The arrays of the state keep the shape of the mesh. *)
Definition shaped (n : nat) (s : state) : Prop :=
  length (s_positions s) = n /\ length (s_velocities s) = n.

(** The thin-shell estimate of the mass of the tube: the volume of a thin
    cylinder times the wall density. *)
Definition shell_mass : R :=
  PI * (2 * TUBE_RADIUS) * TUBE_LENGTH * WALL_THICKNESS * WALL_DENSITY.

(** The sum of the z entries of the rows of a group. *)
Definition z_total (forces : array) (group : list nat) : R :=
  foldr (fun idx acc => match forces !! idx with
                        | Some f => vz f + acc
                        | None => acc
                        end) 0 group.

(** The force that a spring [(i, j, rest_length, k)] exerts on its first
    endpoint when the endpoints are at [x_i] and [x_j]: Hooke's law along
    the direction from [i] to [j]. *)
Definition spring_force (dv : R -> R -> R) (x_i x_j : vec3)
    (rest_length k : R) : vec3 :=
  let displacement := vsub x_j x_i in
  vscale (k * (norm displacement - rest_length))
         (vdiv dv displacement (norm displacement)).

(** A division that agrees with the real one on every divisor that is not
    below the numerical floor. *)
Definition agrees_above_floor (dv : R -> R -> R) : Prop :=
  forall x d, 1e-10 <= d -> dv x d = x / d.

(** A division that is wrong below the floor: it returns [0] there. *)
Definition floored_div (x d : R) : R :=
  if Rlt_dec d 1e-10 then 0 else x / d.

(** The three sides of a triangle, as the ordered pairs
    [(tri[i], tri[(i+1)%3])]. *)
Definition sides (tri : triangle) : list (nat * nat) :=
  let '(a, b, c) := tri in [(a, b); (b, c); (c, a)].

(** [{i, j}] is a side of [tri], in either orientation. *)
Definition undirected_edge (tri : triangle) (i j : nat) : Prop :=
  (i, j) ∈ sides tri \/ (j, i) ∈ sides tri.

(** The three indices of the triangle differ. *)
Definition proper (tri : triangle) : Prop :=
  let '(a, b, c) := tri in a <> b /\ b <> c /\ c <> a.

(** The endpoints [(i, j)] of a spring. *)
Definition endpoints (s : spring) : nat * nat := (spring_i s, spring_j s).

(** The rounding that changes nothing: every sum of times is kept as the
    real number it is. *)
Definition unrounded (x : R) : R := x.

(** What the statements use of the rounding of a time to a float: it is
    monotone and it keeps 0.  Rounding to the nearest binary64 float is such
    a rounding. *)
Definition rounds (fl : R -> R) : Prop :=
  (forall x y, x <= y -> fl x <= fl y) /\ fl 0 = 0.

(** The floats resolve the step [dt] below [t_end]: for a time [t] in
    [[0, t_end)] the float that [t + dt] rounds to is at least [t + dt/2], so
    that [t += dt] moves the time on.  It is so when the rounding has a
    relative error of at most [u] on [[dt, t_end + dt]] and
    [2 * u * (t_end + dt) <= dt]: for binary64, [u = 2^-53], when [t_end/dt]
    is at most [2^52 - 1]. *)
Definition resolves (fl : R -> R) (t_end dt : R) : Prop :=
  0 < dt /\ forall t, 0 <= t -> t < t_end -> t + dt / 2 <= fl (t + dt).

(** What [j] additions of [step] to [0.0] leave in a float: the threshold
    [next_frame_time] after [j] frames for [step = frame_dt], and the time
    [t] after [j] passes for [step = dt]. *)
Fixpoint accumulated (fl : R -> R) (step : R) (j : nat) : R :=
  match j with
  | O => 0.0
  | S j' => fl (accumulated fl step j' + step)
  end.

(** The multiples of [step] below [bound] are added to without rounding:
    [k * step + step] is a float whenever [k * step < bound], as it is for a
    [step] that is a power of two and a [bound] of less than [2^53] steps. *)
Definition exact_on_grid (fl : R -> R) (step bound : R) : Prop :=
  forall k : nat,
    INR k * step < bound -> fl (INR k * step + step) = INR k * step + step.

Section Run.

Variable fl : R -> R.

Variables (vertices : array) (triangles : list triangle)
          (springs : list spring) (ring_indices : list (list nat))
          (end_vertices : list nat * list nat)
          (mass : list R) (t_end dt frame_dt : R).

#[local] Abbreviation body' :=
  (body fl triangles springs ring_indices end_vertices vertices mass dt frame_dt).
#[local] Abbreviation reaches' :=
  (reaches fl triangles springs ring_indices end_vertices vertices mass
     t_end dt frame_dt).



(** Frame number [j] (from 0) is [frame], recorded by pass number [k] (from
    0), which starts at time [t_j] with [j] frames collected. *)
Definition recorded_at (j : nat) (frame : array) (k : nat) (t_j : R) : Prop :=
  exists s s' : state,
    reaches' (initial_state vertices) k s /\ s_t s < t_end /\
    body' s = Ok s' /\
    length (s_frames s) = j /\ s_frames s' = s_frames s ++ [frame] /\
    t_j = s_t s.

(** The invariant of the loop counters after any number of passes: the
    threshold is the accumulated [frame_dt] of the frames collected, and
    the time is at most one step past it. *)
Definition sampled (s : state) : Prop :=
  s_next_frame_time s = accumulated fl frame_dt (length (s_frames s)) /\
  s_t s <= fl (s_next_frame_time s + dt).

(** The invariant of the loop counters after [k] passes when the sums of
    times are exact. *)
Definition cadence (k : nat) (s : state) : Prop :=
  s_t s = INR k * dt /\
  s_next_frame_time s = INR (length (s_frames s)) * frame_dt /\
  s_next_frame_time s - frame_dt <= s_t s - dt < s_next_frame_time s /\
  (k = 0%nat \/ s_t s - dt < t_end).

End Run.

(** A mesh of two vertices joined by one spring, each vertex an end group
    of its own and both on one ring. *)
Definition two_vertices : array := [V3 1 0 0; V3 1 0 1].
Definition one_spring : list spring := [(0%nat, 1%nat, 1, 1)].
Definition one_ring : list (list nat) := [[0%nat; 1%nat]].
Definition two_ends : list nat * list nat := ([0%nat], [1%nat]).

(** The sum of the rows of an array. *)
Definition vsum (a : array) : vec3 := foldr vadd vzero a.

(** The scalar product of two rows. *)
Definition dot (a b : vec3) : R := vx a * vx b + vy a * vy b + vz a * vz b.

(** The position [generate_cylinder] gives vertex [j] of row [i]. *)
Definition cylinder_vertex (n_circ n_axial : nat) (length radius : R)
    (i j : nat) : vec3 :=
  V3 (radius * cos (2 * PI * INR j / INR n_circ))
     (radius * sin (2 * PI * INR j / INR n_circ))
     (length * INR i / IZR (Z.of_nat n_axial - 1)).

(** The two triangles of the quad between rows [i] and [i + 1] and columns
    [j] and [j + 1] (modulo [n_circ]). *)
Definition lower_triangle (n_circ i j : nat) : triangle :=
  ((i * n_circ + j)%nat, ((i + 1) * n_circ + j)%nat,
   (i * n_circ + (j + 1) mod n_circ)%nat).

Definition upper_triangle (n_circ i j : nat) : triangle :=
  ((i * n_circ + (j + 1) mod n_circ)%nat, ((i + 1) * n_circ + j)%nat,
   ((i + 1) * n_circ + (j + 1) mod n_circ)%nat).

(** The indices of row [i] of the mesh. *)
Definition mesh_row (n_circ i : nat) : list nat :=
  map (fun j => (i * n_circ + j)%nat) (seq 0 n_circ).

(** The number of rings [generate_cylinder] asks for. *)
Definition n_rings (length : R) : Z := (py_int (length / RING_SPACING) + 1)%Z.

(** What the loops of [generate_cylinder] leave in the tuple they return:
    the position of every vertex, the two triangles of every quad, one list
    of indices for every ring, and the two end groups. *)
Definition generated (n_circ n_axial : nat) (length radius : R) (m : mesh)
  : Prop :=
  let '(vertices, triangles, ring_indices, end_vertices) := m in
  List.length vertices = (n_circ * n_axial)%nat /\
  (forall i j, (i < n_axial)%nat -> (j < n_circ)%nat ->
     vertices !! (i * n_circ + j)%nat
     = Some (cylinder_vertex n_circ n_axial length radius i j)) /\
  List.length triangles = (2 * n_circ * (n_axial - 1))%nat /\
  (forall i j, (i < n_axial - 1)%nat -> (j < n_circ)%nat ->
     triangles !! (2 * (i * n_circ + j))%nat = Some (lower_triangle n_circ i j) /\
     triangles !! (2 * (i * n_circ + j) + 1)%nat
     = Some (upper_triangle n_circ i j)) /\
  Forall2 (fun ring row => ring_row length n_circ n_axial ring = Ok row)
          (seq 0 (Z.to_nat (n_rings length))) ring_indices /\
  end_vertices = (seq 0 n_circ, mesh_row n_circ (n_axial - 1)).

(** The product of the in-plane parts of a force [F] and a position [v]:
    positive when the force pushes [v] away from the axis, negative when it
    pushes [v] towards it. *)
Definition radial (F v : vec3) : R := vx F * vx v + vy F * vy v.

(** The sum of a list of reals. *)
Definition total (l : list R) : R := foldr Rplus 0 l.

(** * Properties *)

(** ** The [result] monad and arrays *)

Lemma rbind_Ok {A B : Type} (m : result A) (f : A -> result B) (b : B) :
  rbind m f = Ok b -> exists a, m = Ok a /\ f a = Ok b.
Proof. destruct m as [a|e]; simpl; [eauto | discriminate]. Qed.

Lemma get_Ok {A : Type} (a : list A) (i : nat) (x : A) :
  get a i = Ok x <-> a !! i = Some x.
Proof. unfold get. destruct (a !! i); split; congruence. Qed.

Lemma get_lt {A : Type} (a : list A) (i : nat) :
  (i < length a)%nat -> exists x, get a i = Ok x.
Proof.
  intros Hi. destruct (lookup_lt_is_Some_2 a i Hi) as [x Hx].
  exists x. by apply get_Ok.
Qed.

Lemma update_at_Ok (a a' : array) (i : nat) (f : vec3 -> vec3) :
  update_at a i f = Ok a' ->
  exists x, a !! i = Some x /\ a' = <[i := f x]> a.
Proof.
  unfold update_at. intros H. apply rbind_Ok in H as (x & Hx & H).
  apply get_Ok in Hx. exists x. split; [exact Hx|]. by injection H as <-.
Qed.

Lemma update_at_lt (a : array) (i : nat) (f : vec3 -> vec3) :
  (i < length a)%nat ->
  exists x, a !! i = Some x /\ update_at a i f = Ok (<[i := f x]> a).
Proof.
  intros Hi. destruct (lookup_lt_is_Some_2 a i Hi) as [x Hx].
  exists x. split; [done|]. unfold update_at, get. by rewrite Hx.
Qed.

Lemma update_at_total (a : array) (i : nat) (f : vec3 -> vec3) :
  (i < length a)%nat ->
  exists a', update_at a i f = Ok a' /\ length a' = length a.
Proof.
  intros Hi. destruct (update_at_lt a i f Hi) as (x & _ & ->).
  eexists. split; [reflexivity|]. apply length_insert.
Qed.

(** Runs the next [update_at] of the goal, given that its index is in
    range. *)
Ltac step_update :=
  match goal with
  | |- context [update_at ?a ?i ?f] =>
      let a' := fresh "forces" in
      let Hlen := fresh "Hlen" in
      destruct (update_at_total a i f) as (a' & -> & Hlen);
      [lia | cbn [rbind]]
  end.

Lemma update_at_length (a a' : array) (i : nat) (f : vec3 -> vec3) :
  update_at a i f = Ok a' -> length a' = length a.
Proof.
  intros H. apply update_at_Ok in H as (x & _ & ->). apply length_insert.
Qed.

Lemma foldM_invariant {A B : Type} (P : B -> Prop) (f : B -> A -> result B)
    (l : list A) (acc r : B) :
  P acc ->
  (forall b a b', P b -> a ∈ l -> f b a = Ok b' -> P b') ->
  foldM f acc l = Ok r -> P r.
Proof.
  revert acc. induction l as [|x l IH]; simpl; intros acc Hacc Hstep H.
  - congruence.
  - apply rbind_Ok in H as (acc' & Hx & H).
    apply (IH acc'); [| |exact H].
    + eapply Hstep; [exact Hacc | | exact Hx]. left.
    + intros b a b' Hb Ha. apply Hstep; [exact Hb | by right].
Qed.

Lemma foldM_total {A B : Type} (P : B -> Prop) (f : B -> A -> result B)
    (l : list A) (acc : B) :
  P acc ->
  (forall b a, P b -> a ∈ l -> exists b', f b a = Ok b' /\ P b') ->
  exists r, foldM f acc l = Ok r /\ P r.
Proof.
  revert acc. induction l as [|x l IH]; simpl; intros acc Hacc Hstep.
  - eauto.
  - destruct (Hstep acc x Hacc) as (acc' & Hx & Hacc'); [left|].
    rewrite Hx. simpl. apply IH; [exact Hacc'|].
    intros b a Hb Ha. apply Hstep; [exact Hb | by right].
Qed.

Lemma zeros_like_length (a : array) : length (zeros_like a) = length a.
Proof. unfold zeros_like. apply repeat_length. Qed.


Lemma zeros_like_lookup (a : array) (i : nat) (f : vec3) :
  zeros_like a !! i = Some f -> f = vzero.
Proof.
  unfold zeros_like. intros H.
  apply list_elem_of_lookup_2, list_elem_of_In, repeat_spec in H. exact H.
Qed.

Lemma zeros_like_lookup_lt (a : array) (i : nat) :
  (i < length a)%nat -> zeros_like a !! i = Some vzero.
Proof.
  intros Hi.
  destruct (lookup_lt_is_Some_2 (zeros_like a) i) as [f Hf];
    [by rewrite zeros_like_length|].
  by rewrite Hf, (zeros_like_lookup a i f Hf).
Qed.

(** ** Ring constraints act in the plane only *)

Lemma axis_free_zeros (a : array) : axis_free (zeros_like a).
Proof. intros i f H. apply zeros_like_lookup in H. by subst f. Qed.

Lemma axis_free_update (forces forces' : array) (idx : nat) (g : vec3 -> vec3) :
  (forall f, vz (g f) = vz f) ->
  axis_free forces -> update_at forces idx g = Ok forces' -> axis_free forces'.
Proof.
  intros Hg Hfree H. apply update_at_Ok in H as (x & Hx & ->).
  intros i f Hi. destruct (decide (i = idx)) as [->|Hne].
  - rewrite list_lookup_insert_eq in Hi by (by eapply lookup_lt_Some).
    injection Hi as <-. rewrite Hg. by eapply Hfree.
  - rewrite list_lookup_insert_ne in Hi by done. by eapply Hfree.
Qed.

Lemma ring_step_axis_free dv vertices velocities original_vertices
    (forces forces' : array) (idx : nat) :
  axis_free forces ->
  ring_step dv vertices velocities original_vertices forces idx = Ok forces' ->
  axis_free forces'.
Proof.
  unfold ring_step. intros Hfree H.
  apply rbind_Ok in H as (orig_pos & _ & H).
  apply rbind_Ok in H as (curr_pos & _ & H).
  destruct (Rlt_dec (norm_xy orig_pos) 1e-10); [by injection H as <-|].
  destruct (Rlt_dec (norm_xy curr_pos) 1e-10); [by injection H as <-|].
  apply rbind_Ok in H as (f1 & H1 & H).
  apply rbind_Ok in H as (f2 & H2 & H).
  apply rbind_Ok in H as (vel & _ & H).
  eapply axis_free_update in H1; [|done|exact Hfree].
  eapply axis_free_update in H2; [|done|exact H1].
  eapply axis_free_update in H; [exact H|done|exact H2].
Qed.

Lemma ring_step_length dv vertices velocities original_vertices
    (forces forces' : array) (idx : nat) :
  ring_step dv vertices velocities original_vertices forces idx = Ok forces' ->
  length forces' = length forces.
Proof.
  unfold ring_step. intros H.
  apply rbind_Ok in H as (orig_pos & _ & H).
  apply rbind_Ok in H as (curr_pos & _ & H).
  destruct (Rlt_dec (norm_xy orig_pos) 1e-10); [congruence|].
  destruct (Rlt_dec (norm_xy curr_pos) 1e-10); [congruence|].
  apply rbind_Ok in H as (f1 & H1 & H).
  apply rbind_Ok in H as (f2 & H2 & H).
  apply rbind_Ok in H as (vel & _ & H).
  apply update_at_length in H1, H2, H. congruence.
Qed.

Lemma ring_step_total dv vertices velocities original_vertices
    (forces : array) (idx : nat) :
  (idx < length original_vertices)%nat -> (idx < length vertices)%nat ->
  (idx < length velocities)%nat -> (idx < length forces)%nat ->
  exists forces',
    ring_step dv vertices velocities original_vertices forces idx = Ok forces'.
Proof.
  intros Ho Hv Hw Hf. unfold ring_step.
  destruct (get_lt original_vertices idx Ho) as [orig_pos ->].
  destruct (get_lt vertices idx Hv) as [curr_pos ->].
  destruct (get_lt velocities idx Hw) as [vel Hvel]. simpl.
  destruct (Rlt_dec (norm_xy orig_pos) 1e-10); [eauto|].
  destruct (Rlt_dec (norm_xy curr_pos) 1e-10); [eauto|].
  cbv zeta. step_update. step_update. rewrite Hvel. cbn [rbind].
  step_update. eauto.
Qed.

Lemma compute_ring_constraints_total dv vertices velocities ring_indices
    original_vertices :
  length velocities = length vertices ->
  length original_vertices = length vertices ->
  rings_in_range (length vertices) ring_indices ->
  exists forces,
    compute_ring_constraints dv vertices velocities ring_indices
      original_vertices = Ok forces.
Proof.
  intros Hvel Horig Hrings. unfold compute_ring_constraints.
  destruct (foldM_total (fun forces : array => length forces = length vertices)
    (fun forces ring =>
       foldM (ring_step dv vertices velocities original_vertices) forces ring)
    ring_indices (zeros_like vertices)) as (forces & H & _);
    [apply zeros_like_length | | eauto].
  intros forces ring Hlen Hring.
  apply foldM_total; [exact Hlen|].
  intros forces1 idx Hlen1 Hidx.
  assert (Hlt : (idx < length vertices)%nat).
  { unfold rings_in_range in Hrings. rewrite Forall_forall in Hrings.
    specialize (Hrings ring Hring). rewrite Forall_forall in Hrings. auto. }
  destruct (ring_step_total dv vertices velocities original_vertices
              forces1 idx) as [forces2 H2]; try lia.
  exists forces2. split; [exact H2|].
  apply ring_step_length in H2. lia.
Qed.

Lemma compute_ring_constraints_length dv vertices velocities ring_indices
    original_vertices (forces : array) :
  compute_ring_constraints dv vertices velocities ring_indices
    original_vertices = Ok forces ->
  length forces = length vertices.
Proof.
  unfold compute_ring_constraints. intros H.
  eapply (foldM_invariant (fun forces : array => length forces = length vertices))
    in H; [exact H | apply zeros_like_length |].
  intros b ring b' Hb _ Hring.
  eapply (foldM_invariant (fun forces : array => length forces = length vertices));
    [exact Hb | | exact Hring].
  intros c idx c' Hlen _ Hstep. apply ring_step_length in Hstep. lia.
Qed.

(** C7: [compute_ring_constraints] returns a force array whenever the ring
    indices are rows of its three input arrays, and the array it returns has
    as many rows as [vertices] with a zero axial (z) entry in every row: the
    radial restoring term and the radial damping term are added to the x and
    y entries only. *)
Theorem ring_constraints_axial_zero dv vertices velocities ring_indices
    original_vertices :
  (length velocities = length vertices ->
   length original_vertices = length vertices ->
   rings_in_range (length vertices) ring_indices ->
   exists forces : array,
     compute_ring_constraints dv vertices velocities ring_indices
       original_vertices = Ok forces) /\
  (forall forces : array,
     compute_ring_constraints dv vertices velocities ring_indices
       original_vertices = Ok forces ->
     length forces = length vertices /\
     forall i f, forces !! i = Some f -> vz f = 0).
Proof.
  split; [apply compute_ring_constraints_total|].
  intros forces H.
  split; [by eapply compute_ring_constraints_length|].
  unfold compute_ring_constraints in H.
  eapply (foldM_invariant axis_free) in H.
  - exact H.
  - apply axis_free_zeros.
  - intros b ring b' Hb _ Hring.
    eapply (foldM_invariant axis_free); [exact Hb | | exact Hring].
    intros c idx c' Hfree _ Hstep. by eapply ring_step_axis_free.
Qed.

Lemma ring_constraints_axial_zero_witness :
  exists forces : array,
    compute_ring_constraints Rdiv [V3 1 0 0; V3 0 2 1] [V3 0 0 0; V3 3 0 1]
      [[0%nat; 1%nat]; [1%nat]] [V3 1 0 0; V3 0 1 1] = Ok forces /\
    length forces = 2%nat /\
    forall i f, forces !! i = Some f -> vz f = 0.
Proof.
  destruct (ring_constraints_axial_zero Rdiv
              [V3 1 0 0; V3 0 2 1] [V3 0 0 0; V3 3 0 1]
              [[0%nat; 1%nat]; [1%nat]] [V3 1 0 0; V3 0 1 1])
    as [Htotal Hzero].
  destruct Htotal as [forces H]; [reflexivity | reflexivity | |].
  - repeat constructor.
  - exists forces. split; [exact H|]. exact (Hzero forces H).
Defined.

(** ** The pressure policy *)

Lemma PRESSURE_PERIOD_pos : 0 < PRESSURE_PERIOD.
Proof. unfold PRESSURE_PERIOD. lra. Qed.

(** [py_mod t p] is the remainder of [t] modulo [p]: it lies in [[0, p)]
    and differs from [t] by a whole number of periods. *)
Lemma py_mod_spec (t p : R) :
  0 < p ->
  0 <= py_mod t p < p /\ t = IZR (Zfloor (t / p)) * p + py_mod t p.
Proof.
  intros Hp. unfold py_mod.
  pose proof (Zfloor_bound (t / p)) as [Hlo Hhi].
  assert (Ht : t = t / p * p) by (field; lra).
  split; [|lra].
  split.
  - apply Rmult_le_compat_r with (r := p) in Hlo; lra.
  - apply Rmult_lt_compat_r with (r := p) in Hhi; lra.
Qed.

Lemma py_mod_unique (t p r : R) (q : Z) :
  0 < p -> 0 <= r < p -> t = IZR q * p + r -> py_mod t p = r.
Proof.
  intros Hp Hr Ht. unfold py_mod.
  assert (Hq : Zfloor (t / p) = q).
  { apply Zfloor_eq.
    assert (Hdiv : t / p = IZR q + r / p) by (subst t; field; lra).
    rewrite Hdiv.
    pose proof (Rinv_0_lt_compat p Hp) as Hinv.
    assert (Hone : p * / p = 1) by (field; lra).
    unfold Rdiv. split; nra. }
  rewrite Hq. lra.
Qed.

Lemma py_mod_period (t p : R) : 0 < p -> py_mod (t + p) p = py_mod t p.
Proof.
  intros Hp. destruct (py_mod_spec t p Hp) as [Hr Ht].
  apply py_mod_unique with (q := (Zfloor (t / p) + 1)%Z); [done..|].
  rewrite plus_IZR. lra.
Qed.

Lemma py_mod_periods (t p : R) (k : Z) :
  0 < p -> py_mod (t + IZR k * p) p = py_mod t p.
Proof.
  intros Hp. destruct (py_mod_spec t p Hp) as [Hr Ht].
  apply py_mod_unique with (q := (Zfloor (t / p) + k)%Z); [done..|].
  rewrite plus_IZR. lra.
Qed.

(** The float 5.0, the value of [PRESSURE_PERIOD]. *)
Lemma float_value_period :
  float_value (float 5629499534213120 (-50)) = PRESSURE_PERIOD.
Proof.
  unfold float_value, float, PRESSURE_PERIOD.
  change (0 <=? -50)%Z with false. cbv iota zeta.
  change (2 ^ (- (-50)))%Z with 1125899906842624%Z. lra.
Qed.

(** C4 (amended): [pressure_at_time] is a function of the time alone.
    With [phase = t mod PRESSURE_PERIOD], the remainder in [[0, period)]
    that differs from [t] by a whole number of periods, the pressure is
    [PRESSURE_AMPLITUDE] when [phase < PRESSURE_ON_DURATION] and [0]
    otherwise.  It depends on the time through the phase only, so it is
    periodic in the time itself: two times that differ by a whole number of
    periods get the same pressure, and so do the floats [t] and
    [t + period] whenever that float sum is the exact sum. *)
Theorem pressure_at_time_square_wave (t : R) :
  let phase := py_mod t PRESSURE_PERIOD in
  (0 <= phase < PRESSURE_PERIOD /\
   exists q : Z, t = IZR q * PRESSURE_PERIOD + phase) /\
  ((phase < PRESSURE_ON_DURATION /\ pressure_at_time t = PRESSURE_AMPLITUDE) \/
   (PRESSURE_ON_DURATION <= phase /\ pressure_at_time t = 0)) /\
  (forall t' : R,
     py_mod t' PRESSURE_PERIOD = phase ->
     pressure_at_time t' = pressure_at_time t) /\
  (forall k : Z,
     pressure_at_time (t + IZR k * PRESSURE_PERIOD) = pressure_at_time t) /\
  (forall x period : binary64,
     float_value x = t -> float_value period = PRESSURE_PERIOD ->
     float_value (float_add x period) = t + PRESSURE_PERIOD ->
     pressure_at_time (float_value (float_add x period))
     = pressure_at_time (float_value x)).
Proof.
  intros phase.
  destruct (py_mod_spec t PRESSURE_PERIOD PRESSURE_PERIOD_pos) as [Hr Ht].
  fold phase in Hr, Ht.
  assert (Hperiods : forall k : Z,
            pressure_at_time (t + IZR k * PRESSURE_PERIOD) = pressure_at_time t).
  { intros k. unfold pressure_at_time.
    by rewrite (py_mod_periods t PRESSURE_PERIOD k PRESSURE_PERIOD_pos). }
  split; [split; [exact Hr | eauto] |].
  split; [|split; [|split; [exact Hperiods|]]].
  - unfold pressure_at_time. fold phase.
    destruct (Rlt_dec phase PRESSURE_ON_DURATION) as [Hlt|Hge].
    + left. split; [exact Hlt | reflexivity].
    + right. split; lra.
  - intros t' Hphase. unfold pressure_at_time. fold phase. by rewrite Hphase.
  - intros x period Hx _ Hsum. rewrite Hsum, Hx.
    rewrite <- (Hperiods 1%Z). f_equal. lra.
Qed.

(** The policy at the switching instants of the first two periods. *)
Example pressure_at_time_samples :
  pressure_at_time 0 = PRESSURE_AMPLITUDE /\
  pressure_at_time 0.49 = PRESSURE_AMPLITUDE /\
  pressure_at_time 0.5 = 0 /\
  pressure_at_time 4.99 = 0 /\
  pressure_at_time 5 = PRESSURE_AMPLITUDE /\
  pressure_at_time 5.5 = 0.
Proof.
  assert (Hval : forall (q : Z) (r : R),
             0 <= r < 5 ->
             pressure_at_time (IZR q * PRESSURE_PERIOD + r)
             = if Rlt_dec r 0.5 then PRESSURE_AMPLITUDE else 0).
  { intros q r Hr. unfold pressure_at_time.
    rewrite (py_mod_unique _ PRESSURE_PERIOD r q);
      [| apply PRESSURE_PERIOD_pos | unfold PRESSURE_PERIOD; lra | reflexivity].
    unfold PRESSURE_ON_DURATION.
    destruct (Rlt_dec r 0.5); [reflexivity | lra]. }
  unfold PRESSURE_PERIOD in Hval.
  repeat split.
  - replace 0 with (IZR 0 * 5.0 + 0) at 1 by lra. rewrite Hval by lra.
    destruct (Rlt_dec 0 0.5); [reflexivity | lra].
  - replace 0.49 with (IZR 0 * 5.0 + 0.49) at 1 by lra. rewrite Hval by lra.
    destruct (Rlt_dec 0.49 0.5); [reflexivity | lra].
  - replace 0.5 with (IZR 0 * 5.0 + 0.5) at 1 by lra. rewrite Hval by lra.
    destruct (Rlt_dec 0.5 0.5); [lra | reflexivity].
  - replace 4.99 with (IZR 0 * 5.0 + 4.99) at 1 by lra. rewrite Hval by lra.
    destruct (Rlt_dec 4.99 0.5); [lra | reflexivity].
  - replace 5 with (IZR 1 * 5.0 + 0) at 1 by lra. rewrite Hval by lra.
    destruct (Rlt_dec 0 0.5); [reflexivity | lra].
  - replace 5.5 with (IZR 1 * 5.0 + 0.5) at 1 by lra. rewrite Hval by lra.
    destruct (Rlt_dec 0.5 0.5); [lra | reflexivity].
Qed.

(** C4 as stated fails in the floats the program computes with: the sum
    [t + period] is rounded, and the rounded sum can fall in another part of
    the cycle.  For the float [t = 0.49999999999999994], the largest below
    0.5, the pressure is on, and the float sum [t + 5.0] is 5.5, where the
    pressure is off. *)
Lemma pressure_at_time_float_period :
  let t := float 9007199254740991 (-54) in
  let period := float 5629499534213120 (-50) in
  float_value period = PRESSURE_PERIOD /\
  0 <= float_value t < 0.5 /\
  float_add t period = float 6192449487634432 (-50) /\
  float_value (float_add t period) = 5.5 /\
  pressure_at_time (float_value t) = PRESSURE_AMPLITUDE /\
  pressure_at_time (float_value (float_add t period)) = 0 /\
  pressure_at_time (float_value (float_add t period))
  <> pressure_at_time (float_value t).
Proof.
  intros t period.
  assert (Hsum : float_add t period = float 6192449487634432 (-50)).
  { vm_compute. reflexivity. }
  assert (Ht : float_value t = 9007199254740991 / 18014398509481984).
  { unfold float_value, t, float.
    change (0 <=? -54)%Z with false. cbv iota zeta.
    by change (2 ^ (- (-54)))%Z with 18014398509481984%Z. }
  assert (Hs : float_value (float 6192449487634432 (-50)) = 5.5).
  { unfold float_value, float.
    change (0 <=? -50)%Z with false. cbv iota zeta.
    change (2 ^ (- (-50)))%Z with 1125899906842624%Z. lra. }
  assert (Hon : pressure_at_time (float_value t) = PRESSURE_AMPLITUDE).
  { unfold pressure_at_time.
    rewrite (py_mod_unique (float_value t) PRESSURE_PERIOD (float_value t) 0);
      [| apply PRESSURE_PERIOD_pos | unfold PRESSURE_PERIOD; rewrite Ht; lra
       | lra].
    unfold PRESSURE_ON_DURATION.
    destruct (Rlt_dec (float_value t) 0.5) as [_|Hge]; [reflexivity|].
    rewrite Ht in Hge. lra. }
  assert (Hoff : pressure_at_time 5.5 = 0) by apply pressure_at_time_samples.
  split; [exact float_value_period|].
  split; [rewrite Ht; lra|].
  split; [exact Hsum|]. rewrite Hsum, Hs.
  split; [reflexivity|]. split; [exact Hon|]. split; [exact Hoff|].
  rewrite Hon, Hoff. unfold PRESSURE_AMPLITUDE. lra.
Qed.

(** ** The external load *)

Lemma py_div_Ok (x y : R) : y <> 0 -> py_div x y = Ok (x / y).
Proof. intros Hy. unfold py_div. by destruct (Req_EM_T y 0). Qed.

Lemma py_div_zero (x : R) : py_div x 0 = Raise ZeroDivisionError.
Proof. unfold py_div. by destruct (Req_EM_T 0 0). Qed.

(** One of the two loops of [apply_external_load]: row [i] keeps its x and
    y entries, and [op _ (load / n_end)] is applied to its z entry once for
    every occurrence of [i] in the group. *)
Lemma load_loop_spec (op : R -> R -> R) (load : R) (n_end : nat)
    (group : list nat) (forces : array) :
  (forall idx, idx ∈ group -> (idx < length forces)%nat) ->
  n_end <> 0%nat \/ group = [] ->
  exists forces' : array,
    foldM (load_step op load n_end) forces group = Ok forces' /\
    length forces' = length forces /\
    forall i f, forces !! i = Some f ->
      forces' !! i =
        Some (V3 (vx f) (vy f)
                 (Nat.iter (count_occ Nat.eq_dec group i)
                           (fun z => op z (load / INR n_end)) (vz f))).
Proof.
  revert forces. induction group as [|idx group IH]; intros forces Hrange Hn.
  - exists forces. simpl. repeat split. intros i [x y z] Hi. exact Hi.
  - assert (Hn0 : n_end <> 0%nat) by (by destruct Hn).
    destruct (get_lt forces idx) as [f0 Hf0]; [apply Hrange; left|].
    cbn [foldM]. unfold load_step at 1. rewrite Hf0. cbn [rbind].
    rewrite py_div_Ok by (by apply not_0_INR). cbn [rbind].
    apply get_Ok in Hf0.
    destruct (IH (<[idx:=V3 (vx f0) (vy f0) (op (vz f0) (load / INR n_end))]> forces))
      as (forces' & Hfold & Hlen & Hrows).
    { intros j Hj. rewrite length_insert. apply Hrange. by right. }
    { by left. }
    exists forces'. split; [exact Hfold|]. split.
    { by rewrite Hlen, length_insert. }
    intros i f Hi. cbn [count_occ].
    destruct (Nat.eq_dec idx i) as [->|Hne].
    + rewrite Hf0 in Hi. injection Hi as ->.
      rewrite (Hrows i _ (list_lookup_insert_eq _ _ _ (lookup_lt_Some _ _ _ Hf0))).
      cbn [vx vy vz]. by rewrite Nat.iter_succ_r.
    + apply Hrows. by rewrite list_lookup_insert_ne.
Qed.

Lemma iter_minus (c : nat) (s z : R) :
  Nat.iter c (fun z => z - s) z = z - INR c * s.
Proof.
  induction c as [|c IH]; [simpl; lra|].
  rewrite Nat.iter_succ, IH, S_INR. lra.
Qed.

Lemma iter_plus (c : nat) (s z : R) :
  Nat.iter c (fun z => z + s) z = z + INR c * s.
Proof.
  induction c as [|c IH]; [simpl; lra|].
  rewrite Nat.iter_succ, IH, S_INR. lra.
Qed.

(** What [apply_external_load] does for any two groups: with
    [share = load / len(end_vertices[0])], row [i] loses [share] in z for
    every occurrence of [i] in [end_vertices[1]] and gains [share] for every
    occurrence in [end_vertices[0]]. *)
Lemma apply_external_load_rows (forces : array) (g0 g1 : list nat) (load : R) :
  (forall idx, idx ∈ g0 ++ g1 -> (idx < length forces)%nat) ->
  g0 <> [] \/ g1 = [] ->
  exists forces' : array,
    apply_external_load forces (g0, g1) load = Ok forces' /\
    length forces' = length forces /\
    forall i f, forces !! i = Some f ->
      forces' !! i =
        Some (V3 (vx f) (vy f)
                 (vz f - INR (count_occ Nat.eq_dec g1 i) * (load / INR (length g0))
                       + INR (count_occ Nat.eq_dec g0 i) * (load / INR (length g0)))).
Proof.
  intros Hrange Hn. unfold apply_external_load. cbn [fst snd].
  destruct (load_loop_spec Rminus load (length g0) g1 forces)
    as (forces1 & -> & Hlen1 & Hrows1).
  { intros idx Hidx. apply Hrange. apply elem_of_app. by right. }
  { destruct Hn as [Hn| ->]; [left|by right]. by destruct g0. }
  cbn [rbind].
  destruct (load_loop_spec Rplus load (length g0) g0 forces1)
    as (forces2 & -> & Hlen2 & Hrows2).
  { intros idx Hidx. rewrite Hlen1. apply Hrange. apply elem_of_app. by left. }
  { destruct g0; [by right | by left]. }
  exists forces2. split; [reflexivity|]. split; [congruence|].
  intros i f Hi.
  rewrite (Hrows2 i _ (Hrows1 i f Hi)). cbn [vx vy vz].
  by rewrite iter_minus, iter_plus.
Qed.

(** Splits a membership [H : x ∈ [a; b; ...]] in a list that is written
    out into its cases. *)
Ltac mem_cases H :=
  repeat (apply elem_of_cons in H as [H|H]; [try subst|]);
  try (by apply elem_of_nil in H).

Lemma z_total_shift (forces forces' : array) (group : list nat) (d : R) :
  (forall idx, idx ∈ group ->
     exists f f', forces !! idx = Some f /\ forces' !! idx = Some f' /\
                  vz f' = vz f + d) ->
  z_total forces' group = z_total forces group + INR (length group) * d.
Proof.
  induction group as [|idx group IH]; intros Hrows.
  - simpl. lra.
  - destruct (Hrows idx) as (f & f' & Hf & Hf' & Hz); [left|].
    cbn [z_total foldr length]. fold (z_total forces group).
    fold (z_total forces' group). rewrite Hf, Hf', Hz, S_INR.
    rewrite IH; [lra|]. intros j Hj. apply Hrows. by right.
Qed.

Lemma count_occ_NoDup_in (l : list nat) (i : nat) :
  NoDup l -> i ∈ l -> count_occ Nat.eq_dec l i = 1%nat.
Proof.
  intros Hnd Hi. apply NoDup_ListNoDup in Hnd.
  apply list_elem_of_In in Hi.
  by apply (proj1 (NoDup_count_occ' Nat.eq_dec l) Hnd).
Qed.

Lemma count_occ_notin (l : list nat) (i : nat) :
  i ∉ l -> count_occ Nat.eq_dec l i = 0%nat.
Proof.
  intros Hi. apply count_occ_not_In. by rewrite <- list_elem_of_In.
Qed.

(** C8 (amended): when the two end groups are duplicate-free, disjoint and
    of one nonzero size [n], and index into [forces], [apply_external_load]
    subtracts [load / n] from the z entry of every row of [end_vertices[1]]
    and adds [load / n] to the z entry of every row of [end_vertices[0]]:
    a total of [load] downwards on the one group and [load] upwards on the
    other.  The x and y entries of every row, and the rows outside the two
    groups, are unchanged. *)
Theorem apply_external_load_equal_groups (forces : array) (g0 g1 : list nat)
    (load : R) :
  NoDup g0 -> NoDup g1 -> (forall idx, idx ∈ g0 -> idx ∉ g1) ->
  g0 <> [] -> length g1 = length g0 ->
  (forall idx, idx ∈ g0 ++ g1 -> (idx < length forces)%nat) ->
  exists forces' : array,
    apply_external_load forces (g0, g1) load = Ok forces' /\
    length forces' = length forces /\
    (forall i f, forces !! i = Some f ->
       exists f', forces' !! i = Some f' /\ vx f' = vx f /\ vy f' = vy f /\
         ((i ∈ g1 /\ vz f' = vz f - load / INR (length g1)) \/
          (i ∈ g0 /\ vz f' = vz f + load / INR (length g0)) \/
          ((i ∉ g0) /\ (i ∉ g1) /\ vz f' = vz f))) /\
    z_total forces' g1 = z_total forces g1 - load /\
    z_total forces' g0 = z_total forces g0 + load.
Proof.
  intros Hnd0 Hnd1 Hdisj Hne Hlen Hrange.
  destruct (apply_external_load_rows forces g0 g1 load Hrange)
    as (forces' & Hok & Hlen' & Hrows); [by left|].
  assert (Hn : INR (length g0) <> 0).
  { apply not_0_INR. by destruct g0. }
  assert (Hin1 : forall i f, i ∈ g1 -> forces !! i = Some f ->
            forces' !! i = Some (V3 (vx f) (vy f) (vz f - load / INR (length g0)))).
  { intros i f Hi Hf. rewrite (Hrows i f Hf).
    rewrite (count_occ_NoDup_in g1 i Hnd1 Hi).
    rewrite (count_occ_notin g0 i) by (intros Hi0; by apply (Hdisj i)).
    do 2 f_equal. simpl. lra. }
  assert (Hin0 : forall i f, i ∈ g0 -> forces !! i = Some f ->
            forces' !! i = Some (V3 (vx f) (vy f) (vz f + load / INR (length g0)))).
  { intros i f Hi Hf. rewrite (Hrows i f Hf).
    rewrite (count_occ_NoDup_in g0 i Hnd0 Hi).
    rewrite (count_occ_notin g1 i) by (by apply Hdisj).
    do 2 f_equal. simpl. lra. }
  exists forces'. split; [exact Hok|]. split; [exact Hlen'|]. split; [|split].
  - intros i f Hf.
    destruct (decide (i ∈ g1)) as [Hi1|Hi1].
    { eexists. split; [by apply Hin1|]. cbn [vx vy vz].
      rewrite Hlen. auto. }
    destruct (decide (i ∈ g0)) as [Hi0|Hi0].
    { eexists. split; [by apply Hin0|]. cbn [vx vy vz]. auto 6. }
    eexists. split; [by apply Hrows|]. cbn [vx vy vz].
    rewrite !count_occ_notin by done. simpl.
    repeat split; auto. right. right. repeat split; auto. lra.
  - rewrite (z_total_shift forces forces' g1 (- (load / INR (length g0)))).
    { rewrite Hlen. field. exact Hn. }
    intros idx Hidx.
    destruct (lookup_lt_is_Some_2 forces idx) as [f Hf].
    { apply Hrange. apply elem_of_app. by right. }
    exists f. eexists. split; [exact Hf|]. split; [by apply Hin1|].
    cbn [vz]. lra.
  - rewrite (z_total_shift forces forces' g0 (load / INR (length g0))).
    { field. exact Hn. }
    intros idx Hidx.
    destruct (lookup_lt_is_Some_2 forces idx) as [f Hf].
    { apply Hrange. apply elem_of_app. by left. }
    exists f. eexists. split; [exact Hf|]. split; [by apply Hin0|].
    reflexivity.
Qed.

Lemma apply_external_load_equal_groups_witness :
  exists forces' : array,
    apply_external_load [vzero; vzero; vzero; vzero]
      ([0%nat; 1%nat], [2%nat; 3%nat]) 10 = Ok forces' /\
    z_total forces' [2%nat; 3%nat] = -10 /\
    z_total forces' [0%nat; 1%nat] = 10.
Proof.
  destruct (apply_external_load_equal_groups [vzero; vzero; vzero; vzero]
              [0%nat; 1%nat] [2%nat; 3%nat] 10)
    as (forces' & Hok & _ & _ & H1 & H0).
  - by apply (bool_decide_unpack _).
  - by apply (bool_decide_unpack _).
  - intros idx H0 H1. mem_cases H0; mem_cases H1; discriminate.
  - discriminate.
  - reflexivity.
  - intros idx Hidx. simpl. mem_cases Hidx; lia.
  - exists forces'. split; [exact Hok|]. rewrite H1, H0. simpl. split; lra.
Defined.

(** C8 as stated fails when the groups differ in size: both loops divide
    by [len(end_vertices[0])].  With one vertex in the first group and two
    in the second, each of the two receives the whole load, so the second
    group is pushed down by [2 * load]. *)
Lemma apply_external_load_unequal_groups :
  apply_external_load [vzero; vzero; vzero] ([0%nat], [1%nat; 2%nat]) 10
  = Ok [V3 0 0 10; V3 0 0 (-10); V3 0 0 (-10)] /\
  z_total [V3 0 0 10; V3 0 0 (-10); V3 0 0 (-10)] [1%nat; 2%nat]
  <> z_total [vzero; vzero; vzero] [1%nat; 2%nat] - 10.
Proof.
  split.
  - unfold apply_external_load, load_step. cbn [fst snd length foldM].
    assert (H1 : INR 1 <> 0) by (simpl; lra).
    unfold get. cbn. rewrite !py_div_Ok by exact H1. cbn.
    unfold vzero. cbn.
    assert (Hd : 10 / 1 = 10) by lra.
    rewrite Hd.
    replace (0 - 10) with (- 10) by lra.
    replace (0 + 10) with 10 by lra.
    reflexivity.
  - simpl. lra.
Qed.

(** ** Spring forces *)

Lemma foldM_app {A B : Type} (f : B -> A -> result B) (acc : B) (l1 l2 : list A) :
  foldM f acc (l1 ++ l2) = (do r <- foldM f acc l1; foldM f r l2).
Proof.
  revert acc. induction l1 as [|x l1 IH]; intros acc; simpl; [reflexivity|].
  destruct (f acc x) as [acc'|e]; simpl; [apply IH | reflexivity].
Qed.

Lemma spring_step_skip dv (vertices forces : array) (i j : nat)
    (rest_length k : R) (x_i x_j : vec3) :
  vertices !! i = Some x_i -> vertices !! j = Some x_j ->
  norm (vsub x_j x_i) < 1e-10 ->
  spring_step dv vertices forces (i, j, rest_length, k) = Ok forces.
Proof.
  intros Hi Hj Hshort. unfold spring_step, get. rewrite Hi, Hj. cbn [rbind].
  by destruct (Rlt_dec (norm (vsub x_j x_i)) 1e-10).
Qed.

Lemma spring_step_apply dv (vertices forces : array) (i j : nat)
    (rest_length k : R) (x_i x_j : vec3) :
  vertices !! i = Some x_i -> vertices !! j = Some x_j ->
  1e-10 <= norm (vsub x_j x_i) ->
  spring_step dv vertices forces (i, j, rest_length, k) =
    (do forces <- update_at forces i
                    (fun f => vadd f (spring_force dv x_i x_j rest_length k));
     update_at forces j
       (fun f => vsub f (spring_force dv x_i x_j rest_length k))).
Proof.
  intros Hi Hj Hlong. unfold spring_step, get. rewrite Hi, Hj. cbn [rbind].
  destruct (Rlt_dec (norm (vsub x_j x_i)) 1e-10); [lra | reflexivity].
Qed.

Lemma spring_step_length dv (vertices forces forces' : array) (s : spring) :
  spring_step dv vertices forces s = Ok forces' ->
  length forces' = length forces.
Proof.
  destruct s as [[[i j] rest_length] k]. unfold spring_step. intros H.
  apply rbind_Ok in H as (x_i & _ & H).
  apply rbind_Ok in H as (x_j & _ & H).
  destruct (Rlt_dec (norm (vsub x_j x_i)) 1e-10); [congruence|].
  apply rbind_Ok in H as (forces1 & H1 & H).
  apply update_at_length in H1, H. congruence.
Qed.

Lemma compute_spring_forces_length dv (vertices forces : array)
    (springs : list spring) :
  compute_spring_forces dv vertices springs = Ok forces ->
  length forces = length vertices.
Proof.
  unfold compute_spring_forces. intros H.
  eapply (foldM_invariant (fun forces : array => length forces = length vertices))
    in H; [exact H | apply zeros_like_length |].
  intros b s b' Hb _ Hs. apply spring_step_length in Hs. congruence.
Qed.

Lemma norm_sqr (a : vec3) :
  norm a * norm a = vx a * vx a + vy a * vy a + vz a * vz a.
Proof. unfold norm. apply sqrt_sqrt. nra. Qed.

Lemma norm_vsub_self (a : vec3) : norm (vsub a a) = 0.
Proof.
  unfold norm, vsub. cbn [vx vy vz].
  replace ((vx a - vx a) * (vx a - vx a) + (vy a - vy a) * (vy a - vy a)
           + (vz a - vz a) * (vz a - vz a)) with 0 by ring.
  apply sqrt_0.
Qed.

(** Dividing a vector by its own nonzero length gives a unit vector. *)
Lemma unit_direction (d : vec3) : 0 < norm d -> norm (vdiv Rdiv d (norm d)) = 1.
Proof.
  intros Hpos. pose proof (norm_sqr d) as Hsq.
  unfold norm at 1. unfold vdiv. cbn [vx vy vz].
  replace (vx d / norm d * (vx d / norm d) + vy d / norm d * (vy d / norm d)
           + vz d / norm d * (vz d / norm d))
    with ((vx d * vx d + vy d * vy d + vz d * vz d) / (norm d * norm d))
    by (field; lra).
  rewrite <- Hsq.
  replace (norm d * norm d / (norm d * norm d)) with 1 by (field; lra).
  apply sqrt_1.
Qed.

Lemma vadd_vopp (a : vec3) : vadd a (vopp a) = vzero.
Proof. unfold vadd, vopp, vzero. cbn [vx vy vz]. f_equal; lra. Qed.

Lemma vadd_zero_force (f u : vec3) (k : R) : vadd f (vscale (k * 0) u) = f.
Proof. destruct f. unfold vadd, vscale. cbn [vx vy vz]. f_equal; lra. Qed.

Lemma vsub_zero_force (f u : vec3) (k : R) : vsub f (vscale (k * 0) u) = f.
Proof. destruct f. unfold vsub, vscale. cbn [vx vy vz]. f_equal; lra. Qed.

(** C3: for a spring [(i, j, rest_length, k)] whose current length [L] is
    at least [1e-10], the pass of [compute_spring_forces] over it adds
    [F = k * (L - rest_length) * u] to row [i] and the negated vector to
    row [j], where [u = (x_j - x_i) / L] is the unit vector from [i] to
    [j]; the two contributions cancel, no other row changes, and at
    [L = rest_length] the force array is left as it was. *)
Theorem spring_forces_equal_and_opposite (vertices forces : array)
    (springs : list spring) (i j : nat) (rest_length k : R) (x_i x_j : vec3) :
  compute_spring_forces Rdiv vertices springs = Ok forces ->
  vertices !! i = Some x_i -> vertices !! j = Some x_j ->
  1e-10 <= norm (vsub x_j x_i) ->
  let L := norm (vsub x_j x_i) in
  let u := vdiv Rdiv (vsub x_j x_i) L in
  let F := vscale (k * (L - rest_length)) u in
  norm u = 1 /\
  vadd F (vopp F) = vzero /\
  exists (forces' : array) (f_i f_j : vec3),
    compute_spring_forces Rdiv vertices (springs ++ [(i, j, rest_length, k)])
      = Ok forces' /\
    i <> j /\
    forces !! i = Some f_i /\ forces !! j = Some f_j /\
    forces' !! i = Some (vadd f_i F) /\
    forces' !! j = Some (vadd f_j (vopp F)) /\
    (forall m, m <> i -> m <> j -> forces' !! m = forces !! m) /\
    (L = rest_length -> forces' = forces).
Proof.
  intros Hforces Hi Hj Hlong L u F.
  assert (Hne : i <> j).
  { intros ->. rewrite Hi in Hj. injection Hj as ->.
    rewrite norm_vsub_self in Hlong. lra. }
  split; [unfold u, L; apply unit_direction; lra|].
  split; [apply vadd_vopp|].
  pose proof (compute_spring_forces_length _ _ _ _ Hforces) as Hlen.
  destruct (lookup_lt_is_Some_2 forces i) as [f_i Hfi].
  { rewrite Hlen. by eapply lookup_lt_Some. }
  destruct (lookup_lt_is_Some_2 forces j) as [f_j Hfj].
  { rewrite Hlen. by eapply lookup_lt_Some. }
  exists (<[j := vsub f_j F]> (<[i := vadd f_i F]> forces)), f_i, f_j.
  split.
  { unfold compute_spring_forces in *. rewrite foldM_app, Hforces. cbn [rbind foldM].
    rewrite (spring_step_apply _ _ _ _ _ _ _ x_i x_j Hi Hj Hlong).
    fold L. change (spring_force Rdiv x_i x_j rest_length k) with F.
    unfold update_at, get. rewrite Hfi. cbn [rbind].
    rewrite list_lookup_insert_ne by exact Hne. rewrite Hfj. reflexivity. }
  split; [exact Hne|]. split; [exact Hfi|]. split; [exact Hfj|].
  split.
  { rewrite list_lookup_insert_ne by (by apply not_eq_sym).
    apply list_lookup_insert_eq. by eapply lookup_lt_Some. }
  split.
  { apply list_lookup_insert_eq. rewrite length_insert. by eapply lookup_lt_Some. }
  split.
  { intros m Hmi Hmj. by rewrite !list_lookup_insert_ne by (by apply not_eq_sym). }
  intros Hrest. unfold F. rewrite Hrest, Rminus_diag.
  rewrite vadd_zero_force, vsub_zero_force.
  by rewrite (list_insert_id forces i f_i Hfi), (list_insert_id forces j f_j Hfj).
Qed.

Lemma norm_3_4_0 : norm (vsub (V3 3 4 0) (V3 0 0 0)) = 5.
Proof.
  unfold norm, vsub. cbn [vx vy vz].
  replace ((3 - 0) * (3 - 0) + (4 - 0) * (4 - 0) + (0 - 0) * (0 - 0))
    with (5 * 5) by lra.
  apply sqrt_square. lra.
Qed.

Lemma spring_forces_equal_and_opposite_witness :
  exists forces' : array,
    compute_spring_forces Rdiv [V3 0 0 0; V3 3 4 0] [(0%nat, 1%nat, 4, 2)]
      = Ok forces' /\
    forces' !! 0%nat = Some (V3 (6 / 5) (8 / 5) 0) /\
    forces' !! 1%nat = Some (V3 (- 6 / 5) (- 8 / 5) 0).
Proof.
  destruct (spring_forces_equal_and_opposite
              [V3 0 0 0; V3 3 4 0] [vzero; vzero] [] 0%nat 1%nat 4 2
              (V3 0 0 0) (V3 3 4 0))
    as (_ & _ & forces' & f_i & f_j & Hok & _ & Hfi & Hfj & Hi & Hj & _).
  - reflexivity.
  - reflexivity.
  - reflexivity.
  - rewrite norm_3_4_0. lra.
  - exists forces'. split; [exact Hok|].
    injection Hfi as <-. injection Hfj as <-.
    rewrite Hi, Hj, norm_3_4_0.
    unfold vadd, vopp, vscale, vdiv, vsub, vzero. cbn [vx vy vz].
    split; do 2 f_equal; lra.
Defined.

(** ** Degenerate geometry *)

Lemma foldM_ext {A B : Type} (f g : B -> A -> result B) (acc : B) (l : list A) :
  (forall b a, f b a = g b a) -> foldM f acc l = foldM g acc l.
Proof.
  intros Hfg. revert acc. induction l as [|x l IH]; intros acc; simpl;
    [reflexivity|].
  rewrite Hfg. destruct (g acc x); simpl; [apply IH | reflexivity].
Qed.

(** Taking out of the list an element on which the loop body does nothing
    leaves the result of the loop as it was. *)
Lemma foldM_skip {A B : Type} (f : B -> A -> result B) (acc : B)
    (l1 l2 : list A) (x : A) :
  (forall b, f b x = Ok b) ->
  foldM f acc (l1 ++ x :: l2) = foldM f acc (l1 ++ l2).
Proof.
  intros Hx. rewrite !foldM_app. destruct (foldM f acc l1) as [r|e];
    cbn [rbind foldM]; [|reflexivity].
  by rewrite Hx.
Qed.

Lemma vdiv_agrees dv (a : vec3) (d : R) :
  agrees_above_floor dv -> 1e-10 <= d -> vdiv dv a d = vdiv Rdiv a d.
Proof. intros Hdv Hd. unfold vdiv. by rewrite !Hdv. Qed.

Lemma spring_step_agrees dv (vertices forces : array) (s : spring) :
  agrees_above_floor dv ->
  spring_step dv vertices forces s = spring_step Rdiv vertices forces s.
Proof.
  intros Hdv. destruct s as [[[i j] rest_length] k]. unfold spring_step.
  destruct (get vertices i) as [x_i|]; [|reflexivity].
  destruct (get vertices j) as [x_j|]; [|reflexivity]. cbn [rbind].
  destruct (Rlt_dec (norm (vsub x_j x_i)) 1e-10) as [|Hlong]; [reflexivity|].
  rewrite (vdiv_agrees dv) by (exact Hdv || lra). reflexivity.
Qed.

Lemma pressure_step_agrees dv (vertices forces : array) (pressure : R)
    (tri : triangle) :
  agrees_above_floor dv ->
  pressure_step dv vertices pressure forces tri
  = pressure_step Rdiv vertices pressure forces tri.
Proof.
  intros Hdv. destruct tri as [[t0 t1] t2]. unfold pressure_step.
  destruct (get vertices t0) as [v0|]; [|reflexivity].
  destruct (get vertices t1) as [v1|]; [|reflexivity].
  destruct (get vertices t2) as [v2|]; [|reflexivity]. cbn [rbind].
  destruct (Rlt_dec (0.5 * norm (cross (vsub v1 v0) (vsub v2 v0))) 1e-10)
    as [|Hbig]; [reflexivity|].
  cbv zeta.
  rewrite (vdiv_agrees dv _ (2 * _)) by (exact Hdv || lra).
  rewrite (vdiv_agrees dv _ 3) by (exact Hdv || lra).
  reflexivity.
Qed.

Lemma pressure_step_skip dv (vertices forces : array) (pressure : R)
    (t0 t1 t2 : nat) (v0 v1 v2 : vec3) :
  vertices !! t0 = Some v0 -> vertices !! t1 = Some v1 ->
  vertices !! t2 = Some v2 ->
  0.5 * norm (cross (vsub v1 v0) (vsub v2 v0)) < 1e-10 ->
  pressure_step dv vertices pressure forces (t0, t1, t2) = Ok forces.
Proof.
  intros H0 H1 H2 Hflat. unfold pressure_step, get.
  rewrite H0, H1, H2. cbn [rbind].
  by destruct (Rlt_dec (0.5 * norm (cross (vsub v1 v0) (vsub v2 v0))) 1e-10).
Qed.

Lemma ring_step_agrees dv (vertices velocities original_vertices forces : array)
    (idx : nat) :
  agrees_above_floor dv ->
  ring_step dv vertices velocities original_vertices forces idx
  = ring_step Rdiv vertices velocities original_vertices forces idx.
Proof.
  intros Hdv. unfold ring_step.
  destruct (get original_vertices idx) as [orig_pos|]; [|reflexivity].
  destruct (get vertices idx) as [curr_pos|]; [|reflexivity]. cbn [rbind].
  destruct (Rlt_dec (norm_xy orig_pos) 1e-10); [reflexivity|].
  destruct (Rlt_dec (norm_xy curr_pos) 1e-10) as [|Hbig]; [reflexivity|].
  cbv zeta. rewrite !Hdv by lra. reflexivity.
Qed.

(** ** The spring network *)

Lemma min_max_pair (a b i j : nat) :
  (i, j) = (Nat.min a b, Nat.max a b) <->
  (i <= j)%nat /\ ((i, j) = (a, b) \/ (j, i) = (a, b)).
Proof.
  split.
  - intros [= -> ->]. split; [lia|].
    destruct (Nat.le_ge_cases a b) as [H|H].
    + left. f_equal; lia.
    + right. f_equal; lia.
  - intros [Hle [[= -> ->]|[= -> ->]]]; f_equal; lia.
Qed.

Lemma tri_edges_spec (tri : triangle) (i j : nat) :
  (i, j) ∈ tri_edges tri <-> (i <= j)%nat /\ undirected_edge tri i j.
Proof.
  destruct tri as [[a b] c]. unfold tri_edges, undirected_edge, sides.
  rewrite !elem_of_cons, !elem_of_nil, !min_max_pair. tauto.
Qed.

Lemma add_edges_spec (edges : gset (nat * nat)) (l : list (nat * nat))
    (e : nat * nat) :
  e ∈ foldl (fun edges edge => edges ∪ {[ edge ]}) edges l <-> e ∈ edges \/ e ∈ l.
Proof.
  revert edges. induction l as [|x l IH]; intros edges; simpl.
  - rewrite elem_of_nil. tauto.
  - rewrite IH, elem_of_union, elem_of_singleton, elem_of_cons. tauto.
Qed.

Lemma edge_set_spec (triangles : list triangle) (e : nat * nat) :
  e ∈ edge_set triangles <-> exists tri, tri ∈ triangles /\ e ∈ tri_edges tri.
Proof.
  unfold edge_set.
  assert (Hgen : forall edges : gset (nat * nat),
             e ∈ foldl (fun edges tri =>
                          foldl (fun edges edge => edges ∪ {[ edge ]}) edges
                                (tri_edges tri)) edges triangles
             <-> e ∈ edges \/ exists tri, tri ∈ triangles /\ e ∈ tri_edges tri).
  { induction triangles as [|tri triangles IH]; intros edges; simpl.
    - split; [by left|]. intros [H|(tri & Htri & _)]; [exact H|].
      by apply elem_of_nil in Htri.
    - rewrite IH, add_edges_spec. split.
      + intros [[H|H]|(tri' & Htri' & H)].
        * by left.
        * right. exists tri. split; [left | exact H].
        * right. exists tri'. split; [by right | exact H].
      + intros [H|(tri' & Htri' & H)]; [by left; left|].
        apply elem_of_cons in Htri' as [->|Htri'].
        * left. by right.
        * right. eauto. }
  rewrite Hgen. split; [|by right].
  intros [H|H]; [|exact H]. by apply not_elem_of_empty in H.
Qed.

Lemma mapM_Ok {A B : Type} (f : A -> result B) (l : list A) (r : list B) :
  mapM f l = Ok r -> Forall2 (fun x y => f x = Ok y) l r.
Proof.
  revert r. induction l as [|x l IH]; simpl; intros r H.
  - injection H as <-. constructor.
  - apply rbind_Ok in H as (y & Hy & H).
    apply rbind_Ok in H as (ys & Hys & H). injection H as <-.
    constructor; [exact Hy | by apply IH].
Qed.

Lemma mapM_total {A B : Type} (f : A -> result B) (l : list A) :
  (forall x, x ∈ l -> exists y, f x = Ok y) -> exists r, mapM f l = Ok r.
Proof.
  induction l as [|x l IH]; simpl; intros Hf; [eauto|].
  destruct (Hf x) as [y ->]; [left|]. cbn [rbind].
  destruct IH as [ys ->]; [|cbn [rbind]; eauto].
  intros x' Hx'. apply Hf. by right.
Qed.

Lemma make_spring_Ok (vertices : array) (e : nat * nat) (s : spring) :
  make_spring vertices e = Ok s ->
  endpoints s = e /\
  exists v_i v_j,
    vertices !! spring_i s = Some v_i /\ vertices !! spring_j s = Some v_j /\
    spring_rest s = norm (vsub v_i v_j) /\
    ((Rabs (vz v_i - vz v_j) < 0.25 * RING_SPACING /\
      spring_k s = ELASTIC_MODULUS * WALL_THICKNESS * RING_SPACING
                   / spring_rest s) \/
     (0.25 * RING_SPACING <= Rabs (vz v_i - vz v_j) /\
      spring_k s = ELASTIC_MODULUS * WALL_THICKNESS
                   * (2 * PI * TUBE_RADIUS / INR N_CIRCUMFERENTIAL)
                   / spring_rest s)).
Proof.
  destruct e as [i j]. unfold make_spring. intros H.
  apply rbind_Ok in H as (v_i & Hi & H).
  apply rbind_Ok in H as (v_j & Hj & H).
  apply get_Ok in Hi, Hj. injection H as <-.
  split; [reflexivity|]. exists v_i, v_j.
  unfold spring_i, spring_j, spring_rest, spring_k. cbn [fst snd].
  split; [exact Hi|]. split; [exact Hj|]. split; [reflexivity|].
  destruct (Rlt_dec (Rabs (vz v_i - vz v_j)) (0.25 * RING_SPACING)).
  - left. by split.
  - right. split; [lra | reflexivity].
Qed.

Lemma Forall2_make_spring_endpoints (vertices : array)
    (edges : list (nat * nat)) (springs : list spring) :
  Forall2 (fun e s => make_spring vertices e = Ok s) edges springs ->
  map endpoints springs = edges.
Proof.
  induction 1 as [|e s edges springs He _ IH]; simpl; [reflexivity|].
  apply make_spring_Ok in He as [-> _]. by rewrite IH.
Qed.

Lemma build_springs_endpoints (vertices : array) (triangles : list triangle)
    (springs : list spring) :
  build_springs vertices triangles = Ok springs ->
  map endpoints springs = elements (edge_set triangles).
Proof.
  unfold build_springs. intros H. apply mapM_Ok in H.
  by eapply Forall2_make_spring_endpoints.
Qed.

Lemma undirected_edge_proper (tri : triangle) (i j : nat) :
  proper tri -> undirected_edge tri i j -> i <> j.
Proof.
  destruct tri as [[a b] c]. unfold proper, undirected_edge, sides.
  rewrite !elem_of_cons, !elem_of_nil.
  intros (Hab & Hbc & Hca) [H|H];
    destruct H as [[= -> ->]|[[= -> ->]|[[= -> ->]|[]]]]; congruence.
Qed.

(** [build_springs] returns a list whenever every triangle index is a row
    of [vertices]. *)
Lemma build_springs_total (vertices : array) (triangles : list triangle) :
  (forall a b c, (a, b, c) ∈ triangles ->
     (a < length vertices)%nat /\ (b < length vertices)%nat /\
     (c < length vertices)%nat) ->
  exists springs, build_springs vertices triangles = Ok springs.
Proof.
  intros Hrange. unfold build_springs. apply mapM_total.
  intros [i j] He. apply elem_of_elements, edge_set_spec in He
    as ([[a b] c] & Htri & He).
  destruct (Hrange a b c Htri) as (Ha & Hb & Hc).
  assert (Hi : (i < length vertices)%nat /\ (j < length vertices)%nat).
  { unfold tri_edges in He. rewrite !elem_of_cons, elem_of_nil in He.
    destruct He as [[= -> ->]|[[= -> ->]|[[= -> ->]|[]]]]; lia. }
  destruct Hi as [Hi Hj]. unfold make_spring.
  destruct (get_lt vertices i Hi) as [v_i ->].
  destruct (get_lt vertices j Hj) as [v_j ->]. cbn [rbind]. eauto.
Qed.

(** The endpoint pairs of the springs are the pairs [(i, j)] with
    [i <= j] for which [{i, j}] is a side of some triangle. *)
Lemma build_springs_pairs (vertices : array) (triangles : list triangle)
    (springs : list spring) :
  build_springs vertices triangles = Ok springs ->
  forall i j, (i, j) ∈ map endpoints springs <->
    (i <= j)%nat /\ exists tri, tri ∈ triangles /\ undirected_edge tri i j.
Proof.
  intros Hbuild i j.
  rewrite (build_springs_endpoints _ _ _ Hbuild), elem_of_elements, edge_set_spec.
  split.
  - intros (tri & Htri & He). apply tri_edges_spec in He as [Hle He]. eauto.
  - intros (Hle & tri & Htri & He). exists tri. split; [exact Htri|].
    by apply tri_edges_spec.
Qed.

(** C2 (amended): [build_springs] returns a list whenever the triangle
    indices are rows of [vertices], and the list holds one spring per
    undirected mesh edge: the endpoint pairs of the springs are free of
    duplicates, they are the pairs [(i, j)] with [i <= j] such that
    [{i, j}] is a side of some triangle, and their number is the size of
    the edge set.  Every spring has [vertex_i <= vertex_j], and
    [vertex_i < vertex_j] when the three indices of every triangle differ.
    Its rest length is the distance between its two endpoints.  Its
    stiffness is [E * wall_thickness * ring_spacing / rest_length] when the
    axial displacement is below a quarter of the ring spacing; otherwise, on
    a mesh whose [circumferential_vertex_count] is [N_CIRCUMFERENTIAL] and
    whose [radius] is [TUBE_RADIUS], it is
    [E * wall_thickness * (2 * pi * radius / circumferential_vertex_count) /
    rest_length].  The axial stiffness on a mesh of another resolution or
    radius is left out of the statement. *)
Theorem build_springs_spec (vertices : array) (triangles : list triangle) :
  ((forall a b c, (a, b, c) ∈ triangles ->
      (a < length vertices)%nat /\ (b < length vertices)%nat /\
      (c < length vertices)%nat) ->
   exists springs, build_springs vertices triangles = Ok springs) /\
  forall springs : list spring,
    build_springs vertices triangles = Ok springs ->
    NoDup (map endpoints springs) /\
    (forall i j, (i, j) ∈ map endpoints springs <->
       (i <= j)%nat /\ exists tri, tri ∈ triangles /\ undirected_edge tri i j) /\
    length springs = size (edge_set triangles) /\
    (forall s, s ∈ springs ->
       (spring_i s <= spring_j s)%nat /\
       exists v_i v_j,
         vertices !! spring_i s = Some v_i /\ vertices !! spring_j s = Some v_j /\
         spring_rest s = norm (vsub v_i v_j) /\
         ((Rabs (vz v_i - vz v_j) < 0.25 * RING_SPACING /\
           spring_k s = ELASTIC_MODULUS * WALL_THICKNESS * RING_SPACING
                        / spring_rest s) \/
          (0.25 * RING_SPACING <= Rabs (vz v_i - vz v_j) /\
           forall (circumferential_vertex_count : nat) (radius : R),
             circumferential_vertex_count = N_CIRCUMFERENTIAL ->
             radius = TUBE_RADIUS ->
             spring_k s = ELASTIC_MODULUS * WALL_THICKNESS
                          * (2 * PI * radius / INR circumferential_vertex_count)
                          / spring_rest s))) /\
    ((forall tri, tri ∈ triangles -> proper tri) ->
     forall s, s ∈ springs -> (spring_i s < spring_j s)%nat).
Proof.
  split; [apply build_springs_total|].
  intros springs Hbuild.
  pose proof (build_springs_endpoints _ _ _ Hbuild) as Hends.
  pose proof (build_springs_pairs _ _ _ Hbuild) as Hpairs.
  assert (Hin : forall s, s ∈ springs ->
            (spring_i s, spring_j s) ∈ map endpoints springs).
  { intros s Hs. apply (list_elem_of_fmap_2 endpoints) in Hs. exact Hs. }
  split; [rewrite Hends; apply NoDup_elements|].
  split; [exact Hpairs|].
  split.
  { rewrite <- (length_map endpoints), Hends. reflexivity. }
  split.
  - intros s Hs. split; [by apply Hpairs, Hin|].
    unfold build_springs in Hbuild. apply mapM_Ok in Hbuild.
    apply list_elem_of_lookup in Hs as [n Hn].
    destruct (Forall2_lookup_r _ _ _ _ _ Hbuild Hn) as (e & _ & He).
    apply make_spring_Ok in He
      as (_ & v_i & v_j & Hi & Hj & Hrest & [Hcirc|[Haxial Hk]]).
    + exists v_i, v_j. split; [exact Hi|]. split; [exact Hj|].
      split; [exact Hrest|]. by left.
    + exists v_i, v_j. split; [exact Hi|]. split; [exact Hj|].
      split; [exact Hrest|]. right. split; [exact Haxial|].
      by intros count radius -> ->.
  - intros Hproper s Hs.
    apply Hin, Hpairs in Hs as (Hle & tri & Htri & He).
    pose proof (undirected_edge_proper tri _ _ (Hproper tri Htri) He). lia.
Qed.

Lemma build_springs_spec_witness :
  exists springs : list spring,
    build_springs [V3 0 0 0; V3 1 0 0; V3 0 1 0; V3 1 1 0.02]
                  [(0, 1, 2); (1, 3, 2)]%nat = Ok springs /\
    length springs = 5%nat /\
    NoDup (map endpoints springs) /\
    (forall s, s ∈ springs -> (spring_i s < spring_j s)%nat).
Proof.
  destruct (build_springs_spec [V3 0 0 0; V3 1 0 0; V3 0 1 0; V3 1 1 0.02]
              [(0, 1, 2); (1, 3, 2)]%nat) as [Htotal Hspec].
  destruct Htotal as [springs Hbuild].
  - intros a b c H. simpl. mem_cases H; injection H as -> -> ->; lia.
  - exists springs. split; [exact Hbuild|].
    destruct (Hspec springs Hbuild) as (Hnd & _ & Hlen & _ & Hlt).
    split; [rewrite Hlen; by vm_compute|]. split; [exact Hnd|].
    apply Hlt. intros tri H. mem_cases H; simpl; lia.
Defined.

(** A triangle that repeats an index: the side [(0, 0)] of the triangle
    [(0, 0, 1)] becomes a spring from vertex 0 to itself. *)
Lemma build_springs_self_edge :
  exists (springs : list spring) (s : spring),
    build_springs [V3 0 0 0; V3 1 0 0] [(0, 0, 1)]%nat = Ok springs /\
    s ∈ springs /\ spring_i s = 0%nat /\ spring_j s = 0%nat /\
    ~ (spring_i s < spring_j s)%nat.
Proof.
  destruct (build_springs_total [V3 0 0 0; V3 1 0 0] [(0, 0, 1)]%nat)
    as [springs Hbuild].
  { intros a b c H. simpl. mem_cases H; injection H as -> -> ->; lia. }
  assert (H00 : (0%nat, 0%nat) ∈ map endpoints springs).
  { apply (build_springs_pairs _ _ _ Hbuild). split; [lia|].
    exists (0, 0, 1)%nat. split; [left|].
    left. left. }
  apply list_elem_of_fmap in H00 as (s & Hs & Hin).
  exists springs, s. split; [exact Hbuild|]. split; [exact Hin|].
  injection Hs as Hi Hj. rewrite <- Hi, <- Hj. repeat split; lia.
Qed.

(** ** Shapes of the force arrays *)

Lemma pressure_step_length dv (vertices forces forces' : array) (pressure : R)
    (tri : triangle) :
  pressure_step dv vertices pressure forces tri = Ok forces' ->
  length forces' = length forces.
Proof.
  destruct tri as [[t0 t1] t2]. unfold pressure_step. intros H.
  apply rbind_Ok in H as (v0 & _ & H).
  apply rbind_Ok in H as (v1 & _ & H).
  apply rbind_Ok in H as (v2 & _ & H).
  destruct (Rlt_dec _ 1e-10); [congruence|].
  apply rbind_Ok in H as (forces1 & H1 & H).
  apply rbind_Ok in H as (forces2 & H2 & H).
  apply update_at_length in H1, H2, H. congruence.
Qed.

Lemma compute_pressure_forces_length dv (vertices forces : array)
    (triangles : list triangle) (pressure : R) :
  compute_pressure_forces dv vertices triangles pressure = Ok forces ->
  length forces = length vertices.
Proof.
  unfold compute_pressure_forces. intros H.
  destruct (Rle_dec pressure 0).
  { injection H as <-. apply zeros_like_length. }
  eapply (foldM_invariant (fun forces : array => length forces = length vertices))
    in H; [exact H | apply zeros_like_length |].
  intros b s b' Hb _ Hs. apply pressure_step_length in Hs. congruence.
Qed.

Lemma load_step_length op load n_end (forces forces' : array) (idx : nat) :
  load_step op load n_end forces idx = Ok forces' ->
  length forces' = length forces.
Proof.
  unfold load_step. intros H.
  apply rbind_Ok in H as (f & _ & H).
  apply rbind_Ok in H as (share & _ & H).
  injection H as <-. apply length_insert.
Qed.

Lemma apply_external_load_length (forces forces' : array)
    (end_vertices : list nat * list nat) (load : R) :
  apply_external_load forces end_vertices load = Ok forces' ->
  length forces' = length forces.
Proof.
  unfold apply_external_load. intros H.
  apply rbind_Ok in H as (forces1 & H1 & H).
  eapply (foldM_invariant (fun a : array => length a = length forces)) in H1;
    [|reflexivity|].
  - eapply (foldM_invariant (fun a : array => length a = length forces)) in H;
      [exact H | exact H1 |].
    intros b idx b' Hb _ Hs. apply load_step_length in Hs. congruence.
  - intros b idx b' Hb _ Hs. apply load_step_length in Hs. congruence.
Qed.

Lemma arr_add_length (a b : array) :
  length b = length a -> length (arr_add a b) = length a.
Proof. intros H. unfold arr_add. rewrite length_zip_with. lia. Qed.

Lemma arr_scale_length (c : R) (a : array) : length (arr_scale c a) = length a.
Proof. unfold arr_scale. apply length_map. Qed.

Lemma arr_add_lookup (a b : array) (i : nat) (x y : vec3) :
  a !! i = Some x -> b !! i = Some y -> arr_add a b !! i = Some (vadd x y).
Proof.
  intros Ha Hb. unfold arr_add. rewrite lookup_zip_with, Ha, Hb. reflexivity.
Qed.

Lemma arr_scale_lookup (c : R) (a : array) (i : nat) (x : vec3) :
  a !! i = Some x -> arr_scale c a !! i = Some (vscale c x).
Proof. intros Ha. unfold arr_scale. by rewrite list_lookup_fmap, Ha. Qed.

(** ** The force functions return on a mesh that indexes into the arrays *)

Lemma spring_step_total dv (vertices forces : array) (s : spring) :
  length forces = length vertices ->
  (spring_i s < length vertices)%nat -> (spring_j s < length vertices)%nat ->
  exists forces', spring_step dv vertices forces s = Ok forces'.
Proof.
  destruct s as [[[i j] rest_length] k].
  unfold spring_i, spring_j. cbn [fst snd]. intros Hlen Hi Hj.
  unfold spring_step.
  destruct (get_lt vertices i Hi) as [x_i ->].
  destruct (get_lt vertices j Hj) as [x_j ->]. cbn [rbind].
  destruct (Rlt_dec (norm (vsub x_j x_i)) 1e-10); [eauto|].
  cbv zeta. step_update. step_update. eauto.
Qed.

Lemma compute_spring_forces_total dv (vertices : array) (springs : list spring) :
  (forall s, s ∈ springs ->
     (spring_i s < length vertices)%nat /\ (spring_j s < length vertices)%nat) ->
  exists forces, compute_spring_forces dv vertices springs = Ok forces.
Proof.
  intros Hrange. unfold compute_spring_forces.
  destruct (foldM_total (fun forces : array => length forces = length vertices)
              (spring_step dv vertices) springs (zeros_like vertices))
    as (forces & H & _); [apply zeros_like_length | | eauto].
  intros forces s Hlen Hs. destruct (Hrange s Hs) as [Hi Hj].
  destruct (spring_step_total dv vertices forces s Hlen Hi Hj) as [forces' H].
  exists forces'. split; [exact H|]. apply spring_step_length in H. congruence.
Qed.

Lemma pressure_step_total dv (vertices forces : array) (pressure : R)
    (t0 t1 t2 : nat) :
  length forces = length vertices ->
  (t0 < length vertices)%nat -> (t1 < length vertices)%nat ->
  (t2 < length vertices)%nat ->
  exists forces', pressure_step dv vertices pressure forces (t0, t1, t2) = Ok forces'.
Proof.
  intros Hlen H0 H1 H2. unfold pressure_step.
  destruct (get_lt vertices t0 H0) as [v0 ->].
  destruct (get_lt vertices t1 H1) as [v1 ->].
  destruct (get_lt vertices t2 H2) as [v2 ->]. cbn [rbind].
  destruct (Rlt_dec _ 1e-10); [eauto|].
  cbv zeta. step_update. step_update. step_update. eauto.
Qed.

Lemma compute_pressure_forces_total dv (vertices : array)
    (triangles : list triangle) (pressure : R) :
  (forall a b c, (a, b, c) ∈ triangles ->
     (a < length vertices)%nat /\ (b < length vertices)%nat /\
     (c < length vertices)%nat) ->
  exists forces, compute_pressure_forces dv vertices triangles pressure = Ok forces.
Proof.
  intros Hrange. unfold compute_pressure_forces.
  destruct (Rle_dec pressure 0); [eauto|].
  destruct (foldM_total (fun forces : array => length forces = length vertices)
              (pressure_step dv vertices pressure) triangles (zeros_like vertices))
    as (forces & H & _); [apply zeros_like_length | | eauto].
  intros forces [[t0 t1] t2] Hlen Htri.
  destruct (Hrange t0 t1 t2 Htri) as (H0 & H1 & H2).
  destruct (pressure_step_total dv vertices forces pressure t0 t1 t2 Hlen H0 H1 H2)
    as [forces' H].
  exists forces'. split; [exact H|]. apply pressure_step_length in H. congruence.
Qed.

(** C9: force accumulation returns on every mesh that indexes into
    [vertices], degenerate or not, and never uses a quotient whose divisor
    is below [1e-10]: computed with any division [dv] that agrees with the
    real one from [1e-10] upwards, [compute_spring_forces],
    [compute_pressure_forces] and [compute_ring_constraints] return what
    they return with the real division.  A spring whose current length is
    below [1e-10] and a triangle whose area is below [1e-10] contribute
    nothing (the result is that of the list without them), and for
    [pressure <= 0] [compute_pressure_forces] returns the zero array
    whatever the triangles are, valid or not. *)
Theorem degenerate_geometry_is_skipped (dv : R -> R -> R) :
  agrees_above_floor dv ->
  (forall (vertices : array) springs,
     (forall s, s ∈ springs ->
        (spring_i s < length vertices)%nat /\ (spring_j s < length vertices)%nat) ->
     exists forces, compute_spring_forces dv vertices springs = Ok forces) /\
  (forall (vertices : array) triangles pressure,
     (forall a b c, (a, b, c) ∈ triangles ->
        (a < length vertices)%nat /\ (b < length vertices)%nat /\
        (c < length vertices)%nat) ->
     exists forces,
       compute_pressure_forces dv vertices triangles pressure = Ok forces) /\
  (forall vertices springs,
     compute_spring_forces dv vertices springs
     = compute_spring_forces Rdiv vertices springs) /\
  (forall vertices triangles pressure,
     compute_pressure_forces dv vertices triangles pressure
     = compute_pressure_forces Rdiv vertices triangles pressure) /\
  (forall vertices velocities ring_indices original_vertices,
     compute_ring_constraints dv vertices velocities ring_indices
       original_vertices
     = compute_ring_constraints Rdiv vertices velocities ring_indices
         original_vertices) /\
  (forall (vertices : array) springs1 springs2 i j rest_length k x_i x_j,
     vertices !! i = Some x_i -> vertices !! j = Some x_j ->
     norm (vsub x_j x_i) < 1e-10 ->
     compute_spring_forces dv vertices
       (springs1 ++ (i, j, rest_length, k) :: springs2)
     = compute_spring_forces dv vertices (springs1 ++ springs2)) /\
  (forall (vertices : array) triangles1 triangles2 pressure t0 t1 t2 v0 v1 v2,
     vertices !! t0 = Some v0 -> vertices !! t1 = Some v1 ->
     vertices !! t2 = Some v2 ->
     0.5 * norm (cross (vsub v1 v0) (vsub v2 v0)) < 1e-10 ->
     compute_pressure_forces dv vertices
       (triangles1 ++ (t0, t1, t2) :: triangles2) pressure
     = compute_pressure_forces dv vertices (triangles1 ++ triangles2) pressure) /\
  (forall vertices triangles pressure,
     pressure <= 0 ->
     compute_pressure_forces dv vertices triangles pressure
     = Ok (zeros_like vertices)).
Proof.
  intros Hdv.
  split; [intros vertices springs; apply compute_spring_forces_total|].
  split; [intros vertices triangles pressure; apply compute_pressure_forces_total|].
  repeat split.
  - intros vertices springs. unfold compute_spring_forces.
    apply foldM_ext. intros b a. by apply spring_step_agrees.
  - intros vertices triangles pressure. unfold compute_pressure_forces.
    destruct (Rle_dec pressure 0); [reflexivity|].
    apply foldM_ext. intros b a. by apply pressure_step_agrees.
  - intros vertices velocities ring_indices original_vertices.
    unfold compute_ring_constraints.
    apply foldM_ext. intros b ring.
    apply foldM_ext. intros c idx. by apply ring_step_agrees.
  - intros vertices springs1 springs2 i j rest_length k x_i x_j Hi Hj Hshort.
    unfold compute_spring_forces. apply foldM_skip.
    intros b. by eapply spring_step_skip.
  - intros vertices triangles1 triangles2 pressure t0 t1 t2 v0 v1 v2
      H0 H1 H2 Hflat.
    unfold compute_pressure_forces.
    destruct (Rle_dec pressure 0); [reflexivity|].
    apply foldM_skip. intros b. by eapply pressure_step_skip.
  - intros vertices triangles pressure Hp. unfold compute_pressure_forces.
    by destruct (Rle_dec pressure 0).
Qed.

Lemma degenerate_geometry_is_skipped_witness :
  compute_spring_forces floored_div [V3 0 0 0; V3 0 0 0; V3 3 4 0]
    [(0%nat, 1%nat, 1, 7); (0%nat, 2%nat, 4, 2)]
  = compute_spring_forces Rdiv [V3 0 0 0; V3 0 0 0; V3 3 4 0]
      [(0%nat, 2%nat, 4, 2)] /\
  compute_pressure_forces floored_div [V3 0 0 0] [(5%nat, 5%nat, 5%nat)] 0
  = Ok [vzero].
Proof.
  destruct (degenerate_geometry_is_skipped floored_div)
    as (_ & _ & Hspring & _ & _ & Hskip & _ & Hzero).
  - intros x d Hd. unfold floored_div.
    destruct (Rlt_dec d 1e-10); [lra | reflexivity].
  - split.
    + transitivity (compute_spring_forces floored_div
                      [V3 0 0 0; V3 0 0 0; V3 3 4 0] [(0%nat, 2%nat, 4, 2)]);
        [|apply Hspring].
      apply (Hskip [V3 0 0 0; V3 0 0 0; V3 3 4 0] [] [(0%nat, 2%nat, 4, 2)]
               0%nat 1%nat 1 7 (V3 0 0 0) (V3 0 0 0));
        [reflexivity | reflexivity |].
      rewrite norm_vsub_self. lra.
    + apply (Hzero [V3 0 0 0] [(5%nat, 5%nat, 5%nat)] 0). lra.
Defined.

Section SimulateFacts.

Variable fl : R -> R.

Variables (triangles : list triangle) (springs : list spring)
          (ring_indices : list (list nat))
          (end_vertices : list nat * list nat)
          (original_vertices : array)
          (mass : list R)
          (t_end dt frame_dt : R).

#[local] Abbreviation net_force' :=
  (net_force triangles springs ring_indices end_vertices original_vertices).
#[local] Abbreviation integrate' :=
  (integrate triangles springs ring_indices end_vertices original_vertices
     mass dt).
#[local] Abbreviation body' :=
  (body fl triangles springs ring_indices end_vertices original_vertices mass dt
     frame_dt).

Lemma net_force_length (positions velocities forces : array) (t : R) :
  length velocities = length positions ->
  net_force' positions velocities t = Ok forces ->
  length forces = length positions.
Proof.
  intros Hvel H. unfold net_force in H.
  apply rbind_Ok in H as (spring_forces & Hs & H).
  apply rbind_Ok in H as (pressure_forces & Hp & H).
  apply rbind_Ok in H as (forces1 & Hl & H).
  apply rbind_Ok in H as (constraint_forces & Hc & H).
  injection H as <-.
  apply compute_spring_forces_length in Hs.
  apply compute_pressure_forces_length in Hp.
  apply apply_external_load_length in Hl.
  apply compute_ring_constraints_length in Hc.
  assert (H0 : length (arr_add (zeros_like positions) spring_forces)
               = length positions).
  { rewrite arr_add_length; rewrite zeros_like_length; congruence. }
  assert (H1 : length forces1 = length positions).
  { rewrite Hl, arr_add_length; congruence. }
  assert (H2 : length (arr_add forces1 constraint_forces) = length positions).
  { rewrite arr_add_length; congruence. }
  rewrite arr_add_length; rewrite ?arr_scale_length; congruence.
Qed.

Lemma net_force_total (positions velocities : array) (t : R) :
  valid_mesh (length positions) triangles springs ring_indices end_vertices ->
  length velocities = length positions ->
  length original_vertices = length positions ->
  exists forces, net_force' positions velocities t = Ok forces.
Proof.
  intros (Htri & Hspr & Hring & Hend & Hn) Hvel Horig.
  unfold net_force.
  destruct (compute_spring_forces_total Rdiv positions springs Hspr)
    as [spring_forces Hs]. rewrite Hs. cbn [rbind].
  destruct (compute_pressure_forces_total Rdiv positions triangles
              (pressure_at_time t) Htri) as [pressure_forces Hp].
  rewrite Hp. cbn [rbind].
  apply compute_spring_forces_length in Hs.
  apply compute_pressure_forces_length in Hp.
  assert (H0 : length (arr_add (zeros_like positions) spring_forces)
               = length positions).
  { rewrite arr_add_length; rewrite zeros_like_length; congruence. }
  assert (H1 : length (arr_add (arr_add (zeros_like positions) spring_forces)
                               pressure_forces) = length positions).
  { rewrite arr_add_length; congruence. }
  destruct end_vertices as [g0 g1]. cbn [fst snd] in Hend, Hn.
  destruct (apply_external_load_rows
              (arr_add (arr_add (zeros_like positions) spring_forces) pressure_forces)
              g0 g1 EXTERNAL_LOAD) as (forces1 & -> & _); [|exact Hn|].
  { intros idx Hidx. rewrite H1. by apply Hend. }
  cbn [rbind].
  destruct (compute_ring_constraints_total Rdiv positions velocities
              ring_indices original_vertices Hvel Horig Hring) as [cf ->].
  cbn [rbind]. eauto.
Qed.

#[local] Abbreviation reaches' :=
  (reaches fl triangles springs ring_indices end_vertices original_vertices mass
     t_end dt frame_dt).
#[local] Abbreviation loop' :=
  (loop fl triangles springs ring_indices end_vertices original_vertices mass
     t_end dt frame_dt).

(** What a completed pass leaves behind. *)
Lemma body_Ok (s s' : state) :
  body' s = Ok s' ->
  exists positions velocities,
    integrate' s = Ok (positions, velocities) /\
    s_t s' = fl (s_t s + dt) /\
    s_positions s' = positions /\ s_velocities s' = velocities /\
    ((s_t s >= s_next_frame_time s /\
      s_next_frame_time s' = fl (s_next_frame_time s + frame_dt) /\
      s_frames s' = s_frames s ++ [positions]) \/
     (s_t s < s_next_frame_time s /\
      s_next_frame_time s' = s_next_frame_time s /\
      s_frames s' = s_frames s)).
Proof.
  unfold body. intros H. apply rbind_Ok in H as ([positions velocities] & Hint & H).
  exists positions, velocities. split; [exact Hint|]. cbn [fst snd] in H.
  destruct (Rge_dec (s_t s) (s_next_frame_time s)) as [Hge|Hlt];
    injection H as <-; cbn [s_t s_positions s_velocities s_next_frame_time s_frames].
  - do 3 (split; [reflexivity|]). left. split; [exact Hge|]. by split.
  - do 3 (split; [reflexivity|]). right. split; [lra|]. by split.
Qed.

Lemma integrate_Ok (s : state) (positions velocities : array) :
  integrate' s = Ok (positions, velocities) ->
  exists forces,
    net_force' (s_positions s) (s_velocities s) (s_t s) = Ok forces /\
    velocities = arr_add (s_velocities s)
                   (arr_scale dt (arr_div_rows forces mass)) /\
    positions = arr_add (s_positions s) (arr_scale dt velocities).
Proof.
  unfold integrate. intros H. apply rbind_Ok in H as (forces & Hf & H).
  exists forces. split; [exact Hf|]. by injection H as <- <-.
Qed.

Lemma integrate_shape (n : nat) (s : state) (positions velocities : array) :
  shaped n s -> length mass = n ->
  integrate' s = Ok (positions, velocities) ->
  length positions = n /\ length velocities = n.
Proof.
  intros [Hpos Hvel] Hmass H. apply integrate_Ok in H as (forces & Hf & -> & ->).
  apply net_force_length in Hf; [|congruence].
  assert (Hv : length (arr_add (s_velocities s)
                         (arr_scale dt (arr_div_rows forces mass))) = n).
  { rewrite arr_add_length; [exact Hvel|].
    rewrite arr_scale_length. unfold arr_div_rows. rewrite length_zip_with. lia. }
  split; [|exact Hv].
  rewrite arr_add_length; [exact Hpos|]. rewrite arr_scale_length. congruence.
Qed.

Lemma body_shape (n : nat) (s s' : state) :
  shaped n s -> length mass = n -> body' s = Ok s' -> shaped n s'.
Proof.
  intros Hs Hmass H.
  apply body_Ok in H as (positions & velocities & Hint & _ & <- & <- & _).
  by eapply integrate_shape.
Qed.

Lemma body_total (s : state) :
  valid_mesh (length original_vertices) triangles springs ring_indices
    end_vertices ->
  shaped (length original_vertices) s ->
  exists s', body' s = Ok s'.
Proof.
  intros Hmesh [Hpos Hvel]. unfold body, integrate.
  destruct (net_force_total (s_positions s) (s_velocities s) (s_t s))
    as [forces ->]; [by rewrite Hpos | congruence | congruence |].
  cbn [rbind fst snd]. destruct (Rge_dec (s_t s) (s_next_frame_time s)); eauto.
Qed.

Lemma reaches_shape (n : nat) (s0 s : state) (k : nat) :
  shaped n s0 -> length mass = n -> reaches' s0 k s -> shaped n s.
Proof.
  intros H0 Hmass. induction 1 as [|k s s' _ IH _ Hbody]; [exact H0|].
  by eapply body_shape.
Qed.


End SimulateFacts.

(** ** The integration step *)

Lemma prelude_Ok (fl : R -> R) (vertices : array) (t_end dt fps : R) :
  vertices <> [] -> fps <> 0 -> dt <> 0 ->
  prelude fl vertices t_end dt fps
  = Ok (repeat (shell_mass / INR (length vertices)) (length vertices),
        fl (1.0 / fps)).
Proof.
  intros Hn Hfps Hdt. unfold prelude, vertex_mass.
  rewrite !py_div_Ok; [|exact Hdt|exact Hfps|apply not_0_INR; by destruct vertices].
  cbn [rbind]. unfold shell_mass. by rewrite Rmult_1_l.
Qed.

Lemma prelude_inv (fl : R -> R) (vertices : array) (t_end dt fps : R)
    (mass : list R) (frame_dt : R) :
  prelude fl vertices t_end dt fps = Ok (mass, frame_dt) ->
  vertices <> [] /\ fps <> 0 /\ dt <> 0 /\
  mass = repeat (shell_mass / INR (length vertices)) (length vertices) /\
  frame_dt = fl (1.0 / fps).
Proof.
  intros H.
  assert (Hn : vertices <> []).
  { intros ->. unfold prelude, vertex_mass in H. cbn [length INR] in H.
    by rewrite py_div_zero in H. }
  assert (Hfps : fps <> 0).
  { intros ->. unfold prelude in H.
    destruct (vertex_mass (length vertices)); [|discriminate].
    cbn [rbind] in H. by rewrite py_div_zero in H. }
  assert (Hdt : dt <> 0).
  { intros ->. unfold prelude in H.
    destruct (vertex_mass (length vertices)); [|discriminate].
    cbn [rbind] in H. destruct (py_div 1.0 fps); [|discriminate].
    cbn [rbind] in H. by rewrite py_div_zero in H. }
  rewrite (prelude_Ok fl vertices t_end dt fps Hn Hfps Hdt) in H.
  injection H as <- <-. auto.
Qed.

Lemma initial_state_shaped (vertices : array) :
  shaped (length vertices) (initial_state vertices).
Proof. split; [reflexivity | apply zeros_like_length]. Qed.

(** C1: every pass of the loop of [simulate] is a semi-implicit Euler
    step.  With [forces] the net force computed from the positions and
    velocities at the start of the pass and its time [t], and with the
    per-vertex mass [m = shell_mass / n_vertices], the same for every
    vertex and every pass, row [i] gets the velocity [v' = v + dt * (F / m)]
    and then the position [x' = x + dt * v']. *)
Theorem simulate_semi_implicit_euler (fl : R -> R) (vertices : array)
    (triangles : list triangle) (springs : list spring)
    (ring_indices : list (list nat)) (end_vertices : list nat * list nat)
    (t_end dt fps : R) (mass : list R) (frame_dt : R)
    (k : nat) (s s' : state) :
  prelude fl vertices t_end dt fps = Ok (mass, frame_dt) ->
  reaches fl triangles springs ring_indices end_vertices vertices mass
    t_end dt frame_dt (initial_state vertices) k s ->
  s_t s < t_end ->
  body fl triangles springs ring_indices end_vertices vertices mass dt frame_dt s
    = Ok s' ->
  let m := shell_mass / INR (length vertices) in
  mass = repeat m (length vertices) /\
  exists forces : array,
    net_force triangles springs ring_indices end_vertices vertices
      (s_positions s) (s_velocities s) (s_t s) = Ok forces /\
    length forces = length vertices /\
    length (s_positions s) = length vertices /\
    length (s_velocities s) = length vertices /\
    forall i x v F,
      s_positions s !! i = Some x -> s_velocities s !! i = Some v ->
      forces !! i = Some F ->
      let a := vdiv Rdiv F m in
      let v' := vadd v (vscale dt a) in
      s_velocities s' !! i = Some v' /\
      s_positions s' !! i = Some (vadd x (vscale dt v')).
Proof.
  intros Hpre Hreach Hguard Hbody m.
  apply prelude_inv in Hpre as (Hn & Hfps & Hdt & Hmass & _). fold m in Hmass.
  split; [exact Hmass|].
  assert (Hmlen : length mass = length vertices).
  { rewrite Hmass. apply repeat_length. }
  pose proof (reaches_shape _ _ _ _ _ _ _ _ _ _ _ _ _ _
                (initial_state_shaped vertices) Hmlen Hreach) as [Hpos Hvel].
  apply body_Ok in Hbody as (positions & velocities & Hint & _ & Hp & Hv & _).
  apply integrate_Ok in Hint as (forces & Hf & Hvels & Hposs).
  exists forces. split; [exact Hf|].
  pose proof (net_force_length _ _ _ _ _ _ _ _ _ (eq_trans Hvel (eq_sym Hpos)) Hf)
    as Hflen.
  split; [congruence|]. split; [exact Hpos|]. split; [exact Hvel|].
  intros i x v F Hx Hvi HF a v'.
  assert (Hm : mass !! i = Some m).
  { rewrite Hmass. apply lookup_lt_Some in Hx.
    destruct (lookup_lt_is_Some_2 (repeat m (length vertices)) i) as [m' Hm'].
    { rewrite repeat_length. lia. }
    rewrite Hm'. f_equal.
    apply list_elem_of_lookup_2, list_elem_of_In, repeat_spec in Hm'. exact Hm'. }
  assert (Hv' : velocities !! i = Some v').
  { rewrite Hvels. apply arr_add_lookup; [exact Hvi|].
    apply arr_scale_lookup. unfold arr_div_rows.
    by rewrite lookup_zip_with, HF, Hm. }
  split; [by rewrite Hv|].
  rewrite Hp, Hposs. apply arr_add_lookup; [exact Hx|].
  by apply arr_scale_lookup.
Qed.

Lemma two_vertices_valid : valid_mesh 2 [] one_spring one_ring two_ends.
Proof.
  unfold valid_mesh, one_spring, one_ring, two_ends. cbn [fst snd app].
  split; [intros a b c H; by apply elem_of_nil in H|].
  split.
  { intros s H. mem_cases H. cbn. lia. }
  split; [repeat constructor|].
  split; [intros idx H; mem_cases H; lia|].
  by left.
Qed.

Lemma simulate_semi_implicit_euler_witness :
  let m := shell_mass / INR 2 in
  exists (s' : state) (forces : array),
    body unrounded [] one_spring one_ring two_ends two_vertices (repeat m 2%nat)
      0.1 (1.0 / 30) (initial_state two_vertices) = Ok s' /\
    net_force [] one_spring one_ring two_ends two_vertices
      two_vertices (zeros_like two_vertices) 0.0 = Ok forces /\
    forall i x v F,
      two_vertices !! i = Some x -> zeros_like two_vertices !! i = Some v ->
      forces !! i = Some F ->
      s_velocities s' !! i = Some (vadd v (vscale 0.1 (vdiv Rdiv F m))) /\
      s_positions s' !! i
      = Some (vadd x (vscale 0.1 (vadd v (vscale 0.1 (vdiv Rdiv F m))))).
Proof.
  intros m.
  destruct (body_total unrounded [] one_spring one_ring two_ends two_vertices
              (repeat m 2%nat) 0.1 (1.0 / 30) (initial_state two_vertices))
    as [s' Hbody];
    [exact two_vertices_valid | exact (initial_state_shaped two_vertices) |].
  destruct (simulate_semi_implicit_euler unrounded two_vertices [] one_spring
              one_ring two_ends 1 0.1 30 (repeat m 2%nat) (1.0 / 30) 0
              (initial_state two_vertices) s')
    as (_ & forces & Hf & _ & _ & _ & Hrows).
  - apply (prelude_Ok unrounded two_vertices 1 0.1 30); [discriminate | lra | lra].
  - constructor.
  - simpl. lra.
  - exact Hbody.
  - exists s', forces. split; [exact Hbody|]. split; [exact Hf|]. exact Hrows.
Defined.

(** ** The loop and its step relation *)

Section LoopFacts.

Variable fl : R -> R.

Variables (triangles : list triangle) (springs : list spring)
          (ring_indices : list (list nat))
          (end_vertices : list nat * list nat)
          (original_vertices : array)
          (mass : list R)
          (t_end dt frame_dt : R).

#[local] Abbreviation body' :=
  (body fl triangles springs ring_indices end_vertices original_vertices mass dt
     frame_dt).
#[local] Abbreviation reaches' :=
  (reaches fl triangles springs ring_indices end_vertices original_vertices mass
     t_end dt frame_dt).
#[local] Abbreviation loop' :=
  (loop fl triangles springs ring_indices end_vertices original_vertices mass
     t_end dt frame_dt).

Lemma reaches_cons (s s1 s' : state) (k : nat) :
  s_t s < t_end -> body' s = Ok s1 -> reaches' s1 k s' -> reaches' s (S k) s'.
Proof.
  intros Hguard Hbody. induction 1 as [|k s2 s3 _ IH Hg Hb].
  - eapply reaches_S; [constructor | exact Hguard | exact Hbody].
  - eapply reaches_S; [exact IH | exact Hg | exact Hb].
Qed.

Lemma reaches_inv_cons (s s' : state) (k : nat) :
  reaches' s (S k) s' ->
  exists s1, s_t s < t_end /\ body' s = Ok s1 /\ reaches' s1 k s'.
Proof.
  revert s'. induction k as [|k IH]; intros s' H.
  - inversion H as [|k' s2 s3 Hr Hg Hb]; subst.
    inversion Hr; subst. exists s'. split; [exact Hg|]. split; [exact Hb|].
    constructor.
  - inversion H as [|k' s2 s3 Hr Hg Hb]; subst.
    destruct (IH s2 Hr) as (s1 & Hg1 & Hb1 & Hr1).
    exists s1. split; [exact Hg1|]. split; [exact Hb1|].
    eapply reaches_S; [exact Hr1 | exact Hg | exact Hb].
Qed.

(** The step relation is deterministic. *)
Lemma reaches_split (s x y : state) (a b : nat) :
  reaches' s a x -> reaches' s (a + b) y -> reaches' x b y.
Proof.
  revert s. induction a as [|a IH]; intros s Hx Hy.
  - inversion Hx; subst. exact Hy.
  - apply reaches_inv_cons in Hx as (s1 & _ & Hb1 & Hx).
    apply reaches_inv_cons in Hy as (s1' & _ & Hb1' & Hy).
    rewrite Hb1 in Hb1'. injection Hb1' as <-. by eapply IH.
Qed.

Lemma reaches_frames_prefix (s s' : state) (k : nat) :
  reaches' s k s' -> s_frames s `prefix_of` s_frames s'.
Proof.
  induction 1 as [|k s1 s2 _ IH _ Hbody]; [reflexivity|].
  apply body_Ok in Hbody as (p & v & _ & _ & _ & _ & [(_ & _ & ->)|(_ & _ & ->)]).
  - etrans; [exact IH|]. by apply prefix_app_r.
  - exact IH.
Qed.

(** A run without interrupt returns the frames of the first state that
    fails the loop test. *)
Lemma loop_returns (s s' : state) (k fuel : nat) :
  reaches' s k s' -> ~ s_t s' < t_end -> (k <= fuel)%nat ->
  loop' fuel None s = Some (Ok (s_frames s')).
Proof.
  revert s fuel. induction k as [|k IH]; intros s fuel Hr Hend Hfuel.
  - inversion Hr; subst. destruct fuel; simpl;
      by destruct (Rlt_dec (s_t s') t_end).
  - apply reaches_inv_cons in Hr as (s1 & Hg & Hb & Hr).
    destruct fuel as [|fuel]; [lia|]. simpl.
    destruct (Rlt_dec (s_t s) t_end); [|done].
    rewrite Hb. apply IH; [exact Hr | exact Hend | lia].
Qed.

(** An interrupt in pass [k] hands the state it lands in to the handler. *)
Lemma loop_interrupted (s s' : state) (k fuel : nat) (ph : phase) :
  reaches' s k s' -> s_t s' < t_end -> (k < fuel)%nat ->
  loop' fuel (Some (k, ph)) s
  = Some (do si <- interrupted_state fl triangles springs ring_indices end_vertices
                     original_vertices mass dt frame_dt ph s';
          on_interrupt t_end si).
Proof.
  revert s fuel. induction k as [|k IH]; intros s fuel Hr Hg Hfuel.
  - inversion Hr; subst. destruct fuel as [|fuel]; [lia|]. simpl.
    by destruct (Rlt_dec (s_t s') t_end).
  - apply reaches_inv_cons in Hr as (s1 & Hg1 & Hb & Hr).
    destruct fuel as [|fuel]; [lia|]. simpl.
    destruct (Rlt_dec (s_t s) t_end); [|done].
    rewrite Hb. apply IH; [exact Hr | exact Hg | lia].
Qed.

(** Whatever list the loop returns is the frame list of a state that the
    passes lead to; without interrupt that state fails the loop test, and
    with one the list is not empty. *)
Lemma loop_result_reachable (fuel : nat) (intr : option (nat * phase))
    (s : state) (frames : list array) :
  loop' fuel intr s = Some (Ok frames) ->
  exists k s', reaches' s k s' /\ frames = s_frames s' /\
    (~ s_t s' < t_end \/ frames <> []).
Proof.
  revert intr s. induction fuel as [|fuel IH]; intros intr s H; simpl in H.
  - destruct (Rlt_dec (s_t s) t_end) as [|Hend]; [discriminate|].
    injection H as <-. exists 0%nat, s. split; [constructor|]. auto.
  - destruct (Rlt_dec (s_t s) t_end) as [Hg|Hend].
    2:{ injection H as <-. exists 0%nat, s. split; [constructor|]. auto. }
    assert (Hpass : forall intr',
               match body' s with
               | Raise e => Some (Raise e)
               | Ok s1 => loop' fuel intr' s1
               end = Some (Ok frames) ->
               exists k s', reaches' s k s' /\ frames = s_frames s' /\
                 (~ s_t s' < t_end \/ frames <> [])).
    { intros intr' H'. destruct (body' s) as [s1|e] eqn:Hb; [|discriminate].
      destruct (IH _ _ H') as (k & s' & Hr & Hf & Hor).
      exists (S k), s'. split; [by eapply reaches_cons | auto]. }
    destruct intr as [[[|k] ph]|]; [|by eapply Hpass..].
    injection H as H. apply rbind_Ok in H as (si & Hsi & H).
    unfold on_interrupt in H. apply rbind_Ok in H as (pct & _ & H).
    destruct (s_frames si) as [|fr frs] eqn:Hfr; [discriminate|].
    injection H as <-.
    destruct ph; simpl in Hsi.
    + injection Hsi as <-. exists 0%nat, s. split; [constructor|].
      split; [by rewrite Hfr | by right].
    + exists 1%nat, si. split; [|split; [by rewrite Hfr | by right]].
      eapply reaches_S; [constructor | exact Hg | exact Hsi].
Qed.

(** Without interrupt the returned list is the frame list of the first
    state that fails the loop test. *)
Lemma loop_None_result (fuel : nat) (s : state) (frames : list array) :
  loop' fuel None s = Some (Ok frames) ->
  exists k s', reaches' s k s' /\ frames = s_frames s' /\ ~ s_t s' < t_end.
Proof.
  revert s. induction fuel as [|fuel IH]; intros s H; simpl in H.
  - destruct (Rlt_dec (s_t s) t_end) as [|Hend]; [discriminate|].
    injection H as <-. exists 0%nat, s. split; [constructor|]. auto.
  - destruct (Rlt_dec (s_t s) t_end) as [Hg|Hend].
    2:{ injection H as <-. exists 0%nat, s. split; [constructor|]. auto. }
    destruct (body' s) as [s1|e] eqn:Hb; [|discriminate].
    destruct (IH _ H) as (k & s' & Hr & Hf & Hstop).
    exists (S k), s'. split; [by eapply reaches_cons | auto].
Qed.

(** A state that passes the loop test comes strictly before the state at
    which the loop ends. *)
Lemma reaches_before_end (s0 s sK : state) (k K : nat) :
  reaches' s0 k s -> s_t s < t_end ->
  reaches' s0 K sK -> ~ s_t sK < t_end ->
  (k < K)%nat /\ reaches' s (K - k) sK.
Proof.
  intros Hs Hg HK Hstop.
  destruct (le_lt_dec K k) as [Hle|Hlt].
  - exfalso. replace k with (K + (k - K))%nat in Hs by lia.
    pose proof (reaches_split _ _ _ _ _ HK Hs) as Hrest.
    destruct (k - K)%nat as [|d].
    + inversion Hrest; subst. contradiction.
    + apply reaches_inv_cons in Hrest as (s1 & Hg' & _). contradiction.
  - split; [exact Hlt|].
    replace K with (k + (K - k))%nat in HK by lia.
    exact (reaches_split _ _ _ _ _ Hs HK).
Qed.

End LoopFacts.

(** ** The first frame *)

Section Frames.

Variable fl : R -> R.

Variables (vertices : array) (triangles : list triangle)
          (springs : list spring) (ring_indices : list (list nat))
          (end_vertices : list nat * list nat)
          (mass : list R) (t_end dt frame_dt : R).

#[local] Abbreviation body' :=
  (body fl triangles springs ring_indices end_vertices vertices mass dt frame_dt).
#[local] Abbreviation reaches' :=
  (reaches fl triangles springs ring_indices end_vertices vertices mass
     t_end dt frame_dt).

Lemma first_pass_records (s1 : state) :
  body' (initial_state vertices) = Ok s1 -> s_frames s1 = [s_positions s1].
Proof.
  intros H. apply body_Ok in H as (p & v & _ & _ & <- & _ & Hrec).
  destruct Hrec as [(_ & _ & ->)|(Hlt & _)]; [reflexivity|].
  simpl in Hlt. lra.
Qed.


Lemma first_frame (k : nat) (s : state) :
  reaches' (initial_state vertices) (S k) s ->
  exists s1, body' (initial_state vertices) = Ok s1 /\
             head (s_frames s) = Some (s_positions s1).
Proof.
  intros H. apply reaches_inv_cons in H as (s1 & _ & Hb & Hr).
  exists s1. split; [exact Hb|].
  apply reaches_frames_prefix in Hr as [rest ->].
  by rewrite (first_pass_records s1 Hb).
Qed.

End Frames.

(** ** Roundings *)

Lemma unrounded_rounds : rounds unrounded.
Proof. unfold rounds, unrounded. auto. Qed.

Lemma unrounded_exact_on_grid (step bound : R) :
  exact_on_grid unrounded step bound.
Proof. by intros k _. Qed.

Lemma unrounded_resolves (t_end dt : R) :
  0 < dt -> resolves unrounded t_end dt.
Proof. intros Hdt. split; [exact Hdt|]. intros t _ _. unfold unrounded. lra. Qed.

Lemma rounds_zero (fl : R -> R) : rounds fl -> fl 0 = 0.
Proof. by intros [_ Hz]. Qed.

(** A rounding of relative error at most [u] on [[dt, t_end + dt]]
    resolves the step [dt] below [t_end] when [t_end/dt] is small enough for
    [u]. *)
Lemma relative_error_resolves (fl : R -> R) (u t_end dt : R) :
  0 < dt -> 0 <= u ->
  (forall x, dt <= x <= t_end + dt -> Rabs (fl x - x) <= u * x) ->
  2 * u * (t_end + dt) <= dt ->
  resolves fl t_end dt.
Proof.
  intros Hdt Hu Herr Hres. split; [exact Hdt|]. intros t H0 Hlt.
  specialize (Herr (t + dt)).
  assert (Hle : u * (t + dt) <= u * (t_end + dt)).
  { apply Rmult_le_compat_l; lra. }
  unfold Rabs in Herr.
  destruct (Rcase_abs (fl (t + dt) - (t + dt))); lra.
Qed.

(** The default run of the driver, five seconds at the step [DT], is one
    that binary64, of relative error [2^-53], resolves. *)
Example default_run_resolves (fl : R -> R) :
  (forall x, DT <= x <= 5.0 + DT -> Rabs (fl x - x) <= / 2 ^ 53 * x) ->
  resolves fl 5.0 DT.
Proof.
  intros Herr. apply (relative_error_resolves fl (/ 2 ^ 53)); [| |exact Herr|].
  - unfold DT. lra.
  - apply Rlt_le, Rinv_0_lt_compat, pow_lt. lra.
  - replace (2 ^ 53) with 9007199254740992 by (simpl; lra).
    unfold DT. lra.
Qed.

(** With a step that the floats resolve, a pass that starts before [t_end]
    moves the time on by half a step at least. *)
Lemma rounds_advances (fl : R -> R) (t_end dt t : R) :
  resolves fl t_end dt -> 0 <= t -> t < t_end ->
  t + dt / 2 <= fl (t + dt).
Proof. intros [_ Hadv]. apply Hadv. Qed.

(** ** Passes and time *)

Section Passes.

Variable fl : R -> R.

Variables (vertices : array) (triangles : list triangle)
          (springs : list spring) (ring_indices : list (list nat))
          (end_vertices : list nat * list nat)
          (mass : list R) (t_end dt frame_dt : R).

#[local] Abbreviation body' :=
  (body fl triangles springs ring_indices end_vertices vertices mass dt frame_dt).
#[local] Abbreviation reaches' :=
  (reaches fl triangles springs ring_indices end_vertices vertices mass
     t_end dt frame_dt).
#[local] Abbreviation loop' :=
  (loop fl triangles springs ring_indices end_vertices vertices mass
     t_end dt frame_dt).
#[local] Abbreviation recorded_at' :=
  (recorded_at fl vertices triangles springs ring_indices end_vertices mass
     t_end dt frame_dt).

(** On a mesh that indexes into [vertices] no pass raises: the loop
    returns a list of frames or runs on. *)
Lemma loop_never_raises (fuel : nat) (s : state) (e : exn) :
  valid_mesh (length vertices) triangles springs ring_indices end_vertices ->
  length mass = length vertices ->
  shaped (length vertices) s ->
  loop' fuel None s <> Some (Raise e).
Proof.
  intros Hmesh Hmass. revert s.
  induction fuel as [|fuel IH]; intros s Hshape; cbn [loop];
    destruct (Rlt_dec (s_t s) t_end); try discriminate.
  destruct (body_total fl triangles springs ring_indices end_vertices vertices
              mass dt frame_dt s Hmesh Hshape) as [s' Hb].
  rewrite Hb. apply IH. by eapply body_shape.
Qed.

(** At most one frame is recorded in a pass. *)
Lemma reaches_frames_passes (k : nat) (s : state) :
  reaches' (initial_state vertices) k s -> (length (s_frames s) <= k)%nat.
Proof.
  induction 1 as [|k s s' _ IH _ Hb]; [simpl; lia|].
  apply body_Ok in Hb as (p & v & _ & _ & _ & _ & [(_ & _ & ->)|(_ & _ & ->)]);
    [|lia].
  rewrite length_app. simpl. lia.
Qed.

(** Every frame of a state the passes lead to was recorded by one of
    them. *)
Lemma frames_recorded_at (K : nat) (s : state) :
  reaches' (initial_state vertices) K s ->
  forall j frame, s_frames s !! j = Some frame ->
    exists k t_j, (k < K)%nat /\ recorded_at' j frame k t_j.
Proof.
  induction 1 as [|K s s' Hr IH Hg Hb]; intros j frame Hj.
  - simpl in Hj. discriminate.
  - pose proof Hb as Hb'.
    apply body_Ok in Hb' as (p & v & _ & _ & _ & _ & [(_ & _ & Hf)|(_ & _ & Hf)]);
      rewrite Hf in Hj.
    2:{ destruct (IH j frame Hj) as (k & t_j & Hk & Hrec).
        exists k, t_j. split; [lia | exact Hrec]. }
    destruct (decide (j < length (s_frames s))%nat) as [Hlt|Hge].
    { rewrite lookup_app_l in Hj by exact Hlt.
      destruct (IH j frame Hj) as (k & t_j & Hk & Hrec).
      exists k, t_j. split; [lia | exact Hrec]. }
    rewrite lookup_app_r in Hj by lia.
    apply list_lookup_singleton_Some in Hj as [Hj0 <-].
    assert (Hlen : length (s_frames s) = j) by lia.
    exists K, (s_t s). split; [lia|]. exists s, s'.
    split; [exact Hr|]. split; [exact Hg|]. split; [exact Hb|].
    split; [exact Hlen|]. split; [exact Hf | reflexivity].
Qed.

(** Frames are recorded in the order of the passes. *)
Lemma recorded_at_passes (j1 j2 : nat) (f1 f2 : array) (k1 k2 : nat)
    (t1 t2 : R) :
  (j1 < j2)%nat -> recorded_at' j1 f1 k1 t1 -> recorded_at' j2 f2 k2 t2 ->
  (k1 < k2)%nat.
Proof.
  intros Hj (s1 & s1' & Hr1 & _ & _ & Hl1 & _) (s2 & s2' & Hr2 & _ & _ & Hl2 & _).
  destruct (le_lt_dec k2 k1) as [Hle|Hlt]; [|exact Hlt]. exfalso.
  replace k1 with (k2 + (k1 - k2))%nat in Hr1 by lia.
  pose proof (reaches_split fl _ _ _ _ _ _ _ _ _ _ _ _ _ _ Hr2 Hr1) as Hrest.
  apply reaches_frames_prefix, prefix_length in Hrest. lia.
Qed.

(** Frame [j] is recorded by the first pass that starts at or after its
    threshold: a pass that starts with [j] frames collected and comes before
    the one that records frame [j] starts before the threshold. *)
Lemma recorded_at_first (j : nat) (frame : array) (k : nat) (t_j : R)
    (k' : nat) (s : state) :
  recorded_at' j frame k t_j ->
  reaches' (initial_state vertices) k' s -> (k' < k)%nat ->
  length (s_frames s) = j ->
  s_t s < s_next_frame_time s.
Proof.
  intros (sk & sk' & Hrk & _ & _ & Hlen & _) Hr Hlt Hj.
  replace k with (S k' + (k - S k'))%nat in Hrk by lia.
  replace (S k' + (k - S k'))%nat with (k' + S (k - S k'))%nat in Hrk by lia.
  pose proof (reaches_split fl _ _ _ _ _ _ _ _ _ _ _ _ _ _ Hr Hrk) as Hrest.
  apply reaches_inv_cons in Hrest as (s1 & Hg & Hb & Hrest).
  apply reaches_frames_prefix, prefix_length in Hrest.
  apply body_Ok in Hb as (p & v & _ & _ & _ & _ & [(_ & _ & Hf)|(Hlo & _)]);
    [|exact Hlo].
  rewrite Hf, length_app in Hrest. simpl in Hrest. lia.
Qed.

Hypothesis resolution : resolves fl t_end dt.

(** [k] passes move the time on by [k] half steps at least. *)
Lemma reaches_time_grows (s0 s : state) (k : nat) :
  reaches' s0 k s -> 0 <= s_t s0 -> s_t s0 + INR k * (dt / 2) <= s_t s.
Proof.
  intros Hr H0. destruct resolution as [Hdt _].
  induction Hr as [|k s s' _ IH Hg Hb]; [simpl; lra|].
  apply body_Ok in Hb as (p & v & _ & Ht' & _).
  pose proof (pos_INR k) as Hk.
  assert (Hs : 0 <= s_t s) by nra.
  pose proof (rounds_advances fl t_end dt (s_t s) resolution Hs Hg).
  rewrite Ht', S_INR. lra.
Qed.

(** A later pass starts at a later time. *)
Lemma reaches_time_order (k1 k2 : nat) (s1 s2 : state) :
  reaches' (initial_state vertices) k1 s1 ->
  reaches' (initial_state vertices) k2 s2 ->
  (k1 < k2)%nat -> s_t s1 < s_t s2.
Proof.
  intros Hr1 Hr2 Hlt. destruct resolution as [Hdt _].
  replace k2 with (k1 + (k2 - k1))%nat in Hr2 by lia.
  pose proof (reaches_split fl _ _ _ _ _ _ _ _ _ _ _ _ _ _ Hr1 Hr2) as Hrest.
  apply reaches_time_grows in Hr1; [|simpl; lra]. simpl in Hr1.
  pose proof (pos_INR k1) as Hk1.
  apply reaches_time_grows in Hrest; [|nra].
  assert (Hd : 1 <= INR (k2 - k1)).
  { change 1 with (INR 1). apply le_INR. lia. }
  nra.
Qed.

Lemma enough_passes : exists m : nat, t_end <= INR m * (dt / 2).
Proof.
  destruct resolution as [Hdt _].
  assert (He : 0 < dt / 2) by lra.
  destruct (archimed (t_end / (dt / 2))) as [Hup _].
  assert (Ht : t_end = t_end / (dt / 2) * (dt / 2)) by (field; lra).
  destruct (Z_lt_le_dec 0 (up (t_end / (dt / 2)))) as [Hpos|Hneg].
  - exists (Z.to_nat (up (t_end / (dt / 2)))).
    rewrite INR_IZR_INZ, Z2Nat.id by lia. nra.
  - exists 0%nat. apply IZR_le in Hneg. simpl. nra.
Qed.

Hypothesis mesh_valid :
  valid_mesh (length vertices) triangles springs ring_indices end_vertices.
Hypothesis mass_shape : length mass = length vertices.

Lemma run_continues (m k : nat) (s : state) :
  reaches' (initial_state vertices) k s ->
  t_end <= INR (k + m) * (dt / 2) ->
  exists K sK, reaches' (initial_state vertices) K sK /\ ~ s_t sK < t_end.
Proof.
  revert k s. induction m as [|m IH]; intros k s Hr Hm.
  - exists k, s. split; [exact Hr|].
    apply reaches_time_grows in Hr; [|simpl; lra].
    rewrite Nat.add_0_r in Hm. simpl in Hr. lra.
  - destruct (Rlt_dec (s_t s) t_end) as [Hg|Hend]; [|by exists k, s].
    destruct (body_total fl triangles springs ring_indices end_vertices vertices
                mass dt frame_dt s mesh_valid) as [s' Hb].
    { eapply reaches_shape; [apply initial_state_shaped | exact mass_shape | exact Hr]. }
    apply (IH (S k) s'); [by eapply reaches_S|].
    by rewrite Nat.add_succ_comm.
Qed.

(** The loop ends: some number of passes leads to a state that fails the
    loop test. *)
Lemma run_terminates :
  exists K sK, reaches' (initial_state vertices) K sK /\ ~ s_t sK < t_end.
Proof.
  destruct enough_passes as [m Hm].
  apply (run_continues m 0 (initial_state vertices)); [constructor | exact Hm].
Qed.

End Passes.

(** ** The sampling cadence *)

Section Cadence.

Variable fl : R -> R.

Variables (vertices : array) (triangles : list triangle)
          (springs : list spring) (ring_indices : list (list nat))
          (end_vertices : list nat * list nat)
          (mass : list R) (t_end dt frame_dt : R).

Hypothesis rounding : rounds fl.
Hypothesis dt_nonneg : 0 <= dt.
Hypothesis dt_le_frame_dt : dt <= frame_dt.

#[local] Abbreviation recorded_at' :=
  (recorded_at fl vertices triangles springs ring_indices end_vertices mass
     t_end dt frame_dt).
#[local] Abbreviation sampled' := (sampled fl dt frame_dt).
#[local] Abbreviation threshold := (accumulated fl frame_dt).

#[local] Abbreviation body' :=
  (body fl triangles springs ring_indices end_vertices vertices mass dt frame_dt).
#[local] Abbreviation reaches' :=
  (reaches fl triangles springs ring_indices end_vertices vertices mass
     t_end dt frame_dt).

Lemma sampled_initial : sampled' (initial_state vertices).
Proof.
  split; [reflexivity|]. cbn [initial_state s_t s_next_frame_time].
  pose proof (rounds_zero fl rounding) as Hz.
  destruct rounding as (Hmono & _).
  specialize (Hmono 0 (0.0 + dt)). lra.
Qed.

Lemma sampled_body (s s' : state) :
  sampled' s -> body' s = Ok s' -> sampled' s'.
Proof.
  intros [Hn Ht] Hb. destruct rounding as (Hmono & _).
  apply body_Ok in Hb
    as (p & v & _ & Ht' & _ & _ & [(Hge & Hn' & Hf)|(Hlt & Hn' & Hf)]).
  - split.
    + rewrite Hn', Hf, length_app, Nat.add_1_r, Hn. reflexivity.
    + rewrite Ht', Hn'. apply Hmono.
      assert (Hle : s_t s <= fl (s_next_frame_time s + frame_dt)).
      { apply Rle_trans with (1 := Ht). apply Hmono. lra. }
      lra.
  - split; [by rewrite Hn', Hf|]. rewrite Ht', Hn'. apply Hmono. lra.
Qed.

Lemma reaches_sampled (k : nat) (s : state) :
  reaches' (initial_state vertices) k s -> sampled' s.
Proof.
  induction 1 as [|k s s' _ IH _ Hb]; [apply sampled_initial|].
  by eapply sampled_body.
Qed.

(** The pass that records frame [j] starts at or after the threshold of
    the frame, and no later than the float that follows from the threshold
    by one step. *)
Lemma recorded_at_window (j : nat) (frame : array) (k : nat) (t_j : R) :
  recorded_at' j frame k t_j ->
  threshold j <= t_j <= fl (threshold j + dt).
Proof.
  intros (s & s' & Hr & Hg & Hb & Hlen & Hf & ->).
  apply reaches_sampled in Hr as [Hn Ht]. rewrite Hlen in Hn. rewrite <- Hn.
  split; [|exact Ht].
  apply body_Ok in Hb as (p & v & _ & _ & _ & _ & [(Hge & _)|(_ & _ & Hsame)]);
    [lra|].
  rewrite Hsame in Hf. apply (f_equal length) in Hf.
  rewrite length_app in Hf. simpl in Hf. lia.
Qed.

(** The number of frames when the loop ends. *)
Lemma final_frame_window (K : nat) (sK : state) :
  reaches' (initial_state vertices) K sK -> ~ s_t sK < t_end ->
  t_end <= fl (threshold (length (s_frames sK)) + dt) /\
  forall j, (j < length (s_frames sK))%nat -> threshold j < t_end.
Proof.
  intros Hr Hstop. split.
  - apply reaches_sampled in Hr as [Hn Ht]. rewrite <- Hn. lra.
  - intros j Hj. destruct (lookup_lt_is_Some_2 _ _ Hj) as [frame Hf].
    destruct (frames_recorded_at fl _ _ _ _ _ _ _ _ _ K sK Hr j frame Hf)
      as (k & t_j & _ & Hrec).
    pose proof (recorded_at_window _ _ _ _ Hrec) as [Hlo _].
    destruct Hrec as (s & s' & _ & Hg & _ & _ & _ & ->). lra.
Qed.

End Cadence.

(** ** The sampling cadence when the sums of times are exact *)

Section ExactCadence.

Variable fl : R -> R.

Variables (vertices : array) (triangles : list triangle)
          (springs : list spring) (ring_indices : list (list nat))
          (end_vertices : list nat * list nat)
          (mass : list R) (t_end dt frame_dt : R).

Hypothesis dt_pos : 0 < dt.
Hypothesis exact_times : exact_on_grid fl dt t_end.

#[local] Abbreviation recorded_at' :=
  (recorded_at fl vertices triangles springs ring_indices end_vertices mass
     t_end dt frame_dt).
#[local] Abbreviation cadence' := (cadence t_end dt frame_dt).

#[local] Abbreviation body' :=
  (body fl triangles springs ring_indices end_vertices vertices mass dt frame_dt).
#[local] Abbreviation reaches' :=
  (reaches fl triangles springs ring_indices end_vertices vertices mass
     t_end dt frame_dt).

(** After [k] passes the time is [k * dt], and the last pass was entered
    before [t_end]. *)
Lemma reaches_time (k : nat) (s : state) :
  reaches' (initial_state vertices) k s ->
  s_t s = INR k * dt /\ (k = 0%nat \/ s_t s - dt < t_end).
Proof.
  induction 1 as [|k s s' _ (IHt & _) Hg Hb].
  - simpl. split; [lra | by left].
  - apply body_Ok in Hb as (p & v & _ & Ht' & _).
    rewrite IHt in Ht', Hg. rewrite (exact_times k Hg) in Ht'.
    rewrite Ht', S_INR. split; [lra | right; lra].
Qed.

(** A recording time is a whole number of physics steps. *)
Lemma recorded_at_step (j : nat) (frame : array) (k : nat) (t_j : R) :
  recorded_at' j frame k t_j -> t_j = INR k * dt.
Proof.
  intros (s & s' & Hr & _ & _ & _ & _ & ->).
  by apply reaches_time in Hr as [Ht _].
Qed.

Hypothesis dt_le_frame_dt : dt <= frame_dt.
Hypothesis exact_thresholds : exact_on_grid fl frame_dt t_end.

Lemma cadence_initial : cadence' 0 (initial_state vertices).
Proof. unfold cadence. simpl. repeat split; try lra. by left. Qed.

Lemma cadence_body (k : nat) (s s' : state) :
  cadence' k s -> s_t s < t_end -> body' s = Ok s' -> cadence' (S k) s'.
Proof.
  intros (Ht & Hnext & [Hlo Hhi] & _) Hg Hb.
  apply body_Ok in Hb as (p & v & _ & Ht' & _ & _ & Hrec).
  assert (Hk : INR k * dt < t_end) by lra.
  rewrite Ht, (exact_times k Hk) in Ht'.
  unfold cadence. rewrite Ht', S_INR.
  destruct Hrec as [(Hge & Hn' & ->)|(Hlt & -> & ->)].
  - assert (Hm : INR (length (s_frames s)) * frame_dt < t_end) by lra.
    rewrite Hnext, (exact_thresholds _ Hm) in Hn'. rewrite Hn'.
    rewrite length_app. cbn [length]. rewrite Nat.add_1_r, S_INR.
    split; [lra|]. split; [lra|]. split; [lra|]. right. lra.
  - split; [lra|]. split; [lra|]. split; [lra|]. right. lra.
Qed.

Lemma reaches_cadence (k : nat) (s : state) :
  reaches' (initial_state vertices) k s -> cadence' k s.
Proof.
  induction 1 as [|k s s' _ IH Hg Hb]; [apply cadence_initial|].
  by eapply cadence_body.
Qed.

(** Any pass that records frame [j] starts in the window
    [[j * frame_dt, j * frame_dt + dt)]. *)
Lemma recorded_at_grid_window (j : nat) (frame : array) (k : nat) (t_j : R) :
  recorded_at' j frame k t_j ->
  INR j * frame_dt <= t_j < INR j * frame_dt + dt.
Proof.
  intros (s & s' & Hr & Hg & Hb & Hlen & Hf & ->).
  apply reaches_cadence in Hr as (_ & Hnext & [_ Hhi] & _).
  rewrite Hlen in Hnext.
  apply body_Ok in Hb as (p & v & _ & _ & _ & _ & Hrec).
  destruct Hrec as [(Hge & _ & _)|(_ & _ & Hsame)].
  - lra.
  - rewrite Hsame in Hf. apply (f_equal length) in Hf.
    rewrite length_app in Hf. simpl in Hf. lia.
Qed.

(** The number of frames when the loop ends. *)
Lemma final_frame_count (K : nat) (sK : state) :
  0 <= t_end ->
  reaches' (initial_state vertices) K sK -> ~ s_t sK < t_end ->
  (INR (length (s_frames sK)) - 1) * frame_dt < t_end
  < (INR (length (s_frames sK)) + 1) * frame_dt.
Proof.
  intros Hend Hr Hstop.
  pose proof (reaches_cadence _ _ Hr) as (Ht & Hnext & [Hlo Hhi] & Hlast).
  destruct Hlast as [->|Hlast].
  - inversion Hr; subst. simpl in *. lra.
  - rewrite Hnext in Hlo, Hhi. lra.
Qed.

End ExactCadence.

Lemma floor_or_next (n : nat) (x : R) :
  INR n - 1 < x < INR n + 1 ->
  Z.of_nat n = Zfloor x \/ Z.of_nat n = (Zfloor x + 1)%Z.
Proof.
  intros [Hlo Hhi]. rewrite INR_IZR_INZ in Hlo, Hhi.
  destruct (Rlt_dec x (IZR (Z.of_nat n))) as [Hlt|Hge].
  - right. rewrite (Zfloor_eq (Z.of_nat n - 1) x); [lia|].
    rewrite minus_IZR. lra.
  - left. symmetry. apply Zfloor_eq. lra.
Qed.

(** On a mesh that indexes into [vertices], with a step that the floats
    resolve, [simulate] returns once the fuel covers the passes. *)
Lemma simulate_returns (fl : R -> R) (vertices : array)
    (triangles : list triangle)
    (springs : list spring) (ring_indices : list (list nat))
    (end_vertices : list nat * list nat) (t_end dt fps : R) :
  resolves fl t_end dt ->
  valid_mesh (length vertices) triangles springs ring_indices end_vertices ->
  vertices <> [] -> fps <> 0 ->
  exists (K : nat) (sK : state),
    reaches fl triangles springs ring_indices end_vertices vertices
      (repeat (shell_mass / INR (length vertices)) (length vertices))
      t_end dt (fl (1.0 / fps)) (initial_state vertices) K sK /\
    ~ s_t sK < t_end /\
    forall fuel', (K <= fuel')%nat ->
      simulate fl fuel' None vertices triangles springs ring_indices
        end_vertices t_end dt fps = Some (Ok (s_frames sK)).
Proof.
  intros Hres Hmesh Hn Hfps.
  destruct (run_terminates fl vertices triangles springs ring_indices
              end_vertices
              (repeat (shell_mass / INR (length vertices)) (length vertices))
              t_end dt (fl (1.0 / fps)) Hres Hmesh (repeat_length _ _))
    as (K & sK & Hr & Hstop).
  exists K, sK. split; [exact Hr|]. split; [exact Hstop|].
  intros fuel' Hfuel. unfold simulate.
  rewrite (prelude_Ok fl vertices t_end dt fps)
    by (exact Hn || exact Hfps || (destruct Hres; lra)).
  by eapply loop_returns.
Qed.

(** C5 (amended): the sampling of frames, with the times [t] and
    [next_frame_time] accumulated in floats ([fl] rounds a sum to the float
    that is stored).  Let [frame_dt] be the float [1.0/fps] and let the
    threshold of frame [j] be [frame_dt] added [j] times to [0.0].  On a mesh
    that indexes into [vertices], for [fps > 0] and a step [dt] with
    [0 < dt <= frame_dt] that the floats below [t_end + dt] resolve,
    [simulate] returns.  Frame [j] is recorded by the first pass that starts
    at or after its threshold, at a time [t_j] between the threshold and the
    float one step after it; the frames are recorded in the order of their
    numbers, at strictly increasing times; and the number [n] of frames
    returned is set by the thresholds: the thresholds of all [n] frames lie
    before [t_end], and [t_end] is at most the float one step after the
    threshold of frame [n].  Where the sums [k * dt] and [j * frame_dt] below
    [t_end] are floats and [frame_dt = 1/fps], the thresholds are [j / fps],
    [j / fps <= t_j < j / fps + dt], and for [t_end >= 0] the number of
    frames is [floor (t_end * fps)] or one more. *)
Theorem frame_sampling_cadence (fl : R -> R) (vertices : array)
    (triangles : list triangle)
    (springs : list spring) (ring_indices : list (list nat))
    (end_vertices : list nat * list nat) (t_end dt fps : R) :
  rounds fl -> resolves fl t_end dt ->
  valid_mesh (length vertices) triangles springs ring_indices end_vertices ->
  vertices <> [] -> 0 < fps -> dt <= fl (1.0 / fps) ->
  let mass := repeat (shell_mass / INR (length vertices)) (length vertices) in
  let frame_dt := fl (1.0 / fps) in
  let passes :=
    reaches fl triangles springs ring_indices end_vertices vertices mass
      t_end dt frame_dt (initial_state vertices) in
  let recorded :=
    recorded_at fl vertices triangles springs ring_indices end_vertices mass
      t_end dt frame_dt in
  let threshold := accumulated fl frame_dt in
  exists (fuel : nat) (frames : list array),
    (forall fuel', (fuel <= fuel')%nat ->
       simulate fl fuel' None vertices triangles springs ring_indices
         end_vertices t_end dt fps = Some (Ok frames)) /\
    (t_end <= fl (threshold (length frames) + dt) /\
     forall j, (j < length frames)%nat -> threshold j < t_end) /\
    (forall j frame, frames !! j = Some frame ->
       exists k t_j, recorded j frame k t_j) /\
    (forall j frame k t_j, recorded j frame k t_j ->
       threshold j <= t_j <= fl (threshold j + dt)) /\
    (forall j frame k t_j k' s, recorded j frame k t_j ->
       passes k' s -> (k' < k)%nat -> length (s_frames s) = j ->
       s_t s < threshold j) /\
    (forall j1 j2 f1 f2 k1 k2 t1 t2,
       (j1 < j2)%nat -> recorded j1 f1 k1 t1 -> recorded j2 f2 k2 t2 ->
       (k1 < k2)%nat /\ t1 < t2) /\
    (exact_on_grid fl dt t_end -> exact_on_grid fl frame_dt t_end ->
     frame_dt = 1 / fps -> 0 <= t_end ->
     (Z.of_nat (length frames) = Zfloor (t_end * fps) \/
      Z.of_nat (length frames) = (Zfloor (t_end * fps) + 1)%Z) /\
     forall j frame k t_j, recorded j frame k t_j ->
       INR j / fps <= t_j < INR j / fps + dt).
Proof.
  intros Hfl Hres Hmesh Hn Hfps Hstep mass frame_dt passes recorded threshold.
  assert (Hdt : 0 < dt) by (by destruct Hres).
  assert (Hdt0 : 0 <= dt) by lra.
  destruct (simulate_returns fl vertices triangles springs ring_indices
              end_vertices t_end dt fps Hres Hmesh Hn)
    as (K & sK & Hr & Hstop & Hrun); [lra|].
  fold mass frame_dt in Hr.
  assert (Hmass : length mass = length vertices) by apply repeat_length.
  exists K, (s_frames sK).
  split; [exact Hrun|].
  split.
  { exact (final_frame_window fl vertices triangles springs ring_indices
             end_vertices mass t_end dt frame_dt Hfl Hdt0 Hstep K sK Hr Hstop). }
  split.
  { intros j frame Hj.
    destruct (frames_recorded_at fl vertices triangles springs ring_indices
                end_vertices mass t_end dt frame_dt K sK Hr j frame Hj)
      as (k & t_j & _ & Hrec).
    by exists k, t_j. }
  split.
  { intros j frame k t_j.
    exact (recorded_at_window fl vertices triangles springs ring_indices
             end_vertices mass t_end dt frame_dt Hfl Hdt0 Hstep j frame k t_j). }
  split.
  { intros j frame k t_j k' s Hrec Hs Hlt Hlen.
    pose proof (recorded_at_first fl vertices triangles springs ring_indices
                  end_vertices mass t_end dt frame_dt j frame k t_j k' s
                  Hrec Hs Hlt Hlen) as Hbefore.
    destruct (reaches_sampled fl vertices triangles springs ring_indices
                end_vertices mass t_end dt frame_dt Hfl Hdt0 Hstep k' s Hs)
      as [Hnext _].
    rewrite Hnext, Hlen in Hbefore. exact Hbefore. }
  split.
  { intros j1 j2 f1 f2 k1 k2 t1 t2 Hlt H1 H2.
    pose proof (recorded_at_passes fl vertices triangles springs ring_indices
                  end_vertices mass t_end dt frame_dt j1 j2 f1 f2 k1 k2 t1 t2
                  Hlt H1 H2) as Hk.
    split; [exact Hk|].
    destruct H1 as (s1 & _ & Hr1 & _ & _ & _ & _ & ->).
    destruct H2 as (s2 & _ & Hr2 & _ & _ & _ & _ & ->).
    exact (reaches_time_order fl vertices triangles springs ring_indices
             end_vertices mass t_end dt frame_dt Hres k1 k2 s1 s2
             Hr1 Hr2 Hk). }
  intros Hgrid_t Hgrid_n Hfd Hend.
  assert (Hone : frame_dt * fps = 1).
  { rewrite Hfd. unfold Rdiv. rewrite Rmult_assoc, Rinv_l; lra. }
  split.
  - apply floor_or_next.
    pose proof (final_frame_count fl vertices triangles springs ring_indices
                  end_vertices mass t_end dt frame_dt Hdt Hgrid_t Hstep
                  Hgrid_n K sK Hend Hr Hstop) as [Hlo Hhi].
    split.
    + apply Rmult_lt_compat_r with (r := fps) in Hlo; [|exact Hfps].
      rewrite Rmult_assoc, Hone in Hlo. lra.
    + apply Rmult_lt_compat_r with (r := fps) in Hhi; [|exact Hfps].
      rewrite Rmult_assoc, Hone in Hhi. lra.
  - intros j frame k t_j Hrec.
    pose proof (recorded_at_grid_window fl vertices triangles springs
                  ring_indices end_vertices mass t_end dt frame_dt Hdt Hgrid_t
                  Hstep Hgrid_n j frame k t_j Hrec) as Hwin.
    replace (INR j / fps) with (INR j * frame_dt); [exact Hwin|].
    rewrite Hfd. unfold Rdiv. lra.
Qed.

Lemma frame_sampling_cadence_witness :
  exists (fuel : nat) (frames : list array),
    simulate unrounded fuel None two_vertices [] one_spring one_ring two_ends
      1 0.0078125 32 = Some (Ok frames) /\
    (Z.of_nat (length frames) = 32%Z \/ Z.of_nat (length frames) = 33%Z).
Proof.
  destruct (frame_sampling_cadence unrounded two_vertices [] one_spring
              one_ring two_ends 1 0.0078125 32)
    as (fuel & frames & Hrun & _ & _ & _ & _ & _ & Hexact).
  - exact unrounded_rounds.
  - apply unrounded_resolves. lra.
  - exact two_vertices_valid.
  - discriminate.
  - lra.
  - unfold unrounded. lra.
  - exists fuel, frames. split; [by apply Hrun|].
    destruct Hexact as [Hcount _].
    + apply unrounded_exact_on_grid.
    + apply unrounded_exact_on_grid.
    + unfold unrounded. lra.
    + lra.
    + replace (Zfloor (1 * 32)) with 32%Z in Hcount; [exact Hcount|].
      symmetry. apply Zfloor_eq. lra.
Defined.

(** C5 as stated fails in two ways, shown here on runs in which every sum
    of times is a binary fraction that the floats hold exactly.  When the
    frame interval is finer than the physics step the count is off, as a
    pass records at most one frame: with [t_end = 1], [dt = 0.25] and
    [fps = 8] the loop makes four passes and returns at most four frames,
    while [floor (t_end * fps) = 8].  And the times at which frames are
    recorded are whole numbers of physics steps, so they are not [1/fps]
    apart: with [t_end = 1], [dt = 0.375] and [fps = 2], frame 0 is recorded
    by the pass that starts at time 0 and frame 1 by the pass that starts at
    time 0.75, not 0.5. *)
Lemma cadence_counterexamples :
  (exists (fuel : nat) (frames : list array),
     simulate unrounded fuel None two_vertices [] one_spring one_ring two_ends
       1 0.25 8 = Some (Ok frames) /\
     (length frames <= 4)%nat /\
     Zfloor (1 * 8) = 8%Z) /\
  (let mass := repeat (shell_mass / INR 2) 2%nat in
   let recorded :=
     recorded_at unrounded two_vertices [] one_spring one_ring two_ends mass
       1 0.375 (1.0 / 2) in
   exists (fuel : nat) (frames : list array) (f0 f1 : array) (k0 k1 : nat)
          (t0 t1 : R),
     simulate unrounded fuel None two_vertices [] one_spring one_ring two_ends
       1 0.375 2 = Some (Ok frames) /\
     frames !! 0%nat = Some f0 /\ frames !! 1%nat = Some f1 /\
     recorded 0%nat f0 k0 t0 /\ recorded 1%nat f1 k1 t1 /\
     t0 = 0 /\ t1 = 0.75 /\ t1 - t0 <> 1 / 2).
Proof.
  set (mass := repeat (shell_mass / INR (length two_vertices)) (length two_vertices)).
  split.
  - destruct (simulate_returns unrounded two_vertices [] one_spring one_ring
                two_ends 1 0.25 8) as (K & sK & Hr & Hstop & Hrun).
    { apply unrounded_resolves. lra. }
    { exact two_vertices_valid. }
    { discriminate. }
    { lra. }
    exists K, (s_frames sK). split; [exact (Hrun K (Nat.le_refl K))|]. split.
    + pose proof (reaches_frames_passes _ _ _ _ _ _ _ _ _ _ _ _ Hr) as Hlen.
      destruct (reaches_time unrounded _ _ _ _ _ _ 1 0.25 _
                  (unrounded_exact_on_grid _ _) K sK Hr) as (Ht & Hlast).
      destruct (le_lt_dec K 4) as [HK|HK]; [lia|].
      destruct Hlast as [->|Hlast]; [lia|].
      apply le_INR in HK. rewrite Ht in Hlast. simpl in HK. lra.
    + apply Zfloor_eq. lra.
  - assert (Hdt : 0 < 0.375) by lra.
    assert (Hfd : 0.375 <= 1.0 / 2) by lra.
    destruct (simulate_returns unrounded two_vertices [] one_spring one_ring
                two_ends 1 0.375 2) as (K & sK & Hr & Hstop & Hrun).
    { apply unrounded_resolves. lra. }
    { exact two_vertices_valid. }
    { discriminate. }
    { lra. }
    change (unrounded (1.0 / 2)) with (1.0 / 2) in Hr. fold mass in Hr.
    assert (Hcount : (2 <= length (s_frames sK))%nat).
    { destruct (final_frame_count unrounded two_vertices [] one_spring one_ring
                  two_ends mass 1 0.375 (1.0 / 2) Hdt
                  (unrounded_exact_on_grid _ _) Hfd
                  (unrounded_exact_on_grid _ _) K sK) as [_ Hhi];
        [lra | exact Hr | exact Hstop |].
      destruct (le_lt_dec 2 (length (s_frames sK))) as [Hle|Hlt]; [exact Hle|].
      assert (Hn : INR (length (s_frames sK)) <= 1).
      { change 1 with (INR 1). apply le_INR. lia. }
      lra. }
    destruct (lookup_lt_is_Some_2 (s_frames sK) 0) as [f0 Hf0]; [lia|].
    destruct (lookup_lt_is_Some_2 (s_frames sK) 1) as [f1 Hf1]; [lia|].
    destruct (frames_recorded_at unrounded two_vertices [] one_spring one_ring
                two_ends mass 1 0.375 (1.0 / 2) K sK Hr 0%nat f0 Hf0)
      as (k0 & t0 & _ & H0).
    destruct (frames_recorded_at unrounded two_vertices [] one_spring one_ring
                two_ends mass 1 0.375 (1.0 / 2) K sK Hr 1%nat f1 Hf1)
      as (k1 & t1 & _ & H1).
    exists K, (s_frames sK), f0, f1, k0, k1, t0, t1.
    split; [exact (Hrun K (Nat.le_refl K))|].
    split; [exact Hf0|]. split; [exact Hf1|].
    split; [exact H0|]. split; [exact H1|].
    pose proof (recorded_at_grid_window unrounded _ _ _ _ _ _ _ _ _ Hdt
                  (unrounded_exact_on_grid _ _) Hfd
                  (unrounded_exact_on_grid _ _) _ _ _ _ H0) as Hw0.
    pose proof (recorded_at_grid_window unrounded _ _ _ _ _ _ _ _ _ Hdt
                  (unrounded_exact_on_grid _ _) Hfd
                  (unrounded_exact_on_grid _ _) _ _ _ _ H1) as Hw1.
    pose proof (recorded_at_step unrounded _ _ _ _ _ _ _ _ _
                  (unrounded_exact_on_grid _ _) _ _ _ _ H0) as Hk0.
    pose proof (recorded_at_step unrounded _ _ _ _ _ _ _ _ _
                  (unrounded_exact_on_grid _ _) _ _ _ _ H1) as Hk1.
    assert (Ht0 : t0 = 0).
    { destruct k0 as [|k0]; [simpl in Hk0; lra|].
      rewrite S_INR in Hk0. pose proof (pos_INR k0). simpl in Hw0. lra. }
    assert (Ht1 : t1 = 0.75).
    { destruct k1 as [|[|[|k1]]].
      - simpl in Hk1, Hw1. lra.
      - simpl in Hk1, Hw1. lra.
      - simpl in Hk1. lra.
      - rewrite !S_INR in Hk1. pose proof (pos_INR k1). simpl in Hw1. lra. }
    split; [exact Ht0|]. split; [exact Ht1|]. lra.
Qed.

(** ** Interruption *)

Lemma frames_nonempty_after_a_pass (fl : R -> R) (vertices : array)
    (triangles : list triangle) (springs : list spring)
    (ring_indices : list (list nat)) (end_vertices : list nat * list nat)
    (mass : list R) (t_end dt frame_dt : R) (k : nat) (s : state) :
  reaches fl triangles springs ring_indices end_vertices vertices mass
    t_end dt frame_dt (initial_state vertices) (S k) s ->
  s_frames s <> [].
Proof.
  intros Hr. destruct (first_frame _ _ _ _ _ _ _ _ _ _ _ _ Hr) as (s1 & _ & Hhead).
  intros Hnil. rewrite Hnil in Hhead. discriminate.
Qed.

(** C6: a [KeyboardInterrupt] that lands in pass [k] of the loop, in the
    state [s_int] (the state at the start of the pass, or the state after
    its [frames.append]), makes [simulate] return exactly the frames of
    [s_int] when there is at least one, and raise [KeyboardInterrupt] when
    there is none, which happens only for an interrupt in the first pass
    before its frame is recorded.  The frames returned are an initial
    segment of the frames that the run returns when it is not
    interrupted. *)
Theorem interrupt_returns_collected_frames (fl : R -> R)
    (fuel k : nat) (ph : phase)
    (vertices : array) (triangles : list triangle) (springs : list spring)
    (ring_indices : list (list nat)) (end_vertices : list nat * list nat)
    (t_end dt fps : R) (mass : list R) (frame_dt : R) (s s_int : state) :
  prelude fl vertices t_end dt fps = Ok (mass, frame_dt) ->
  reaches fl triangles springs ring_indices end_vertices vertices mass
    t_end dt frame_dt (initial_state vertices) k s ->
  s_t s < t_end ->
  interrupted_state fl triangles springs ring_indices end_vertices vertices mass
    dt frame_dt ph s = Ok s_int ->
  (k < fuel)%nat ->
  simulate fl fuel (Some (k, ph)) vertices triangles springs ring_indices
    end_vertices t_end dt fps
  = Some (match s_frames s_int with
          | [] => Raise KeyboardInterrupt
          | _ :: _ => Ok (s_frames s_int)
          end) /\
  (s_frames s_int = [] <-> k = 0%nat /\ ph = BeforeRecord) /\
  (forall fuel' frames,
     simulate fl fuel' None vertices triangles springs ring_indices
       end_vertices t_end dt fps = Some (Ok frames) ->
     s_frames s_int `prefix_of` frames).
Proof.
  intros Hpre Hr Hg Hint Hfuel.
  assert (Hpos : 0 < t_end).
  { destruct k as [|k].
    - inversion Hr; subst. simpl in Hg. lra.
    - apply reaches_inv_cons in Hr as (_ & Hg0 & _). simpl in Hg0. lra. }
  assert (Hri : exists ki, reaches fl triangles springs ring_indices end_vertices
                  vertices mass t_end dt frame_dt (initial_state vertices) ki s_int
                /\ (ki = k /\ ph = BeforeRecord /\ s_int = s \/
                    ki = S k /\ ph = AfterRecord)).
  { destruct ph; simpl in Hint.
    - injection Hint as <-. exists k. auto.
    - exists (S k). split; [by eapply reaches_S | auto]. }
  destruct Hri as (ki & Hri & Hki).
  split; [|split].
  - unfold simulate. rewrite Hpre.
    rewrite (loop_interrupted _ _ _ _ _ _ _ _ _ _ _ _ _ _ _ Hr Hg Hfuel), Hint.
    cbn [rbind]. unfold on_interrupt.
    rewrite py_div_Ok by lra. cbn [rbind].
    by destruct (s_frames s_int).
  - split.
    + intros Hnil. destruct ki as [|ki'].
      * destruct Hki as [(-> & -> & _)|(Hk & _)]; [auto | discriminate].
      * exfalso. by eapply frames_nonempty_after_a_pass.
    + intros [-> ->]. simpl in Hint. injection Hint as <-.
      inversion Hr; subst. reflexivity.
  - intros fuel' frames Hrun. unfold simulate in Hrun. rewrite Hpre in Hrun.
    apply loop_None_result in Hrun as (K & sK & HK & -> & Hstop).
    destruct (reaches_before_end _ _ _ _ _ _ _ _ _ _ _ _ _ _ _ Hr Hg HK Hstop)
      as [HkK Hrest].
    destruct Hki as [(-> & _ & ->)|(-> & _)].
    + by eapply reaches_frames_prefix.
    + replace K with (S k + (K - S k))%nat in HK by lia.
      eapply reaches_frames_prefix.
      exact (reaches_split _ _ _ _ _ _ _ _ _ _ _ _ _ _ _ Hri HK).
Qed.

Lemma interrupt_returns_collected_frames_witness :
  let mass := repeat (shell_mass / INR 2) 2%nat in
  exists s1 : state,
    body unrounded [] one_spring one_ring two_ends two_vertices mass 0.01 (1.0 / 30)
      (initial_state two_vertices) = Ok s1 /\
    simulate unrounded 1 (Some (0%nat, AfterRecord)) two_vertices [] one_spring one_ring
      two_ends 1 0.01 30 = Some (Ok [s_positions s1]) /\
    simulate unrounded 1 (Some (0%nat, BeforeRecord)) two_vertices [] one_spring one_ring
      two_ends 1 0.01 30 = Some (Raise KeyboardInterrupt).
Proof.
  intros mass.
  destruct (body_total unrounded [] one_spring one_ring two_ends two_vertices
              mass 0.01 (1.0 / 30) (initial_state two_vertices))
    as [s1 Hbody];
    [exact two_vertices_valid | exact (initial_state_shaped two_vertices) |].
  assert (Hpre : prelude unrounded two_vertices 1 0.01 30 = Ok (mass, 1.0 / 30)).
  { apply (prelude_Ok unrounded two_vertices 1 0.01 30); [discriminate | lra | lra]. }
  assert (Hg : s_t (initial_state two_vertices) < 1) by (simpl; lra).
  exists s1. split; [exact Hbody|]. split.
  - destruct (interrupt_returns_collected_frames unrounded 1 0 AfterRecord two_vertices []
                one_spring one_ring two_ends 1 0.01 30 mass (1.0 / 30)
                (initial_state two_vertices) s1 Hpre (reaches_O _ _ _ _ _ _ _ _ _ _ _)
                Hg Hbody (Nat.lt_0_succ 0)) as [Hrun _].
    by rewrite (first_pass_records _ _ _ _ _ _ _ _ _ _ Hbody) in Hrun.
  - destruct (interrupt_returns_collected_frames unrounded 1 0 BeforeRecord two_vertices []
                one_spring one_ring two_ends 1 0.01 30 mass (1.0 / 30)
                (initial_state two_vertices) (initial_state two_vertices)
                Hpre (reaches_O _ _ _ _ _ _ _ _ _ _ _)
                Hg eq_refl (Nat.lt_0_succ 0)) as [Hrun _].
    exact Hrun.
Defined.





(** ** Failures before and in the first pass *)

(** Without vertices, [total_mass / n_vertices] divides by zero. *)
Example simulate_no_vertices (fl : R -> R)
    (fuel : nat) (intr : option (nat * phase))
    (triangles : list triangle) (springs : list spring)
    (ring_indices : list (list nat)) (end_vertices : list nat * list nat)
    (t_end dt fps : R) :
  simulate fl fuel intr [] triangles springs ring_indices end_vertices
    t_end dt fps = Some (Raise ZeroDivisionError).
Proof.
  unfold simulate, prelude, vertex_mass. cbn [length INR].
  by rewrite py_div_zero.
Qed.

(** A frame rate of zero fails at [frame_dt = 1.0 / fps], a step of zero at
    the quotient [t_end/dt] of the log line. *)
Example simulate_zero_rate_or_step (fl : R -> R)
    (fuel : nat) (intr : option (nat * phase))
    (t_end dt fps : R) :
  fps = 0 \/ dt = 0 ->
  simulate fl fuel intr two_vertices [] one_spring one_ring two_ends
    t_end dt fps = Some (Raise ZeroDivisionError).
Proof.
  intros Hzero. unfold simulate.
  destruct (prelude fl two_vertices t_end dt fps) as [[mass frame_dt]|e] eqn:Hpre.
  - apply prelude_inv in Hpre as (_ & Hfps & Hdt & _). tauto.
  - unfold prelude, vertex_mass in Hpre.
    rewrite py_div_Ok in Hpre by (simpl; lra). cbn [rbind] in Hpre.
    unfold py_div in Hpre.
    destruct (Req_EM_T fps 0); [by injection Hpre as <-|]. cbn [rbind] in Hpre.
    destruct (Req_EM_T dt 0); [by injection Hpre as <-|]. discriminate.
Qed.

(** A spring that names a vertex outside the array fails the first pass
    with [IndexError]. *)
Example simulate_spring_out_of_range :
  simulate unrounded 1 None two_vertices [] [(0%nat, 5%nat, 1, 1)] one_ring two_ends
    1 DT 30 = Some (Raise IndexError).
Proof.
  unfold simulate.
  rewrite (prelude_Ok unrounded two_vertices 1 DT 30)
    by (discriminate || unfold DT; lra).
  cbn [loop initial_state s_t].
  destruct (Rlt_dec 0.0 1) as [_|Hn]; [|lra].
  unfold body, integrate, net_force, compute_spring_forces.
  cbn [foldM s_positions]. unfold spring_step, two_vertices, get.
  reflexivity.
Qed.

(** * Further properties of the force model *)

(** ** Momentum *)

Lemma vec3_eq (a b : vec3) :
  vx a = vx b -> vy a = vy b -> vz a = vz b -> a = b.
Proof. destruct a, b. simpl. by intros -> -> ->. Qed.

Lemma vsum_insert (a : array) (i : nat) (f g : vec3) :
  a !! i = Some f -> vsum (<[i := g]> a) = vadd (vsum a) (vsub g f).
Proof.
  revert i. induction a as [|x a IH]; intros i Hi; [discriminate|].
  destruct i as [|i]; simpl in *.
  - injection Hi as ->. apply vec3_eq; simpl; lra.
  - rewrite (IH i Hi). apply vec3_eq; simpl; lra.
Qed.

Lemma vsum_zeros_like (a : array) : vsum (zeros_like a) = vzero.
Proof.
  unfold zeros_like. induction (length a) as [|n IH]; simpl; [reflexivity|].
  rewrite IH. apply vec3_eq; simpl; lra.
Qed.

Lemma update_at_vsum (a a' : array) (i : nat) (g : vec3 -> vec3) :
  update_at a i g = Ok a' ->
  exists f, a !! i = Some f /\ vsum a' = vadd (vsum a) (vsub (g f) f).
Proof.
  intros H. apply update_at_Ok in H as (f & Hf & ->).
  exists f. split; [exact Hf | by apply vsum_insert].
Qed.

Lemma spring_step_vsum dv (vertices forces forces' : array) (s : spring) :
  spring_step dv vertices forces s = Ok forces' -> vsum forces' = vsum forces.
Proof.
  destruct s as [[[i j] rest_length] k]. unfold spring_step. intros H.
  apply rbind_Ok in H as (x_i & _ & H).
  apply rbind_Ok in H as (x_j & _ & H).
  destruct (Rlt_dec (norm (vsub x_j x_i)) 1e-10); [by injection H as <-|].
  apply rbind_Ok in H as (forces1 & H1 & H).
  apply update_at_vsum in H1 as (f1 & _ & H1).
  apply update_at_vsum in H as (f2 & _ & H).
  rewrite H, H1. apply vec3_eq; simpl; lra.
Qed.

(** X1: the spring forces carry no net force: whatever the springs, the
    lengths and the division used, the rows of the array that
    [compute_spring_forces] returns sum to the zero vector. *)
Theorem spring_forces_sum_to_zero dv (vertices forces : array)
    (springs : list spring) :
  compute_spring_forces dv vertices springs = Ok forces ->
  vsum forces = vzero.
Proof.
  unfold compute_spring_forces. intros H.
  eapply (foldM_invariant (fun a : array => vsum a = vzero)) in H.
  - exact H.
  - apply vsum_zeros_like.
  - intros b s b' Hb _ Hs. apply spring_step_vsum in Hs. congruence.
Qed.

Lemma spring_forces_sum_to_zero_witness :
  exists forces : array,
    compute_spring_forces Rdiv [V3 0 0 0; V3 3 4 0; V3 0 1 0]
      [(0%nat, 1%nat, 4, 2); (1%nat, 2%nat, 1, 3); (2%nat, 2%nat, 1, 1)]
      = Ok forces /\
    vsum forces = vzero.
Proof.
  destruct (compute_spring_forces_total Rdiv [V3 0 0 0; V3 3 4 0; V3 0 1 0]
              [(0%nat, 1%nat, 4, 2); (1%nat, 2%nat, 1, 3); (2%nat, 2%nat, 1, 1)])
    as [forces H].
  - intros s Hs. mem_cases Hs; cbn; lia.
  - exists forces. split; [exact H|].
    exact (spring_forces_sum_to_zero _ _ _ _ H).
Defined.

(** ** Index checks of the spring forces *)

Lemma get_ge {A : Type} (a : list A) (i : nat) :
  (length a <= i)%nat -> get a i = Raise IndexError.
Proof. intros Hi. unfold get. by rewrite lookup_ge_None_2. Qed.

Lemma spring_step_out_of_range dv (vertices forces : array) (s : spring) :
  ~ ((spring_i s < length vertices)%nat /\ (spring_j s < length vertices)%nat) ->
  spring_step dv vertices forces s = Raise IndexError.
Proof.
  destruct s as [[[i j] rest_length] k].
  unfold spring_i, spring_j. cbn [fst snd]. intros Hout. unfold spring_step.
  destruct (le_lt_dec (length vertices) i) as [Hi|Hi].
  - by rewrite (get_ge vertices i Hi).
  - destruct (get_lt vertices i Hi) as [x_i ->]. cbn [rbind].
    rewrite (get_ge vertices j); [reflexivity | lia].
Qed.

(** X2: [compute_spring_forces] checks nothing but the indices.  For
    springs whose endpoints are not negative, it returns a force array, of
    the shape of [vertices], exactly when both endpoints of every spring are
    below the number of rows of [vertices], and raises [IndexError] when
    some endpoint is at or above it.  (An endpoint below zero is outside the
    embedding.) *)
Theorem compute_spring_forces_index_check dv (vertices : array)
    (springs : list spring) :
  ((forall s, s ∈ springs ->
      (spring_i s < length vertices)%nat /\ (spring_j s < length vertices)%nat) /\
   exists forces : array,
     compute_spring_forces dv vertices springs = Ok forces /\
     length forces = length vertices) \/
  ((exists s, s ∈ springs /\
      ~ ((spring_i s < length vertices)%nat /\ (spring_j s < length vertices)%nat)) /\
   compute_spring_forces dv vertices springs = Raise IndexError).
Proof.
  unfold compute_spring_forces.
  assert (Hgen : forall acc : array, length acc = length vertices ->
    ((forall s, s ∈ springs ->
        (spring_i s < length vertices)%nat /\ (spring_j s < length vertices)%nat) /\
     exists forces : array,
       foldM (spring_step dv vertices) acc springs = Ok forces /\
       length forces = length vertices) \/
    ((exists s, s ∈ springs /\
        ~ ((spring_i s < length vertices)%nat /\ (spring_j s < length vertices)%nat)) /\
     foldM (spring_step dv vertices) acc springs = Raise IndexError)).
  { induction springs as [|s springs IH]; intros acc Hacc.
    - left. split; [intros s Hs; by apply elem_of_nil in Hs|]. by exists acc.
    - destruct (decide ((spring_i s < length vertices)%nat /\
                        (spring_j s < length vertices)%nat)) as [[Hi Hj]|Hout].
      + destruct (spring_step_total dv vertices acc s Hacc Hi Hj) as [acc' Hstep].
        pose proof (spring_step_length _ _ _ _ _ Hstep) as Hlen.
        cbn [foldM]. rewrite Hstep. cbn [rbind].
        destruct (IH acc') as [[Hall Hok]|[(s' & Hs' & Hout) Hraise]];
          [congruence | left | right].
        * split; [|exact Hok]. intros s' Hs'.
          apply elem_of_cons in Hs' as [->|Hs']; auto.
        * split; [|exact Hraise]. exists s'. split; [by right | exact Hout].
      + right. split; [exists s; split; [left | exact Hout]|].
        cbn [foldM]. by rewrite (spring_step_out_of_range dv vertices acc s Hout). }
  apply Hgen, zeros_like_length.
Qed.

(** ** Springs at their rest length *)

Lemma norm_vsub_sym (a b : vec3) : norm (vsub a b) = norm (vsub b a).
Proof. unfold norm, vsub. cbn [vx vy vz]. f_equal. ring. Qed.

Lemma spring_step_at_rest dv (vertices forces : array) (i j : nat) (k : R)
    (x_i x_j : vec3) :
  vertices !! i = Some x_i -> vertices !! j = Some x_j ->
  length forces = length vertices ->
  spring_step dv vertices forces (i, j, norm (vsub x_i x_j), k) = Ok forces.
Proof.
  intros Hi Hj Hlen. unfold spring_step, get. rewrite Hi, Hj. cbn [rbind].
  destruct (Rlt_dec (norm (vsub x_j x_i)) 1e-10); [reflexivity|].
  cbv zeta. rewrite (norm_vsub_sym x_i x_j), Rminus_diag.
  destruct (lookup_lt_is_Some_2 forces i) as [f_i Hfi].
  { rewrite Hlen. by eapply lookup_lt_Some. }
  destruct (lookup_lt_is_Some_2 forces j) as [f_j Hfj].
  { rewrite Hlen. by eapply lookup_lt_Some. }
  unfold update_at, get. rewrite Hfi. cbn [rbind].
  rewrite vadd_zero_force, (list_insert_id forces i f_i Hfi), Hfj. cbn [rbind].
  by rewrite vsub_zero_force, (list_insert_id forces j f_j Hfj).
Qed.

(** X3: the springs that [build_springs] makes from a mesh exert no force
    on that mesh: every spring is at its rest length (or is too short to
    count), so [compute_spring_forces], with any division, returns the zero
    array. *)
Theorem fresh_springs_exert_no_force dv (vertices : array)
    (triangles : list triangle) (springs : list spring) :
  build_springs vertices triangles = Ok springs ->
  compute_spring_forces dv vertices springs = Ok (zeros_like vertices).
Proof.
  unfold build_springs, compute_spring_forces. intros Hbuild.
  apply mapM_Ok in Hbuild.
  assert (Hgen : forall acc : array, length acc = length vertices ->
            foldM (spring_step dv vertices) acc springs = Ok acc).
  { induction Hbuild as [|e s edges springs He _ IH]; intros acc Hacc;
      [reflexivity|].
    destruct e as [i j]. unfold make_spring in He.
    apply rbind_Ok in He as (v_i & Hi & He).
    apply rbind_Ok in He as (v_j & Hj & He).
    apply get_Ok in Hi, Hj. injection He as <-.
    cbn [foldM]. rewrite (spring_step_at_rest dv vertices acc i j _ v_i v_j Hi Hj Hacc).
    cbn [rbind]. by apply IH. }
  apply Hgen, zeros_like_length.
Qed.

Lemma fresh_springs_exert_no_force_witness :
  exists springs : list spring,
    build_springs [V3 0 0 0; V3 1 0 0; V3 0 1 0; V3 1 1 0.02]
                  [(0, 1, 2); (1, 3, 2)]%nat = Ok springs /\
    compute_spring_forces Rdiv [V3 0 0 0; V3 1 0 0; V3 0 1 0; V3 1 1 0.02] springs
    = Ok [vzero; vzero; vzero; vzero].
Proof.
  destruct (build_springs_total [V3 0 0 0; V3 1 0 0; V3 0 1 0; V3 1 1 0.02]
              [(0, 1, 2); (1, 3, 2)]%nat) as [springs Hbuild].
  - intros a b c H. simpl. mem_cases H; injection H as -> -> ->; lia.
  - exists springs. split; [exact Hbuild|].
    exact (fresh_springs_exert_no_force Rdiv _ _ _ Hbuild).
Defined.

(** ** The pressure on a triangle *)

Lemma norm_vzero : norm vzero = 0.
Proof.
  unfold norm, vzero. cbn [vx vy vz].
  replace (0 * 0 + 0 * 0 + 0 * 0) with 0 by lra. apply sqrt_0.
Qed.

Lemma norm_vscale (c : R) (a : vec3) : 0 <= c -> norm (vscale c a) = c * norm a.
Proof.
  intros Hc. unfold norm, vscale. cbn [vx vy vz].
  replace (c * vx a * (c * vx a) + c * vy a * (c * vy a) + c * vz a * (c * vz a))
    with (c * c * (vx a * vx a + vy a * vy a + vz a * vz a)) by ring.
  rewrite sqrt_mult_alt by nra. by rewrite sqrt_square.
Qed.

Lemma cross_same_origin (a b : vec3) : cross (vsub a a) b = vzero.
Proof. unfold cross, vsub, vzero. cbn [vx vy vz]. f_equal; ring. Qed.

Lemma cross_same_target (a b : vec3) : cross a (vsub b b) = vzero.
Proof. unfold cross, vsub, vzero. cbn [vx vy vz]. f_equal; ring. Qed.

Lemma cross_self (a : vec3) : cross a a = vzero.
Proof. unfold cross, vzero. cbn [vx vy vz]. f_equal; ring. Qed.

Lemma pressure_force_closed_form (normal : vec3) (pressure area : R) :
  area <> 0 ->
  vdiv Rdiv (vscale (pressure * area) (vdiv Rdiv normal (2 * area))) 3
  = vscale (pressure / 6) normal.
Proof.
  intros Harea. unfold vdiv, vscale. cbn [vx vy vz]. f_equal; by field.
Qed.

(** What the loop body of [compute_pressure_forces] does for a triangle
    that is not skipped. *)
Lemma pressure_step_adds (vertices forces : array) (t0 t1 t2 : nat)
    (v0 v1 v2 : vec3) (pressure : R) :
  let n := cross (vsub v1 v0) (vsub v2 v0) in
  let P := vscale (pressure / 6) n in
  vertices !! t0 = Some v0 -> vertices !! t1 = Some v1 ->
  vertices !! t2 = Some v2 ->
  1e-10 <= 0.5 * norm n ->
  List.length forces = List.length vertices ->
  (t0 <> t1 /\ t1 <> t2 /\ t0 <> t2) /\
  exists forces' : array,
    pressure_step Rdiv vertices pressure forces (t0, t1, t2) = Ok forces' /\
    (forall m f, forces !! m = Some f ->
       forces' !! m =
         Some (if bool_decide (m ∈ [t0; t1; t2]) then vadd f P else f)) /\
    vsum forces' = vadd (vsum forces) (vscale (pressure / 2) n).
Proof.
  intros n P H0 H1 H2 Harea Hlen.
  assert (Hdistinct : t0 <> t1 /\ t1 <> t2 /\ t0 <> t2).
  { assert (Hn : n <> vzero).
    { intros Hn. rewrite Hn, norm_vzero in Harea. lra. }
    repeat split; intros ->; apply Hn; unfold n.
    - rewrite H0 in H1. injection H1 as ->. apply cross_same_origin.
    - rewrite H1 in H2. injection H2 as ->. apply cross_self.
    - rewrite H0 in H2. injection H2 as ->. apply cross_same_target. }
  split; [exact Hdistinct|]. destruct Hdistinct as (H01 & H12 & H02).
  unfold pressure_step, get. rewrite H0, H1, H2. cbn [rbind]. fold n.
  destruct (Rlt_dec (0.5 * norm n) 1e-10) as [Hlt|_]; [lra|]. cbv zeta.
  rewrite pressure_force_closed_form by lra. fold P.
  destruct (lookup_lt_is_Some_2 forces t0) as [f0 Hf0].
  { rewrite Hlen. by eapply lookup_lt_Some. }
  destruct (lookup_lt_is_Some_2 forces t1) as [f1 Hf1].
  { rewrite Hlen. by eapply lookup_lt_Some. }
  destruct (lookup_lt_is_Some_2 forces t2) as [f2 Hf2].
  { rewrite Hlen. by eapply lookup_lt_Some. }
  unfold update_at, get. rewrite Hf0. cbn [rbind].
  rewrite list_lookup_insert_ne, Hf1 by done. cbn [rbind].
  rewrite !list_lookup_insert_ne, Hf2 by done. cbn [rbind].
  eexists. split; [reflexivity|]. split.
  - intros m f Hm.
    destruct (decide (m = t2)) as [->|Hm2].
    { rewrite list_lookup_insert_eq
        by (rewrite !length_insert; by eapply lookup_lt_Some).
      rewrite bool_decide_eq_true_2 by set_solver. congruence. }
    rewrite list_lookup_insert_ne by done.
    destruct (decide (m = t1)) as [->|Hm1].
    { rewrite list_lookup_insert_eq
        by (rewrite !length_insert; by eapply lookup_lt_Some).
      rewrite bool_decide_eq_true_2 by set_solver. congruence. }
    rewrite list_lookup_insert_ne by done.
    destruct (decide (m = t0)) as [->|Hm0].
    { rewrite list_lookup_insert_eq by (by eapply lookup_lt_Some).
      rewrite bool_decide_eq_true_2 by set_solver. congruence. }
    rewrite list_lookup_insert_ne by done.
    rewrite bool_decide_eq_false_2; [exact Hm|].
    intros Hin. mem_cases Hin; congruence.
  - rewrite (vsum_insert _ t2 f2) by (by rewrite !list_lookup_insert_ne).
    rewrite (vsum_insert _ t1 f1) by (by rewrite !list_lookup_insert_ne).
    rewrite (vsum_insert _ t0 f0) by done.
    unfold P, vadd, vsub, vscale. cbn [vx vy vz]. apply vec3_eq; cbn [vx vy vz]; lra.
Qed.

(** X4: what [compute_pressure_forces] adds for a triangle whose area is
    at least 1e-10, in exact arithmetic.  With [n = (v1 - v0) x (v2 - v0)]
    the three corners are distinct rows, each of them receives the same force
    [P = (pressure / 6) n], which is orthogonal to the two edges out of [v0]
    and of magnitude [pressure * area / 3]; all other rows are unchanged, and
    the triangle adds [pressure * area] times the unit normal, that is
    [(pressure / 2) n], to the sum of all forces. *)
Theorem pressure_force_on_triangle (vertices forces : array)
    (triangles : list triangle) (t0 t1 t2 : nat) (v0 v1 v2 : vec3)
    (pressure : R) :
  let n := cross (vsub v1 v0) (vsub v2 v0) in
  let area := 0.5 * norm n in
  let P := vscale (pressure / 6) n in
  0 < pressure ->
  vertices !! t0 = Some v0 -> vertices !! t1 = Some v1 ->
  vertices !! t2 = Some v2 ->
  1e-10 <= area ->
  compute_pressure_forces Rdiv vertices triangles pressure = Ok forces ->
  exists forces' : array,
    compute_pressure_forces Rdiv vertices (triangles ++ [(t0, t1, t2)]) pressure
    = Ok forces' /\
    (t0 <> t1 /\ t1 <> t2 /\ t0 <> t2) /\
    (forall m f, forces !! m = Some f ->
       forces' !! m =
         Some (if bool_decide (m ∈ [t0; t1; t2]) then vadd f P else f)) /\
    dot P (vsub v1 v0) = 0 /\ dot P (vsub v2 v0) = 0 /\
    norm P = pressure * area / 3 /\
    vsum forces' = vadd (vsum forces) (vscale (pressure / 2) n).
Proof.
  intros n area P Hp H0 H1 H2 Harea Hforces.
  pose proof (compute_pressure_forces_length _ _ _ _ _ Hforces) as Hlen.
  destruct (pressure_step_adds vertices forces t0 t1 t2 v0 v1 v2 pressure
              H0 H1 H2 Harea Hlen) as (Hdistinct & forces' & Hstep & Hrows & Hsum).
  unfold compute_pressure_forces in *.
  destruct (Rle_dec pressure 0) as [Hle|_]; [lra|].
  rewrite foldM_app, Hforces. cbn [rbind foldM]. rewrite Hstep. cbn [rbind].
  exists forces'. split; [reflexivity|]. split; [exact Hdistinct|].
  split; [exact Hrows|]. split; [|split; [|split; [|exact Hsum]]].
  - unfold dot, P, n, vscale, cross, vsub. cbn [vx vy vz]. ring.
  - unfold dot, P, n, vscale, cross, vsub. cbn [vx vy vz]. ring.
  - unfold P. rewrite norm_vscale by lra. unfold area. lra.
Qed.

Lemma pressure_force_on_triangle_witness :
  exists forces' : array,
    compute_pressure_forces Rdiv [V3 0 0 0; V3 1 0 0; V3 0 1 0]
      ([] ++ [(0, 1, 2)%nat]) 12
    = Ok forces' /\
    forall m f, [vzero; vzero; vzero] !! m = Some f ->
      forces' !! m =
        Some (if bool_decide (m ∈ [0; 1; 2]%nat)
              then vadd f (vscale (12 / 6)
                             (cross (vsub (V3 1 0 0) (V3 0 0 0))
                                    (vsub (V3 0 1 0) (V3 0 0 0))))
              else f).
Proof.
  destruct (pressure_force_on_triangle [V3 0 0 0; V3 1 0 0; V3 0 1 0]
              [vzero; vzero; vzero] [] 0 1 2 (V3 0 0 0) (V3 1 0 0) (V3 0 1 0) 12)
    as (forces' & Hok & _ & Hrows & _); try reflexivity.
  - lra.
  - unfold cross, vsub, norm. cbn [vx vy vz].
    replace ((0 - 0) * (0 - 0) - (0 - 0) * (1 - 0)) with 0 by lra.
    replace ((0 - 0) * (0 - 0) - (1 - 0) * (0 - 0)) with 0 by lra.
    replace ((1 - 0) * (1 - 0) - (0 - 0) * (0 - 0)) with 1 by lra.
    replace (0 * 0 + 0 * 0 + 1 * 1) with 1 by lra.
    rewrite sqrt_1. lra.
  - unfold compute_pressure_forces. destruct (Rle_dec 12 0); [lra|reflexivity].
  - exists forces'. split; [exact Hok | exact Hrows].
Defined.

(** ** Ring constraints at rest and off the ring *)

Lemma update_at_id (a : array) (i : nat) (g : vec3 -> vec3) :
  (i < length a)%nat -> (forall f, g f = f) -> update_at a i g = Ok a.
Proof.
  intros Hi Hg. destruct (lookup_lt_is_Some_2 a i Hi) as [f Hf].
  unfold update_at, get. rewrite Hf. cbn [rbind].
  by rewrite Hg, list_insert_id.
Qed.

Lemma foldM_fixed {A B : Type} (f : B -> A -> result B) (acc : B) (l : list A) :
  (forall x, x ∈ l -> f acc x = Ok acc) -> foldM f acc l = Ok acc.
Proof.
  induction l as [|x l IH]; intros Hf; [reflexivity|].
  cbn [foldM]. rewrite (Hf x) by left. cbn [rbind].
  apply IH. intros y Hy. apply Hf. by right.
Qed.



Lemma ring_step_at_rest dv (vertices forces : array) (idx : nat) :
  (idx < length vertices)%nat -> length forces = length vertices ->
  ring_step dv vertices (zeros_like vertices) vertices forces idx = Ok forces.
Proof.
  intros Hidx Hlen. unfold ring_step.
  destruct (get_lt vertices idx Hidx) as [p ->]. cbn [rbind].
  destruct (Rlt_dec (norm_xy p) 1e-10); [reflexivity|]. cbv zeta. cbn [fst snd].
  rewrite update_at_id; [|lia|intros [x y z]; cbn [vx vy vz]; f_equal; ring].
  cbn [rbind].
  rewrite update_at_id; [|lia|intros [x y z]; cbn [vx vy vz]; f_equal; ring].
  cbn [rbind]. unfold get at 1. rewrite zeros_like_lookup_lt by done.
  cbn [rbind]. apply update_at_id; [lia|].
  intros [x y z]. unfold vzero. cbn [vx vy vz]. f_equal; ring.
Qed.

(** X5: a tube at rest feels no ring constraint.  When the current
    positions are the original ones and all velocities are zero,
    [compute_ring_constraints] returns the zero array, for any rings that
    index into the mesh and any division. *)
Theorem ring_constraints_vanish_at_rest dv (vertices : array)
    (ring_indices : list (list nat)) :
  rings_in_range (length vertices) ring_indices ->
  compute_ring_constraints dv vertices (zeros_like vertices) ring_indices vertices
  = Ok (zeros_like vertices).
Proof.
  intros Hrings. unfold compute_ring_constraints. cbv zeta.
  apply foldM_fixed. intros ring Hring.
  apply foldM_fixed. intros idx Hidx.
  apply ring_step_at_rest; [|apply zeros_like_length].
  unfold rings_in_range in Hrings. rewrite Forall_forall in Hrings.
  specialize (Hrings ring Hring). rewrite Forall_forall in Hrings.
  by apply Hrings.
Qed.

Lemma ring_constraints_vanish_at_rest_witness :
  compute_ring_constraints Rdiv two_vertices (zeros_like two_vertices)
    [[0%nat; 1%nat]; [1%nat]] two_vertices
  = Ok (zeros_like two_vertices).
Proof.
  apply (ring_constraints_vanish_at_rest Rdiv two_vertices [[0%nat; 1%nat]; [1%nat]]).
  unfold rings_in_range, two_vertices. cbn [length].
  repeat (constructor; try lia).
Defined.

Lemma norm_xy_sqr (a : vec3) : norm_xy a * norm_xy a = vx a * vx a + vy a * vy a.
Proof. unfold norm_xy. apply sqrt_sqrt. nra. Qed.

(** X6: the ring constraint is a damped radial spring.  For a ring of one
    vertex that is off the axis (both radii at least 1e-10), the force
    [compute_ring_constraints] returns for it has no axial part, its
    radial part (its product with the in-plane position) is
    [-1e7 (r_curr - r_orig) r_curr - 200 (vel . pos)], and for a vertex that
    does not move it points inwards when the vertex is outside its original
    radius and outwards when it is inside; every other row is zero. *)
Theorem ring_constraint_is_restoring (vertices velocities original_vertices : array)
    (idx : nat) (pos orig vel : vec3) :
  vertices !! idx = Some pos -> original_vertices !! idx = Some orig ->
  velocities !! idx = Some vel ->
  1e-10 <= norm_xy orig -> 1e-10 <= norm_xy pos ->
  exists F : vec3,
    compute_ring_constraints Rdiv vertices velocities [[idx]] original_vertices
    = Ok (<[idx := F]> (zeros_like vertices)) /\
    vz F = 0 /\
    vx F * vx pos + vy F * vy pos
    = - 1e7 * (norm_xy pos - norm_xy orig) * norm_xy pos
      - 200 * (vx vel * vx pos + vy vel * vy pos) /\
    (vx vel = 0 -> vy vel = 0 ->
     (norm_xy orig < norm_xy pos -> vx F * vx pos + vy F * vy pos < 0) /\
     (norm_xy pos < norm_xy orig -> 0 < vx F * vx pos + vy F * vy pos)).
Proof.
  intros Hpos Horig Hvel Hro Hrc.
  pose proof (lookup_lt_Some _ _ _ Hpos) as Hidx.
  set (r := norm_xy pos) in *. set (r0 := norm_xy orig) in *.
  exists (V3 (- 1e7 * (r - r0) * (vx pos / r) + -200.0 * vx vel)
             (- 1e7 * (r - r0) * (vy pos / r) + -200.0 * vy vel) 0).
  assert (Hradial :
    (- 1e7 * (r - r0) * (vx pos / r) + -200.0 * vx vel) * vx pos
    + (- 1e7 * (r - r0) * (vy pos / r) + -200.0 * vy vel) * vy pos
    = - 1e7 * (r - r0) * r - 200 * (vx vel * vx pos + vy vel * vy pos)).
  { assert (Hunit : vx pos / r * vx pos + vy pos / r * vy pos = r).
    { pose proof (norm_xy_sqr pos) as Hsq. fold r in Hsq.
      transitivity ((vx pos * vx pos + vy pos * vy pos) / r); [field; lra|].
      rewrite <- Hsq. field. lra. }
    transitivity (- 1e7 * (r - r0) * (vx pos / r * vx pos + vy pos / r * vy pos)
                  - 200 * (vx vel * vx pos + vy vel * vy pos)); [lra|].
    by rewrite Hunit. }
  split; [|split; [reflexivity|split]].
  - unfold compute_ring_constraints. cbv zeta. cbn [foldM rbind].
    unfold ring_step, get. rewrite Horig, Hpos. cbn [rbind]. fold r0. fold r.
    destruct (Rlt_dec r0 1e-10); [lra|]. destruct (Rlt_dec r 1e-10); [lra|].
    cbv zeta. cbn [fst snd].
    unfold update_at, get. rewrite zeros_like_lookup_lt by done. cbn [rbind].
    rewrite list_lookup_insert_eq by (by rewrite zeros_like_length).
    cbn [rbind]. rewrite list_insert_insert_eq.
    rewrite Hvel. cbn [rbind].
    rewrite list_lookup_insert_eq by (by rewrite zeros_like_length).
    cbn [rbind]. rewrite list_insert_insert_eq.
    unfold vzero. cbn [vx vy vz]. do 3 f_equal; lra.
  - cbn [vx vy]. exact Hradial.
  - intros Hvx Hvy. cbn [vx vy]. rewrite Hradial, Hvx, Hvy. split; intros Hr; nra.
Qed.

Lemma ring_constraint_is_restoring_witness :
  exists F : vec3,
    compute_ring_constraints Rdiv [V3 2 0 0] [vzero] [[0%nat]] [V3 1 0 0]
    = Ok (<[0%nat := F]> (zeros_like [V3 2 0 0])) /\
    vx F * 2 + vy F * 0 < 0.
Proof.
  assert (H1 : norm_xy (V3 1 0 0) = 1).
  { unfold norm_xy. cbn [vx vy]. replace (1 * 1 + 0 * 0) with 1 by lra.
    apply sqrt_1. }
  assert (H2 : norm_xy (V3 2 0 0) = 2).
  { unfold norm_xy. cbn [vx vy]. replace (2 * 2 + 0 * 0) with (2 * 2) by lra.
    apply sqrt_square. lra. }
  destruct (ring_constraint_is_restoring [V3 2 0 0] [vzero] [V3 1 0 0] 0
              (V3 2 0 0) (V3 1 0 0) vzero)
    as (F & Hok & _ & _ & Hsign); try reflexivity.
  - rewrite H1. lra.
  - rewrite H2. lra.
  - exists F. split; [exact Hok|].
    apply (Hsign eq_refl eq_refl). rewrite H1, H2. lra.
Defined.

(** ** The external load: failures and the net force *)

Lemma load_loop_check (op : R -> R -> R) (load : R) (n_end : nat)
    (group : list nat) (forces : array) :
  n_end <> 0%nat ->
  (forall idx, idx ∈ group -> (idx < length forces)%nat) \/
  ((exists idx, idx ∈ group /\ (length forces <= idx)%nat) /\
   foldM (load_step op load n_end) forces group = Raise IndexError).
Proof.
  intros Hn. revert forces. induction group as [|idx group IH]; intros forces.
  - left. intros idx Hidx. by apply elem_of_nil in Hidx.
  - destruct (le_lt_dec (length forces) idx) as [Hout|Hin].
    + right. split; [exists idx; split; [left | exact Hout]|].
      cbn [foldM]. unfold load_step. by rewrite (get_ge forces idx Hout).
    + destruct (get_lt forces idx Hin) as [f Hf].
      cbn [foldM]. unfold load_step at 1. rewrite Hf. cbn [rbind].
      rewrite py_div_Ok by (by apply not_0_INR). cbn [rbind].
      destruct (IH (<[idx:=V3 (vx f) (vy f) (op (vz f) (load / INR n_end))]> forces))
        as [Hall|[(j & Hj & Hout) Hraise]].
      * left. intros j Hj. apply elem_of_cons in Hj as [->|Hj]; [exact Hin|].
        specialize (Hall j Hj). by rewrite length_insert in Hall.
      * right. split; [|exact Hraise]. exists j. split; [by right|].
        by rewrite length_insert in Hout.
Qed.

(** X7: the three ways [apply_external_load] can end, for groups of
    indices that are not negative.  It returns when every index of both
    groups is below the number of rows of [forces] and the first group is
    empty only if the second one is; it raises [IndexError] when some index
    is at or above the number of rows (met before any division by an empty
    first group); and it raises [ZeroDivisionError] when the first group is
    empty and the first index of the second group is below the number of
    rows.  (An index below zero is outside the embedding.) *)
Theorem apply_external_load_outcomes (forces : array) (g0 g1 : list nat)
    (load : R) :
  ((exists forces' : array,
      apply_external_load forces (g0, g1) load = Ok forces' /\
      length forces' = length forces) /\
   (g0 <> [] \/ g1 = []) /\
   (forall idx, idx ∈ g0 ++ g1 -> (idx < length forces)%nat)) \/
  (apply_external_load forces (g0, g1) load = Raise IndexError /\
   (exists idx, idx ∈ g0 ++ g1 /\ (length forces <= idx)%nat) /\
   (g0 <> [] \/ exists idx rest, g1 = idx :: rest /\ (length forces <= idx)%nat)) \/
  (apply_external_load forces (g0, g1) load = Raise ZeroDivisionError /\
   g0 = [] /\ exists idx rest, g1 = idx :: rest /\ (idx < length forces)%nat).
Proof.
  destruct g0 as [|i0 g0].
  - destruct g1 as [|idx rest].
    + left. split; [by exists forces|]. split; [by right|].
      intros idx Hidx. by apply elem_of_nil in Hidx.
    + right.
      destruct (le_lt_dec (length forces) idx) as [Hout|Hin]; [left | right];
        unfold apply_external_load; cbn [fst snd length foldM];
        unfold load_step at 1.
      * rewrite (get_ge forces idx Hout). split; [reflexivity|].
        split; [exists idx; split; [left | exact Hout]|].
        right. by exists idx, rest.
      * destruct (get_lt forces idx Hin) as [f ->]. cbn [rbind].
        change (INR 0) with 0. rewrite py_div_zero. split; [reflexivity|].
        split; [reflexivity|]. by exists idx, rest.
  - assert (Hn : length (i0 :: g0) <> 0%nat) by done.
    unfold apply_external_load. cbn [fst snd].
    destruct (load_loop_check Rminus load (length (i0 :: g0)) g1 forces Hn)
      as [Hall1|[(j & Hj & Hout) Hraise]].
    2:{ right. left. rewrite Hraise. split; [reflexivity|].
        split; [|by left]. exists j. split; [|exact Hout].
        apply elem_of_app. by right. }
    destruct (load_loop_spec Rminus load (length (i0 :: g0)) g1 forces Hall1)
      as (forces1 & -> & Hlen1 & _); [by left|]. cbn [rbind].
    destruct (load_loop_check Rplus load (length (i0 :: g0)) (i0 :: g0) forces1 Hn)
      as [Hall0|[(j & Hj & Hout) Hraise]].
    2:{ right. left. rewrite Hraise. split; [reflexivity|].
        split; [|by left]. exists j. split; [|by rewrite <- Hlen1].
        apply elem_of_app. by left. }
    destruct (load_loop_spec Rplus load (length (i0 :: g0)) (i0 :: g0) forces1 Hall0)
      as (forces2 & -> & Hlen2 & _); [by left|].
    left. split; [exists forces2; split; [reflexivity | congruence]|].
    split; [by left|]. intros idx Hidx.
    apply elem_of_app in Hidx as [Hidx|Hidx]; [|by apply Hall1].
    rewrite <- Hlen1. by apply Hall0.
Qed.

Lemma load_loop_vsum (op : R -> R -> R) (load : R) (n_end : nat) (d : R)
    (group : list nat) (forces forces' : array) :
  (forall z, op z (load / INR n_end) = z + d) ->
  (n_end <> 0%nat \/ group = []) ->
  foldM (load_step op load n_end) forces group = Ok forces' ->
  vsum forces' = vadd (vsum forces) (V3 0 0 (INR (length group) * d)).
Proof.
  intros Hop. revert forces. induction group as [|idx group IH];
    intros forces Hn Hfold.
  - injection Hfold as <-. cbn [length]. change (INR 0) with 0.
    apply vec3_eq; cbn [vadd vx vy vz]; lra.
  - destruct Hn as [Hn|Hn]; [|discriminate].
    cbn [foldM] in Hfold. apply rbind_Ok in Hfold as (forces1 & Hstep & Hfold).
    unfold load_step in Hstep. apply rbind_Ok in Hstep as (f & Hf & Hstep).
    rewrite py_div_Ok in Hstep by (by apply not_0_INR). cbn [rbind] in Hstep.
    injection Hstep as <-. apply get_Ok in Hf.
    rewrite (IH _ (or_introl Hn) Hfold), (vsum_insert forces idx f) by done.
    cbn [length]. rewrite Hop, S_INR.
    apply vec3_eq; cbn [vadd vsub vx vy vz]; lra.
Qed.

(** X8: the net force of the external load.  Whatever the two groups
    (with repeated or shared indices too), a call of [apply_external_load]
    that returns changes the sum of all forces by
    [(len(end_vertices[0]) - len(end_vertices[1])) * load / len(end_vertices[0])]
    along z and by nothing along x and y; the load adds no net force exactly
    as far as the two groups have the same size. *)
Theorem external_load_net_force (forces forces' : array) (g0 g1 : list nat)
    (load : R) :
  apply_external_load forces (g0, g1) load = Ok forces' ->
  vsum forces'
  = vadd (vsum forces)
         (V3 0 0 ((INR (length g0) - INR (length g1)) * (load / INR (length g0)))) /\
  (length g1 = length g0 -> vsum forces' = vsum forces).
Proof.
  intros Hok.
  assert (Hn : length g0 <> 0%nat \/ g1 = []).
  { destruct (apply_external_load_length forces forces' (g0, g1) load Hok) as [].
    destruct g0 as [|i0 g0]; [|by left]. right.
    destruct g1 as [|idx rest]; [reflexivity|].
    unfold apply_external_load in Hok. cbn [fst snd length foldM] in Hok.
    unfold load_step at 1 in Hok.
    destruct (get forces idx) as [f|e]; [|discriminate]. cbn [rbind] in Hok.
    change (INR 0) with 0 in Hok. rewrite py_div_zero in Hok. discriminate. }
  unfold apply_external_load in Hok. cbn [fst snd] in Hok.
  apply rbind_Ok in Hok as (forces1 & Hdown & Hup).
  apply (load_loop_vsum Rminus load (length g0) (- (load / INR (length g0))))
    in Hdown; [|intros z; lra|exact Hn].
  apply (load_loop_vsum Rplus load (length g0) (load / INR (length g0)))
    in Hup; [|intros z; lra|destruct g0; [by right | by left]].
  assert (Hsum : vsum forces'
    = vadd (vsum forces)
        (V3 0 0 ((INR (length g0) - INR (length g1)) * (load / INR (length g0))))).
  { rewrite Hup, Hdown. apply vec3_eq; cbn [vadd vx vy vz]; lra. }
  split; [exact Hsum|].
  intros Hlen. rewrite Hsum, Hlen.
  apply vec3_eq; cbn [vadd vx vy vz]; lra.
Qed.

Lemma external_load_net_force_witness :
  exists forces' : array,
    apply_external_load [vzero; vzero; vzero] ([0; 1]%nat, [1; 1]%nat) 10
    = Ok forces' /\
    vsum forces' = vsum [vzero; vzero; vzero].
Proof.
  destruct (apply_external_load_rows [vzero; vzero; vzero] [0; 1]%nat [1; 1]%nat 10)
    as (forces' & Hok & _).
  - intros idx Hidx. simpl in Hidx. cbn [length]. mem_cases Hidx; lia.
  - by left.
  - exists forces'. split; [exact Hok|].
    by apply (external_load_net_force _ _ _ _ _ Hok).
Defined.

(** * Further properties of the integrator *)

(** ** Runs that never enter the loop *)

(** X9: [simulate] divides three times before the loop, by the number of
    vertices, by [fps] and by [dt]; an empty vertex array, a frame rate of
    zero or a step of zero ends the call with [ZeroDivisionError], whatever
    the mesh, the duration and the fuel. *)
Theorem simulate_setup_failures (fl : R -> R)
    (fuel : nat) (intr : option (nat * phase))
    (vertices : array) (triangles : list triangle) (springs : list spring)
    (ring_indices : list (list nat)) (end_vertices : list nat * list nat)
    (t_end dt fps : R) :
  vertices = [] \/ fps = 0 \/ dt = 0 ->
  simulate fl fuel intr vertices triangles springs ring_indices end_vertices
    t_end dt fps = Some (Raise ZeroDivisionError).
Proof.
  intros Hzero. unfold simulate.
  destruct (prelude fl vertices t_end dt fps) as [[mass frame_dt]|e] eqn:Hpre.
  - apply prelude_inv in Hpre as (Hn & Hfps & Hdt & _). tauto.
  - unfold prelude, vertex_mass, py_div in Hpre.
    destruct (Req_EM_T (INR (length vertices)) 0); [by injection Hpre as <-|].
    cbn [rbind] in Hpre.
    destruct (Req_EM_T fps 0); [by injection Hpre as <-|]. cbn [rbind] in Hpre.
    destruct (Req_EM_T dt 0); [by injection Hpre as <-|]. discriminate.
Qed.

Lemma simulate_setup_failures_witness :
  simulate unrounded 0 None two_vertices [] one_spring one_ring two_ends 1 0 30
  = Some (Raise ZeroDivisionError).
Proof.
  apply (simulate_setup_failures unrounded). right. right. reflexivity.
Defined.

(** X10: a duration that is not positive gives no frames: the loop test
    fails at once, so [simulate] returns the empty list without reading the
    mesh (its indices may be out of range), and no interrupt can land in a
    pass. *)
Theorem simulate_nonpositive_duration (fl : R -> R)
    (fuel : nat) (intr : option (nat * phase))
    (vertices : array) (triangles : list triangle) (springs : list spring)
    (ring_indices : list (list nat)) (end_vertices : list nat * list nat)
    (t_end dt fps : R) :
  t_end <= 0 -> vertices <> [] -> fps <> 0 -> dt <> 0 ->
  simulate fl fuel intr vertices triangles springs ring_indices end_vertices
    t_end dt fps = Some (Ok []).
Proof.
  intros Hend Hn Hfps Hdt. unfold simulate.
  rewrite (prelude_Ok fl vertices t_end dt fps Hn Hfps Hdt).
  destruct fuel; cbn [loop initial_state s_t s_frames];
    destruct (Rlt_dec 0.0 t_end); (lra || reflexivity).
Qed.

Lemma simulate_nonpositive_duration_witness :
  simulate unrounded 0 (Some (0%nat, AfterRecord)) two_vertices [(7, 8, 9)%nat]
    [(5%nat, 6%nat, 1, 1)] one_ring two_ends 0 DT 30
  = Some (Ok []).
Proof.
  apply (simulate_nonpositive_duration unrounded);
    [lra | discriminate | lra | unfold DT; lra].
Defined.

(** ** A negative step *)

Lemma loop_negative_step (fl : R -> R)
    (triangles : list triangle) (springs : list spring)
    (ring_indices : list (list nat)) (end_vertices : list nat * list nat)
    (original_vertices : array) (mass : list R) (t_end dt frame_dt : R)
    (fuel : nat) (s : state) :
  rounds fl -> dt < 0 -> 0 < t_end ->
  valid_mesh (length original_vertices) triangles springs ring_indices
    end_vertices ->
  length mass = length original_vertices ->
  shaped (length original_vertices) s -> s_t s <= 0 ->
  loop fl triangles springs ring_indices end_vertices original_vertices mass
    t_end dt frame_dt fuel None s = None.
Proof.
  intros Hfl Hdt Hend Hmesh Hmass. revert s.
  induction fuel as [|fuel IH]; intros s Hshape Ht; cbn [loop];
    destruct (Rlt_dec (s_t s) t_end) as [_|Hge]; try lra; [reflexivity|].
  destruct (body_total fl triangles springs ring_indices end_vertices
              original_vertices mass dt frame_dt s Hmesh Hshape) as [s' Hbody].
  rewrite Hbody. apply IH.
  - by eapply body_shape.
  - apply body_Ok in Hbody as (? & ? & _ & Ht' & _). rewrite Ht'.
    rewrite <- (rounds_zero fl Hfl). destruct Hfl as (Hmono & _).
    apply Hmono. lra.
Qed.

(** X11: with a negative step the time runs backwards from 0 and never
    reaches a positive [t_end]: on a mesh that indexes into [vertices] no
    pass fails, so an uninterrupted run does not return, whatever the
    fuel and whatever the rounding [fl] of the times. *)
Theorem simulate_negative_step_never_returns (fl : R -> R)
    (fuel : nat) (vertices : array)
    (triangles : list triangle) (springs : list spring)
    (ring_indices : list (list nat)) (end_vertices : list nat * list nat)
    (t_end dt fps : R) :
  rounds fl ->
  valid_mesh (length vertices) triangles springs ring_indices end_vertices ->
  vertices <> [] -> 0 < fps -> dt < 0 -> 0 < t_end ->
  simulate fl fuel None vertices triangles springs ring_indices end_vertices
    t_end dt fps = None.
Proof.
  intros Hfl Hmesh Hn Hfps Hdt Hend. unfold simulate.
  rewrite (prelude_Ok fl vertices t_end dt fps) by (exact Hn || lra).
  apply loop_negative_step; try done.
  - apply repeat_length.
  - apply initial_state_shaped.
  - cbn [initial_state s_t]. lra.
Qed.

Lemma simulate_negative_step_never_returns_witness :
  simulate unrounded 1000 None two_vertices [] one_spring one_ring two_ends 1 (-0.01) 30
  = None.
Proof.
  apply (simulate_negative_step_never_returns unrounded);
    [exact unrounded_rounds | exact two_vertices_valid | discriminate
     | lra | lra | lra].
Defined.

(** ** The shape of the frames *)

Lemma reaches_frames_shaped (fl : R -> R)
    (triangles : list triangle) (springs : list spring)
    (ring_indices : list (list nat)) (end_vertices : list nat * list nat)
    (original_vertices : array) (mass : list R) (t_end dt frame_dt : R)
    (n k : nat) (s0 s : state) :
  shaped n s0 -> length mass = n ->
  Forall (fun frame : array => length frame = n) (s_frames s0) ->
  reaches fl triangles springs ring_indices end_vertices original_vertices mass
    t_end dt frame_dt s0 k s ->
  Forall (fun frame : array => length frame = n) (s_frames s).
Proof.
  intros Hshape Hmass Hframes Hr.
  induction Hr as [|k s s' Hr IH _ Hbody]; [exact Hframes|].
  pose proof (reaches_shape _ _ _ _ _ _ _ _ _ _ n s0 s k Hshape Hmass Hr) as Hs.
  pose proof (body_shape _ _ _ _ _ _ _ _ _ n s s' Hs Hmass Hbody) as [Hp _].
  apply body_Ok in Hbody
    as (positions & velocities & _ & _ & Hpos & _ & [(_ & _ & ->)|(_ & _ & ->)]);
    [|exact IH].
  apply Forall_app. split; [exact IH|]. constructor; [congruence | constructor].
Qed.

(** X12: every frame [simulate] returns, after an interrupt or without
    one, is an array with one row per vertex, whatever the mesh. *)
Theorem simulate_frames_shape (fl : R -> R)
    (fuel : nat) (intr : option (nat * phase))
    (vertices : array) (triangles : list triangle) (springs : list spring)
    (ring_indices : list (list nat)) (end_vertices : list nat * list nat)
    (t_end dt fps : R) (frames : list array) :
  simulate fl fuel intr vertices triangles springs ring_indices end_vertices
    t_end dt fps = Some (Ok frames) ->
  forall frame, frame ∈ frames -> length frame = length vertices.
Proof.
  unfold simulate. intros H.
  destruct (prelude fl vertices t_end dt fps) as [[mass frame_dt]|e] eqn:Hpre;
    [|discriminate].
  apply prelude_inv in Hpre as (_ & _ & _ & -> & _).
  apply loop_result_reachable in H as (k & s & Hr & -> & _).
  apply Forall_forall.
  eapply reaches_frames_shaped; [apply initial_state_shaped | apply repeat_length
                                | | exact Hr].
  constructor.
Qed.

Lemma simulate_frames_shape_witness :
  exists (fuel : nat) (frames : list array),
    simulate unrounded fuel None two_vertices [] one_spring one_ring two_ends 1 0.01 30
    = Some (Ok frames) /\
    forall frame, frame ∈ frames -> length frame = 2%nat.
Proof.
  destruct (simulate_returns unrounded two_vertices [] one_spring one_ring
              two_ends 1 0.01 30) as (fuel & sK & _ & _ & Hrun);
    [apply unrounded_resolves; lra
     | exact two_vertices_valid | discriminate | lra |].
  exists fuel, (s_frames sK). split; [exact (Hrun fuel (Nat.le_refl fuel))|].
  exact (simulate_frames_shape unrounded fuel None two_vertices [] one_spring
           one_ring two_ends 1 0.01 30 (s_frames sK)
           (Hrun fuel (Nat.le_refl fuel))).
Defined.

(** ** A frame interval shorter than the step *)

Lemma reaches_every_pass_records (fl : R -> R) (vertices : array)
    (triangles : list triangle)
    (springs : list spring) (ring_indices : list (list nat))
    (end_vertices : list nat * list nat) (mass : list R)
    (t_end dt frame_dt : R) (k : nat) (s : state) :
  rounds fl -> frame_dt <= dt ->
  reaches fl triangles springs ring_indices end_vertices vertices mass
    t_end dt frame_dt (initial_state vertices) k s ->
  s_t s = accumulated fl dt k /\ s_next_frame_time s <= s_t s /\
  length (s_frames s) = k.
Proof.
  intros (Hmono & _) Hle Hr.
  induction Hr as [|k s s' Hr (Ht & Hnext & Hlen) _ Hbody].
  - cbn [initial_state s_t s_next_frame_time s_frames length accumulated].
    repeat split; lra.
  - apply body_Ok in Hbody
      as (positions & velocities & _ & Ht' & _ & _
          & [(_ & Hnext' & Hframes)|(Hlt & _)]); [|lra].
    rewrite Ht', Hnext', Hframes, length_app, Hlen. cbn [length accumulated].
    split; [by rewrite Ht|]. split; [apply Hmono; lra | lia].
Qed.

(** X13: when the frame interval, the float [1.0/fps], is no longer than
    the step [dt], every pass of the loop records a frame.  With the time
    accumulated in floats ([T_k] is [dt] added [k] times to [0.0]), an
    uninterrupted run on a mesh that indexes into [vertices], with a step
    that the floats below [t_end + dt] resolve, returns as many frames as it
    makes passes: frame [k] is recorded by pass [k], which starts at time
    [T_k < t_end], and the number [n] of frames is the least with
    [t_end <= T_n], whatever the frame rate.  Where the sums [k * dt] below
    [t_end] are floats, that is the least [n] with [t_end <= n * dt]. *)
Theorem one_frame_per_pass (fl : R -> R) (vertices : array)
    (triangles : list triangle)
    (springs : list spring) (ring_indices : list (list nat))
    (end_vertices : list nat * list nat) (t_end dt fps : R) :
  rounds fl -> resolves fl t_end dt ->
  valid_mesh (length vertices) triangles springs ring_indices end_vertices ->
  vertices <> [] -> fps <> 0 -> fl (1.0 / fps) <= dt ->
  let mass := repeat (shell_mass / INR (length vertices)) (length vertices) in
  let recorded :=
    recorded_at fl vertices triangles springs ring_indices end_vertices mass
      t_end dt (fl (1.0 / fps)) in
  let time := accumulated fl dt in
  exists (fuel : nat) (frames : list array),
    (forall fuel', (fuel <= fuel')%nat ->
       simulate fl fuel' None vertices triangles springs ring_indices
         end_vertices t_end dt fps = Some (Ok frames)) /\
    t_end <= time (length frames) /\
    (forall k frame, frames !! k = Some frame ->
       recorded k frame k (time k) /\ time k < t_end) /\
    (exact_on_grid fl dt t_end ->
     t_end <= INR (length frames) * dt /\
     (frames = [] \/ (INR (length frames) - 1) * dt < t_end)).
Proof.
  intros Hfl Hres Hmesh Hn Hfps Hfast mass recorded time.
  destruct (simulate_returns fl vertices triangles springs ring_indices
              end_vertices t_end dt fps Hres Hmesh Hn Hfps)
    as (K & sK & Hr & Hstop & Hrun).
  fold mass in Hr.
  exists K, (s_frames sK). split; [exact Hrun|].
  destruct (reaches_every_pass_records fl _ _ _ _ _ _ _ _ _ _ _ Hfl Hfast Hr)
    as (Ht & _ & Hlen).
  split; [|split].
  - rewrite Hlen. fold time in Ht. lra.
  - intros k frame Hk.
    destruct (frames_recorded_at fl vertices triangles springs ring_indices
                end_vertices mass t_end dt (fl (1.0 / fps)) K sK Hr k frame Hk)
      as (k' & t_k & _ & Hrec).
    destruct Hrec as (s & s' & Hrs & Hg & Hb & Hl & Hf & ->).
    destruct (reaches_every_pass_records fl _ _ _ _ _ _ _ _ _ _ _ Hfl Hfast Hrs)
      as (Hts & _ & Hls).
    assert (k' = k) as -> by congruence.
    fold time in Hts. rewrite <- Hts. split; [|exact Hg].
    exists s, s'. by repeat split.
  - intros Hgrid.
    destruct (reaches_time fl _ _ _ _ _ _ _ _ _ Hgrid K sK Hr) as (HtK & Hlast).
    rewrite Hlen. split; [lra|].
    destruct Hlast as [->|Hlast].
    + left. by apply nil_length_inv.
    + right. lra.
Qed.

Lemma one_frame_per_pass_witness :
  exists (fuel : nat) (frames : list array),
    simulate unrounded fuel None two_vertices [] one_spring one_ring two_ends
      1 0.25 8 = Some (Ok frames) /\
    length frames = 4%nat.
Proof.
  destruct (one_frame_per_pass unrounded two_vertices [] one_spring one_ring
              two_ends 1 0.25 8) as (fuel & frames & Hrun & _ & _ & Hexact).
  - exact unrounded_rounds.
  - apply unrounded_resolves. lra.
  - exact two_vertices_valid.
  - discriminate.
  - lra.
  - unfold unrounded. lra.
  - exists fuel, frames. split; [exact (Hrun fuel (Nat.le_refl fuel))|].
    destruct (Hexact (unrounded_exact_on_grid _ _)) as [Hhi Hlo].
    destruct Hlo as [->|Hlo]; [simpl in Hhi; lra|].
    assert (H1 : (3 < length frames)%nat).
    { apply INR_lt. simpl. lra. }
    assert (H2 : (length frames < 5)%nat).
    { apply INR_lt. simpl. lra. }
    lia.
Defined.

(** ** Indices outside the arrays *)

Lemma compute_spring_forces_check dv (vertices : array) (springs : list spring) :
  (forall s, s ∈ springs ->
     (spring_i s < length vertices)%nat /\ (spring_j s < length vertices)%nat) \/
  compute_spring_forces dv vertices springs = Raise IndexError.
Proof.
  unfold compute_spring_forces. cbv zeta.
  generalize (zeros_like_length vertices).
  generalize (zeros_like vertices) as acc.
  induction springs as [|s springs IH]; intros acc Hacc.
  - left. intros s Hs. by apply elem_of_nil in Hs.
  - destruct (decide ((spring_i s < length vertices)%nat /\
                      (spring_j s < length vertices)%nat)) as [[Hi Hj]|Hout].
    + destruct (spring_step_total dv vertices acc s Hacc Hi Hj) as [acc' Hstep].
      cbn [foldM]. rewrite Hstep. cbn [rbind].
      destruct (IH acc') as [Hall|Hraise].
      * apply spring_step_length in Hstep. congruence.
      * left. intros s' Hs'. apply elem_of_cons in Hs' as [->|Hs']; auto.
      * by right.
    + right. cbn [foldM].
      by rewrite (spring_step_out_of_range dv vertices acc s Hout).
Qed.

Lemma pressure_step_out_of_range dv (vertices forces : array) (pressure : R)
    (t0 t1 t2 : nat) :
  ~ ((t0 < length vertices)%nat /\ (t1 < length vertices)%nat /\
     (t2 < length vertices)%nat) ->
  pressure_step dv vertices pressure forces (t0, t1, t2) = Raise IndexError.
Proof.
  intros Hout. unfold pressure_step.
  destruct (le_lt_dec (length vertices) t0) as [H0|H0];
    [by rewrite (get_ge vertices t0 H0)|].
  destruct (get_lt vertices t0 H0) as [v0 ->]. cbn [rbind].
  destruct (le_lt_dec (length vertices) t1) as [H1|H1];
    [by rewrite (get_ge vertices t1 H1)|].
  destruct (get_lt vertices t1 H1) as [v1 ->]. cbn [rbind].
  rewrite (get_ge vertices t2); [reflexivity | lia].
Qed.

Lemma compute_pressure_forces_check dv (vertices : array)
    (triangles : list triangle) (pressure : R) :
  0 < pressure ->
  (forall a b c, (a, b, c) ∈ triangles ->
     (a < length vertices)%nat /\ (b < length vertices)%nat /\
     (c < length vertices)%nat) \/
  compute_pressure_forces dv vertices triangles pressure = Raise IndexError.
Proof.
  intros Hp. unfold compute_pressure_forces. cbv zeta.
  destruct (Rle_dec pressure 0) as [Hle|_]; [lra|].
  generalize (zeros_like_length vertices).
  generalize (zeros_like vertices) as acc.
  induction triangles as [|[[t0 t1] t2] triangles IH]; intros acc Hacc.
  - left. intros a b c H. by apply elem_of_nil in H.
  - destruct (decide ((t0 < length vertices)%nat /\ (t1 < length vertices)%nat /\
                      (t2 < length vertices)%nat)) as [(H0 & H1 & H2)|Hout].
    + destruct (pressure_step_total dv vertices acc pressure t0 t1 t2 Hacc H0 H1 H2)
        as [acc' Hstep].
      cbn [foldM]. rewrite Hstep. cbn [rbind].
      destruct (IH acc') as [Hall|Hraise].
      * apply pressure_step_length in Hstep. congruence.
      * left. intros a b c H. apply elem_of_cons in H as [H|H]; [|by apply Hall].
        by injection H as -> -> ->.
      * by right.
    + right. cbn [foldM].
      by rewrite (pressure_step_out_of_range dv vertices acc pressure t0 t1 t2 Hout).
Qed.

Lemma ring_loop_check dv (vertices velocities original_vertices : array)
    (ring : list nat) (forces : array) :
  length velocities = length vertices ->
  length original_vertices = length vertices ->
  length forces = length vertices ->
  (Forall (fun idx => (idx < length vertices)%nat) ring /\
   exists forces' : array,
     foldM (ring_step dv vertices velocities original_vertices) forces ring
     = Ok forces' /\ length forces' = length vertices) \/
  foldM (ring_step dv vertices velocities original_vertices) forces ring
  = Raise IndexError.
Proof.
  intros Hvel Horig. revert forces.
  induction ring as [|idx ring IH]; intros forces Hforces.
  - left. split; [constructor|]. by exists forces.
  - destruct (le_lt_dec (length vertices) idx) as [Hout|Hin].
    + right. cbn [foldM]. unfold ring_step.
      rewrite (get_ge original_vertices idx); [reflexivity | lia].
    + destruct (ring_step_total dv vertices velocities original_vertices forces idx)
        as [forces1 Hstep]; try lia.
      cbn [foldM]. rewrite Hstep. cbn [rbind].
      apply ring_step_length in Hstep.
      destruct (IH forces1) as [[Hall Hok]|Hraise]; [congruence | left | by right].
      split; [by constructor | exact Hok].
Qed.

Lemma compute_ring_constraints_check dv (vertices velocities : array)
    (ring_indices : list (list nat)) (original_vertices : array) :
  length velocities = length vertices ->
  length original_vertices = length vertices ->
  rings_in_range (length vertices) ring_indices \/
  compute_ring_constraints dv vertices velocities ring_indices original_vertices
  = Raise IndexError.
Proof.
  intros Hvel Horig. unfold compute_ring_constraints, rings_in_range. cbv zeta.
  generalize (zeros_like_length vertices).
  generalize (zeros_like vertices) as acc.
  induction ring_indices as [|ring rings IH]; intros acc Hacc.
  - left. constructor.
  - cbn [foldM].
    destruct (ring_loop_check dv vertices velocities original_vertices ring acc
                Hvel Horig Hacc) as [(Hring & acc' & -> & Hacc') | -> ];
      [|by right].
    cbn [rbind]. destruct (IH acc' Hacc') as [Hall|Hraise]; [left | by right].
    by constructor.
Qed.

Lemma apply_external_load_check (forces : array)
    (end_vertices : list nat * list nat) (load : R) :
  end_vertices.1 <> [] ->
  (forall idx, idx ∈ end_vertices.1 ++ end_vertices.2 ->
     (idx < length forces)%nat) \/
  apply_external_load forces end_vertices load = Raise IndexError.
Proof.
  destruct end_vertices as [g0 g1]. cbn [fst snd]. intros Hne.
  assert (Hn : length g0 <> 0%nat) by (by destruct g0).
  unfold apply_external_load. cbn [fst snd].
  destruct (load_loop_check Rminus load (length g0) g1 forces Hn)
    as [Hall1|[_ ->]]; [|by right].
  destruct (load_loop_spec Rminus load (length g0) g1 forces Hall1)
    as (forces1 & -> & Hlen1 & _); [by left|]. cbn [rbind].
  destruct (load_loop_check Rplus load (length g0) g0 forces1 Hn)
    as [Hall0|[_ ->]]; [|by right].
  left. intros idx Hidx.
  apply elem_of_app in Hidx as [Hidx|Hidx]; [|by apply Hall1].
  rewrite <- Hlen1. by apply Hall0.
Qed.

Lemma pressure_at_start : pressure_at_time 0.0 = PRESSURE_AMPLITUDE.
Proof.
  replace 0.0 with 0 by lra. apply pressure_at_time_samples.
Qed.

(** X14: [simulate] does not validate the mesh, the first pass does.  In
    a run that enters the loop, with a first end group that is not empty and
    indices that are not negative, any spring, triangle, ring or end index at
    or above the number of rows of [vertices] ends the call with
    [IndexError] in the first pass (the pressure is on at [t = 0], so the
    triangles are read).  (An index below zero is outside the
    embedding.) *)
Theorem simulate_index_error_in_first_pass (fl : R -> R)
    (fuel : nat) (vertices : array)
    (triangles : list triangle) (springs : list spring)
    (ring_indices : list (list nat)) (end_vertices : list nat * list nat)
    (t_end dt fps : R) :
  vertices <> [] -> fps <> 0 -> dt <> 0 -> 0 < t_end ->
  end_vertices.1 <> [] ->
  ~ valid_mesh (length vertices) triangles springs ring_indices end_vertices ->
  simulate fl (S fuel) None vertices triangles springs ring_indices end_vertices
    t_end dt fps = Some (Raise IndexError).
Proof.
  intros Hn Hfps Hdt Hend Hg0 Hinvalid. unfold simulate.
  rewrite (prelude_Ok fl vertices t_end dt fps Hn Hfps Hdt).
  cbn [loop initial_state s_t].
  destruct (Rlt_dec 0.0 t_end) as [_|Hge]; [|lra].
  assert (Hforce :
    net_force triangles springs ring_indices end_vertices vertices
      vertices (zeros_like vertices) 0.0 = Raise IndexError).
  { unfold net_force. cbv zeta. rewrite pressure_at_start.
    destruct (compute_spring_forces_check Rdiv vertices springs)
      as [Hsprings| ->]; [|reflexivity].
    destruct (compute_spring_forces_total Rdiv vertices springs Hsprings)
      as [spring_forces Hsf].
    rewrite Hsf. cbn [rbind].
    apply compute_spring_forces_length in Hsf.
    destruct (compute_pressure_forces_check Rdiv vertices triangles
                PRESSURE_AMPLITUDE) as [Htriangles| ->];
      [unfold PRESSURE_AMPLITUDE; lra | | reflexivity].
    destruct (compute_pressure_forces_total Rdiv vertices triangles
                PRESSURE_AMPLITUDE Htriangles) as [pressure_forces Hpf].
    rewrite Hpf. cbn [rbind].
    apply compute_pressure_forces_length in Hpf.
    set (forces := arr_add (arr_add (zeros_like vertices) spring_forces)
                     pressure_forces).
    assert (Hlen : length forces = length vertices).
    { unfold forces. rewrite !arr_add_length; rewrite ?arr_add_length;
        rewrite ?zeros_like_length; congruence. }
    destruct (apply_external_load_check forces end_vertices EXTERNAL_LOAD Hg0)
      as [Hends| ->]; [|reflexivity].
    destruct (apply_external_load_rows forces end_vertices.1 end_vertices.2
                EXTERNAL_LOAD Hends) as (forces1 & Hload & _); [by left|].
    destruct end_vertices as [g0 g1]. cbn [fst snd] in *.
    rewrite Hload. cbn [rbind].
    destruct (compute_ring_constraints_check Rdiv vertices (zeros_like vertices)
                ring_indices vertices) as [Hrings| ->];
      [apply zeros_like_length | reflexivity | | reflexivity].
    exfalso. apply Hinvalid. unfold valid_mesh. cbn [fst snd].
    rewrite Hlen in Hends.
    split; [exact Htriangles|]. split; [exact Hsprings|].
    split; [exact Hrings|]. split; [exact Hends|]. by left. }
  unfold body, integrate. cbn [initial_state s_positions s_velocities s_t].
  by rewrite Hforce.
Qed.

Lemma simulate_index_error_in_first_pass_witness :
  simulate unrounded 1 None two_vertices [(0, 1, 2)%nat] one_spring one_ring two_ends
    1 DT 30 = Some (Raise IndexError).
Proof.
  apply (simulate_index_error_in_first_pass unrounded);
    try (discriminate || lra || (unfold DT; lra)).
  intros (Htri & _). specialize (Htri 0%nat 1%nat 2%nat).
  cbn [two_vertices length] in Htri.
  assert (H : (2 < 2)%nat) by (apply Htri; left). lia.
Defined.

(** * The mesh provider *)

(** ** Loops over [range(n)] that fill an array *)

Lemma foldM_seq_invariant {B : Type} (I : nat -> B -> Prop)
    (f : B -> nat -> result B) (n s : nat) (acc : B) :
  I s acc ->
  (forall k b, (s <= k < s + n)%nat -> I k b ->
     exists b', f b k = Ok b' /\ I (S k) b') ->
  exists r, foldM f acc (seq s n) = Ok r /\ I (s + n)%nat r.
Proof.
  revert s acc. induction n as [|n IH]; intros s acc Hacc Hstep.
  - exists acc. rewrite Nat.add_0_r. by split.
  - destruct (Hstep s acc) as (b' & Hf & Hb'); [lia | exact Hacc |].
    destruct (IH (S s) b' Hb') as (r & Hr & HI).
    { intros k b Hk. apply Hstep. lia. }
    exists r. cbn [seq foldM]. rewrite Hf. cbn [rbind].
    split; [exact Hr|]. by replace (s + S n)%nat with (S s + n)%nat by lia.
Qed.

Lemma modify_Ok {A : Type} (a : list A) (i : nat) (f : A -> A) (x : A) :
  a !! i = Some x -> modify a i f = Ok (<[i := f x]> a).
Proof. intros H. unfold modify, get. by rewrite H. Qed.

Lemma update_at_value (a : array) (i : nat) (f : vec3 -> vec3) (x : vec3) :
  a !! i = Some x -> update_at a i f = Ok (<[i := f x]> a).
Proof. intros H. unfold update_at, get. by rewrite H. Qed.

Lemma place_vertex_Ok (radius z : R) (n_circ i j : nat) (vertices : array) :
  (i * n_circ + j < length vertices)%nat ->
  place_vertex radius z n_circ i vertices j
  = Ok (<[(i * n_circ + j)%nat :=
           V3 (radius * cos (2 * PI * INR j / INR n_circ))
              (radius * sin (2 * PI * INR j / INR n_circ)) z]> vertices).
Proof.
  intros Hidx. destruct (lookup_lt_is_Some_2 vertices _ Hidx) as [v Hv].
  unfold place_vertex. cbv zeta.
  rewrite (update_at_value _ _ _ v Hv). cbn [rbind].
  erewrite update_at_value by (by apply list_lookup_insert_eq). cbn [rbind].
  erewrite update_at_value
    by (apply list_lookup_insert_eq; by rewrite length_insert).
  cbn [vx vy vz]. by rewrite !list_insert_insert_eq.
Qed.

Lemma row_index_lt (n_circ n_axial i j : nat) :
  (i < n_axial)%nat -> (j < n_circ)%nat -> (i * n_circ + j < n_circ * n_axial)%nat.
Proof. intros Hi Hj. nia. Qed.

Lemma row_index_below (n_circ i j i' j' : nat) :
  (i' < i)%nat -> (j' < n_circ)%nat ->
  (i' * n_circ + j' < i * n_circ + j)%nat.
Proof.
  intros Hi Hj.
  assert (H : ((i' + 1) * n_circ <= i * n_circ)%nat)
    by (apply Nat.mul_le_mono_r; lia).
  lia.
Qed.

Lemma row_index_inj (n_circ i j i' j' : nat) :
  (j < n_circ)%nat -> (j' < n_circ)%nat ->
  (i * n_circ + j = i' * n_circ + j')%nat -> i = i' /\ j = j'.
Proof.
  intros Hj Hj' Heq.
  destruct (lt_eq_lt_dec i i') as [[H|H]|H].
  - pose proof (row_index_below n_circ i' j' i j H Hj). lia.
  - subst i'. split; lia.
  - pose proof (row_index_below n_circ i j i' j' H Hj'). lia.
Qed.

(** The rows of the array left by the loop that places the vertices. *)
Lemma place_rows_spec (n_circ n_axial : nat) (length radius : R) :
  n_axial <> 1%nat ->
  exists vertices : array,
    foldM (place_row length radius n_circ n_axial)
          (repeat vzero (n_circ * n_axial)) (seq 0 n_axial) = Ok vertices /\
    List.length vertices = (n_circ * n_axial)%nat /\
    forall i j, (i < n_axial)%nat -> (j < n_circ)%nat ->
      vertices !! (i * n_circ + j)%nat
      = Some (cylinder_vertex n_circ n_axial length radius i j).
Proof.
  intros Hn.
  assert (Hden : IZR (Z.of_nat n_axial - 1) <> 0).
  { apply not_0_IZR. lia. }
  destruct (foldM_seq_invariant
              (fun i (vertices : array) =>
                 List.length vertices = (n_circ * n_axial)%nat /\
                 forall i' j, (i' < i)%nat -> (j < n_circ)%nat ->
                   vertices !! (i' * n_circ + j)%nat
                   = Some (cylinder_vertex n_circ n_axial length radius i' j))
              (place_row length radius n_circ n_axial) n_axial 0
              (repeat vzero (n_circ * n_axial)))
    as (vertices & Hfold & Hlen & Hrows).
  { split; [apply repeat_length|]. intros i' j Hi'. lia. }
  { intros i vertices Hi [Hlen Hrows]. unfold place_row.
    rewrite py_div_Ok by exact Hden. cbn [rbind].
    destruct (foldM_seq_invariant
                (fun j (vertices : array) =>
                   List.length vertices = (n_circ * n_axial)%nat /\
                   (forall i' j', (i' < i)%nat -> (j' < n_circ)%nat ->
                      vertices !! (i' * n_circ + j')%nat
                      = Some (cylinder_vertex n_circ n_axial length radius i' j')) /\
                   (forall j', (j' < j)%nat -> (j' < n_circ)%nat ->
                      vertices !! (i * n_circ + j')%nat
                      = Some (cylinder_vertex n_circ n_axial length radius i j')))
                (place_vertex radius (length * INR i / IZR (Z.of_nat n_axial - 1))
                   n_circ i) n_circ 0 vertices)
      as (vertices' & Hfold' & Hlen' & Hbelow & Hrow).
    { split; [exact Hlen|]. split; [exact Hrows|]. intros j' Hj'. lia. }
    { intros j b Hj (Hb & Hbelow & Hrow).
      rewrite place_vertex_Ok by (rewrite Hb; apply row_index_lt; lia).
      eexists. split; [reflexivity|]. rewrite length_insert.
      split; [exact Hb|]. split.
      - intros i' j' Hi' Hj'.
        pose proof (row_index_below n_circ i j i' j' Hi' Hj').
        rewrite list_lookup_insert_ne by lia. by apply Hbelow.
      - intros j' Hj' Hjn. destruct (decide (j' = j)) as [->|Hne].
        + rewrite list_lookup_insert_eq by (rewrite Hb; apply row_index_lt; lia).
          reflexivity.
        + rewrite list_lookup_insert_ne by lia. apply Hrow; lia. }
    exists vertices'. split; [exact Hfold'|]. split; [exact Hlen'|].
    intros i' j Hi' Hj. destruct (decide (i' = i)) as [->|Hne].
    - apply Hrow; lia.
    - apply Hbelow; lia. }
  exists vertices. split; [exact Hfold|]. split; [exact Hlen|].
  intros i j Hi Hj. by apply Hrows.
Qed.

Lemma place_rows_one_row (n_circ : nat) (length radius : R) (vertices : array) :
  foldM (place_row length radius n_circ 1) vertices (seq 0 1)
  = Raise ZeroDivisionError.
Proof.
  cbn [seq foldM]. unfold place_row.
  change (IZR (Z.of_nat 1 - 1)) with 0. by rewrite py_div_zero.
Qed.

Lemma quad_Ok (n_circ i j t : nat) (triangles : list triangle) :
  (t + 1 < List.length triangles)%nat ->
  quad n_circ i (triangles, t) j
  = Ok (<[(t + 1)%nat := upper_triangle n_circ i j]>
          (<[t := lower_triangle n_circ i j]> triangles), (t + 1 + 1)%nat).
Proof.
  intros Ht.
  destruct (lookup_lt_is_Some_2 triangles t) as [r0 Hr0]; [lia|].
  destruct (lookup_lt_is_Some_2 triangles (t + 1)) as [r1 Hr1]; [lia|].
  unfold quad. cbv zeta.
  rewrite (modify_Ok _ _ _ r0 Hr0). cbn [rbind].
  erewrite modify_Ok by (apply list_lookup_insert_eq; lia). cbn [rbind].
  erewrite modify_Ok
    by (apply list_lookup_insert_eq; rewrite length_insert; lia).
  cbn [rbind fst snd]. rewrite !list_insert_insert_eq.
  erewrite modify_Ok by (rewrite list_lookup_insert_ne by lia; exact Hr1).
  cbn [rbind].
  erewrite modify_Ok
    by (apply list_lookup_insert_eq; rewrite length_insert; lia).
  cbn [rbind].
  erewrite modify_Ok
    by (apply list_lookup_insert_eq; rewrite !length_insert; lia).
  cbn [rbind fst snd]. by rewrite !list_insert_insert_eq.
Qed.

(** The rows of the array left by the loop that fills [triangles]. *)
Lemma quads_spec (n_circ n_axial : nat) :
  exists (triangles : list triangle) (t : nat),
    foldM (fun st i => foldM (quad n_circ i) st (seq 0 n_circ))
          (repeat (0, 0, 0)%nat (2 * n_circ * (n_axial - 1)), 0%nat)
          (seq 0 (n_axial - 1)) = Ok (triangles, t) /\
    List.length triangles = (2 * n_circ * (n_axial - 1))%nat /\
    forall i j, (i < n_axial - 1)%nat -> (j < n_circ)%nat ->
      triangles !! (2 * (i * n_circ + j))%nat = Some (lower_triangle n_circ i j) /\
      triangles !! (2 * (i * n_circ + j) + 1)%nat
      = Some (upper_triangle n_circ i j).
Proof.
  set (N := (2 * n_circ * (n_axial - 1))%nat).
  set (filled := fun (triangles : list triangle) (i j : nat) =>
         triangles !! (2 * (i * n_circ + j))%nat
         = Some (lower_triangle n_circ i j) /\
         triangles !! (2 * (i * n_circ + j) + 1)%nat
         = Some (upper_triangle n_circ i j)).
  destruct (foldM_seq_invariant
              (fun i (st : list triangle * nat) =>
                 st.2 = (2 * (i * n_circ))%nat /\ List.length st.1 = N /\
                 forall i' j, (i' < i)%nat -> (j < n_circ)%nat -> filled st.1 i' j)
              (fun st i => foldM (quad n_circ i) st (seq 0 n_circ))
              (n_axial - 1) 0 (repeat (0, 0, 0)%nat N, 0%nat))
    as ([triangles t] & Hfold & _ & Hlen & Hrows).
  { cbn [fst snd]. split; [lia|]. split; [apply repeat_length|].
    intros i' j Hi'. lia. }
  { intros i [triangles t] Hi (Ht & Hlen & Hrows). cbn [fst snd] in *.
    destruct (foldM_seq_invariant
                (fun j (st : list triangle * nat) =>
                   st.2 = (2 * (i * n_circ + j))%nat /\ List.length st.1 = N /\
                   (forall i' j', (i' < i)%nat -> (j' < n_circ)%nat ->
                      filled st.1 i' j') /\
                   (forall j', (j' < j)%nat -> (j' < n_circ)%nat ->
                      filled st.1 i j'))
                (quad n_circ i) n_circ 0 (triangles, t))
      as ([triangles' t'] & Hfold' & Ht' & Hlen' & Hbelow & Hrow).
    { cbn [fst snd]. split; [lia|]. split; [exact Hlen|].
      split; [exact Hrows|]. intros j' Hj'. lia. }
    { intros j [b tb] Hj (Htb & Hb & Hbelow & Hrow). cbn [fst snd] in *.
      assert (Hin : (tb + 1 < List.length b)%nat).
      { rewrite Hb, Htb. unfold N. nia. }
      rewrite quad_Ok by exact Hin.
      eexists. split; [reflexivity|]. cbn [fst snd].
      rewrite !length_insert. split; [lia|]. split; [exact Hb|]. split.
      - intros i' j' Hi' Hj'. unfold filled.
        pose proof (row_index_below n_circ i j i' j' Hi' Hj').
        rewrite !list_lookup_insert_ne by lia. by apply Hbelow.
      - intros j' Hj' Hjn. unfold filled.
        destruct (decide (j' = j)) as [->|Hne].
        + rewrite <- Htb. split.
          * rewrite list_lookup_insert_ne by lia.
            by rewrite list_lookup_insert_eq by lia.
          * by rewrite list_lookup_insert_eq by (rewrite length_insert; lia).
        + rewrite !list_lookup_insert_ne by lia. apply Hrow; lia. }
    exists (triangles', t'). split; [exact Hfold'|]. cbn [fst snd] in *.
    split; [lia|]. split; [exact Hlen'|].
    intros i' j Hi' Hj. destruct (decide (i' = i)) as [->|Hne].
    - apply Hrow; lia.
    - apply Hbelow; lia. }
  exists triangles, t. split; [exact Hfold|]. cbn [fst snd] in *.
  split; [exact Hlen|]. intros i j Hi Hj. apply Hrows; lia.
Qed.

(** ** The call as a whole *)

Lemma n_triangles_nat (n_circ n_axial : nat) :
  n_axial <> 1%nat -> (n_axial = 0%nat -> n_circ = 0%nat) ->
  (2 * Z.of_nat n_circ * (Z.of_nat n_axial - 1))%Z
  = Z.of_nat (2 * n_circ * (n_axial - 1)).
Proof.
  intros H1 H0. destruct n_axial as [|n].
  - rewrite (H0 eq_refl). reflexivity.
  - rewrite !Nat2Z.inj_mul, Nat2Z.inj_sub by lia. reflexivity.
Qed.

Lemma ring_rows_total (n_circ n_axial : nat) (length : R) (rings : list nat) :
  length <> 0 ->
  exists ring_indices, mapM (ring_row length n_circ n_axial) rings = Ok ring_indices.
Proof.
  intros Hlen. apply mapM_total. intros ring _. unfold ring_row.
  rewrite py_div_Ok by exact Hlen. cbn [rbind]. eauto.
Qed.

Lemma n_rings_zero_length : n_rings 0 = 1%Z.
Proof.
  unfold n_rings, py_int. replace (0 / RING_SPACING) with 0
    by (unfold RING_SPACING; lra).
  destruct (Rle_dec 0 0) as [_|H]; [|lra]. by rewrite (ZfloorZ 0).
Qed.

(** The four ways a call of [generate_cylinder] ends, and what it returns
    when it returns. *)
Lemma generate_cylinder_cases (n_circ n_axial : nat) (length radius : R) :
  (n_axial = 1%nat /\
   generate_cylinder n_circ n_axial length radius
   = Fails (Builtin ZeroDivisionError)) \/
  (n_axial = 0%nat /\ (0 < n_circ)%nat /\
   generate_cylinder n_circ n_axial length radius = Fails ValueError) \/
  (n_axial <> 1%nat /\ (n_axial = 0%nat -> n_circ = 0%nat) /\ length = 0 /\
   generate_cylinder n_circ n_axial length radius
   = Fails (Builtin ZeroDivisionError)) \/
  (n_axial <> 1%nat /\ (n_axial = 0%nat -> n_circ = 0%nat) /\ length <> 0 /\
   exists m : mesh,
     generate_cylinder n_circ n_axial length radius = Returns m /\
     generated n_circ n_axial length radius m).
Proof.
  destruct (decide (n_axial = 1%nat)) as [->|H1].
  { left. split; [reflexivity|]. unfold generate_cylinder. cbv zeta.
    by rewrite place_rows_one_row. }
  right.
  destruct (place_rows_spec n_circ n_axial length radius H1)
    as (vertices & Hplace & Hlen & Hrows).
  unfold generate_cylinder. cbv zeta. rewrite Hplace.
  destruct (decide (n_axial = 0%nat /\ (0 < n_circ)%nat)) as [[-> Hc]|H0].
  { left. split; [reflexivity|]. split; [exact Hc|].
    destruct (Z.ltb_spec (2 * Z.of_nat n_circ * (Z.of_nat 0 - 1)) 0)
      as [_|Hge]; [reflexivity | lia]. }
  right.
  assert (H0' : n_axial = 0%nat -> n_circ = 0%nat) by lia.
  rewrite (n_triangles_nat n_circ n_axial H1 H0'), Nat2Z.id.
  destruct (Z.ltb_spec (Z.of_nat (2 * n_circ * (n_axial - 1))) 0)
    as [Hlt|_]; [lia|].
  destruct (quads_spec n_circ n_axial) as (triangles & t & -> & Htlen & Htris).
  fold (n_rings length).
  destruct (Req_EM_T length 0) as [->|Hlength].
  - left. split; [exact H1|]. split; [exact H0'|]. split; [reflexivity|].
    rewrite n_rings_zero_length. change (Z.to_nat 1) with 1%nat.
    cbn [seq mapM].
    unfold ring_row at 1. by rewrite py_div_zero.
  - right. split; [exact H1|]. split; [exact H0'|]. split; [exact Hlength|].
    destruct (ring_rows_total n_circ n_axial length
                (seq 0 (Z.to_nat (n_rings length))) Hlength)
      as [ring_indices Hrings].
    rewrite Hrings. eexists. split; [reflexivity|].
    unfold generated. split; [exact Hlen|]. split; [exact Hrows|].
    split; [exact Htlen|]. split; [exact Htris|].
    split; [by apply mapM_Ok | reflexivity].
Qed.

Lemma generate_cylinder_inv (n_circ n_axial : nat) (length radius : R) (m : mesh) :
  generate_cylinder n_circ n_axial length radius = Returns m ->
  n_axial <> 1%nat /\ (n_axial = 0%nat -> n_circ = 0%nat) /\ length <> 0 /\
  generated n_circ n_axial length radius m.
Proof.
  intros Hm.
  destruct (generate_cylinder_cases n_circ n_axial length radius)
    as [[_ H]|[(_ & _ & H)|[(_ & _ & _ & H)|(H1 & H0 & Hl & m' & H & Hgen)]]];
    rewrite H in Hm; try discriminate.
  injection Hm as <-. auto.
Qed.

Lemma generate_cylinder_total (n_circ n_axial : nat) (length radius : R) :
  (2 <= n_axial)%nat -> length <> 0 ->
  exists m : mesh,
    generate_cylinder n_circ n_axial length radius = Returns m /\
    generated n_circ n_axial length radius m.
Proof.
  intros Hn Hl.
  destruct (generate_cylinder_cases n_circ n_axial length radius)
    as [[? _]|[(? & _)|[(_ & _ & ? & _)|(_ & _ & _ & H)]]];
    [lia | lia | done | exact H].
Qed.

(** X15: how a call of [generate_cylinder] ends.  One axial row divides
    by [n_axial - 1 = 0] and raises [ZeroDivisionError]; no axial row with a
    positive [n_circ] asks [np.zeros] for a negative number of triangles and
    raises [ValueError]; otherwise a length of zero raises
    [ZeroDivisionError] at the first ring, and any other length returns a
    mesh of [n_circ * n_axial] vertices.  No call ends with [IndexError]:
    every write of the loops is inside its array. *)
Theorem generate_cylinder_outcomes (n_circ n_axial : nat) (length radius : R) :
  if decide (n_axial = 1%nat)
  then generate_cylinder n_circ n_axial length radius
       = Fails (Builtin ZeroDivisionError)
  else if decide (n_axial = 0%nat /\ (0 < n_circ)%nat)
  then generate_cylinder n_circ n_axial length radius = Fails ValueError
  else if Req_EM_T length 0
  then generate_cylinder n_circ n_axial length radius
       = Fails (Builtin ZeroDivisionError)
  else exists m : mesh,
         generate_cylinder n_circ n_axial length radius = Returns m /\
         List.length m.1.1.1 = (n_circ * n_axial)%nat.
Proof.
  destruct (generate_cylinder_cases n_circ n_axial length radius)
    as [[H1 H]|[(H0 & Hc & H)|[(H1 & H0 & Hl & H)|(H1 & H0 & Hl & m & H & Hm)]]].
  - by destruct (decide (n_axial = 1%nat)).
  - destruct (decide (n_axial = 1%nat)); [lia|].
    destruct (decide (n_axial = 0%nat /\ (0 < n_circ)%nat)) as [_|Hn];
      [exact H | tauto].
  - destruct (decide (n_axial = 1%nat)); [done|].
    destruct (decide (n_axial = 0%nat /\ (0 < n_circ)%nat)) as [[? ?]|_];
      [lia|].
    by destruct (Req_EM_T length 0).
  - destruct (decide (n_axial = 1%nat)); [done|].
    destruct (decide (n_axial = 0%nat /\ (0 < n_circ)%nat)) as [[? ?]|_];
      [lia|].
    destruct (Req_EM_T length 0); [done|].
    exists m. split; [exact H|].
    destruct m as [[[vertices triangles] ring_indices] end_vertices].
    by destruct Hm as [Hlen _].
Qed.

(** ** The vertices *)

Lemma IZR_rows (n_axial : nat) : IZR (Z.of_nat n_axial - 1) = INR n_axial - 1.
Proof. by rewrite minus_IZR, <- INR_IZR_INZ. Qed.

Lemma row_index_split (n_circ rows k : nat) :
  (k < n_circ * rows)%nat ->
  exists i j, (i < rows)%nat /\ (j < n_circ)%nat /\ k = (i * n_circ + j)%nat.
Proof.
  intros Hk. assert (Hn : n_circ <> 0%nat) by (intros ->; lia).
  exists (k / n_circ)%nat, (k mod n_circ)%nat. split; [|split].
  - by apply Nat.Div0.div_lt_upper_bound.
  - by apply Nat.mod_upper_bound.
  - rewrite (Nat.div_mod_eq k n_circ) at 1. lia.
Qed.

Lemma generated_vertex_cases (n_circ n_axial : nat) (length radius : R)
    (vertices : array) (v : vec3) :
  List.length vertices = (n_circ * n_axial)%nat ->
  (forall i j, (i < n_axial)%nat -> (j < n_circ)%nat ->
     vertices !! (i * n_circ + j)%nat
     = Some (cylinder_vertex n_circ n_axial length radius i j)) ->
  v ∈ vertices ->
  exists i j, (i < n_axial)%nat /\ (j < n_circ)%nat /\
    v = cylinder_vertex n_circ n_axial length radius i j.
Proof.
  intros Hlen Hrows Hv. apply list_elem_of_lookup in Hv as [k Hk].
  pose proof (lookup_lt_Some _ _ _ Hk) as Hlt. rewrite Hlen in Hlt.
  destruct (row_index_split n_circ n_axial k Hlt) as (i & j & Hi & Hj & ->).
  exists i, j. split; [exact Hi|]. split; [exact Hj|].
  rewrite (Hrows i j Hi Hj) in Hk. by injection Hk.
Qed.

(** X16: the vertices of a mesh that [generate_cylinder] returns.  There
    are [n_circ * n_axial] of them, vertex [j] of row [i] is row
    [i * n_circ + j] of the array and lies at the angle [2 pi j / n_circ] and
    the height [length * i / (n_axial - 1)]; every vertex is at the distance
    [|radius|] from the axis, and for a positive length at a height between
    0 and [length], the first row at 0 and the last row at [length]. *)
Theorem cylinder_vertices_on_the_cylinder (n_circ n_axial : nat)
    (length radius : R) (vertices : array) (triangles : list triangle)
    (ring_indices : list (list nat)) (end_vertices : list nat * list nat) :
  generate_cylinder n_circ n_axial length radius
  = Returns (vertices, triangles, ring_indices, end_vertices) ->
  List.length vertices = (n_circ * n_axial)%nat /\
  (forall i j, (i < n_axial)%nat -> (j < n_circ)%nat ->
     vertices !! (i * n_circ + j)%nat
     = Some (cylinder_vertex n_circ n_axial length radius i j)) /\
  (forall v, v ∈ vertices ->
     norm_xy v = Rabs radius /\ (0 < length -> 0 <= vz v <= length)) /\
  (forall j v, (j < n_circ)%nat ->
     (vertices !! j = Some v -> vz v = 0) /\
     (vertices !! ((n_axial - 1) * n_circ + j)%nat = Some v -> vz v = length)).
Proof.
  intros Hgen.
  apply generate_cylinder_inv in Hgen as (H1 & H0 & Hl & Hlen & Hrows & _).
  split; [exact Hlen|]. split; [exact Hrows|]. split.
  - intros v Hv.
    destruct (generated_vertex_cases _ _ _ _ _ _ Hlen Hrows Hv)
      as (i & j & Hi & Hj & ->).
    unfold cylinder_vertex, norm_xy. cbn [vx vy vz]. split.
    + set (theta := 2 * PI * INR j / INR n_circ).
      replace (radius * cos theta * (radius * cos theta)
               + radius * sin theta * (radius * sin theta))
        with (Rsqr radius * (Rsqr (sin theta) + Rsqr (cos theta)))
        by (unfold Rsqr; ring).
      rewrite sin2_cos2, Rmult_1_r. apply sqrt_Rsqr_abs.
    + intros Hpos. rewrite IZR_rows.
      assert (Hrow : 0 <= INR i <= INR n_axial - 1).
      { split; [apply pos_INR|].
        assert (H : INR (i + 1) <= INR n_axial) by (apply le_INR; lia).
        rewrite plus_INR in H. simpl in H. lra. }
      assert (Hden : 0 < INR n_axial - 1).
      { assert (H : INR 2 <= INR n_axial) by (apply le_INR; lia).
        simpl in H. lra. }
      assert (Hu : 0 <= INR i / (INR n_axial - 1) <= 1).
      { split.
        - apply Rmult_le_pos; [lra|]. left. by apply Rinv_0_lt_compat.
        - apply (Rmult_le_reg_r (INR n_axial - 1)); [exact Hden|].
          unfold Rdiv. rewrite Rmult_assoc, Rinv_l by lra. lra. }
      replace (length * INR i / (INR n_axial - 1))
        with (length * (INR i / (INR n_axial - 1))) by (unfold Rdiv; ring).
      nra.
  - intros j v Hj.
    assert (Hn : (2 <= n_axial)%nat) by lia.
    split; intros Hv.
    + replace j with (0 * n_circ + j)%nat in Hv by lia.
      rewrite (Hrows 0%nat j) in Hv by lia. injection Hv as <-.
      unfold cylinder_vertex. cbn [vz INR]. unfold Rdiv. ring.
    + rewrite (Hrows (n_axial - 1)%nat j) in Hv by lia. injection Hv as <-.
      unfold cylinder_vertex. cbn [vz]. rewrite IZR_rows, minus_INR by lia.
      cbn [INR]. field.
      assert (H : INR 2 <= INR n_axial) by (apply le_INR; lia).
      simpl in H. lra.
Qed.

Lemma cylinder_vertices_on_the_cylinder_witness :
  exists m : mesh,
    generate_cylinder 3 2 TUBE_LENGTH TUBE_RADIUS = Returns m /\
    List.length m.1.1.1 = 6%nat /\
    forall v, v ∈ m.1.1.1 -> norm_xy v = Rabs TUBE_RADIUS.
Proof.
  destruct (generate_cylinder_total 3 2 TUBE_LENGTH TUBE_RADIUS)
    as ([[[vertices triangles] ring_indices] end_vertices] & Hgen & _);
    [lia | unfold TUBE_LENGTH; lra |].
  eexists. split; [exact Hgen|].
  destruct (cylinder_vertices_on_the_cylinder _ _ _ _ _ _ _ _ Hgen)
    as (Hlen & _ & Hon & _).
  split; [exact Hlen|]. intros v Hv. by apply Hon.
Defined.

(** ** The triangles *)

Lemma generated_triangle_cases (n_circ n_axial : nat)
    (triangles : list triangle) (tri : triangle) :
  List.length triangles = (2 * n_circ * (n_axial - 1))%nat ->
  (forall i j, (i < n_axial - 1)%nat -> (j < n_circ)%nat ->
     triangles !! (2 * (i * n_circ + j))%nat = Some (lower_triangle n_circ i j) /\
     triangles !! (2 * (i * n_circ + j) + 1)%nat
     = Some (upper_triangle n_circ i j)) ->
  tri ∈ triangles ->
  exists i j, (i < n_axial - 1)%nat /\ (j < n_circ)%nat /\
    (tri = lower_triangle n_circ i j \/ tri = upper_triangle n_circ i j).
Proof.
  intros Hlen Hrows Htri. apply list_elem_of_lookup in Htri as [m Hm].
  pose proof (lookup_lt_Some _ _ _ Hm) as Hlt. rewrite Hlen in Hlt.
  pose proof (Nat.div_mod_eq m 2) as Hdm.
  pose proof (Nat.mod_upper_bound m 2) as Hr.
  destruct (row_index_split n_circ (n_axial - 1) (m / 2)) as (i & j & Hi & Hj & Hq).
  { apply Nat.Div0.div_lt_upper_bound. lia. }
  exists i, j. split; [exact Hi|]. split; [exact Hj|].
  destruct (Hrows i j Hi Hj) as [Hlo Hup]. rewrite <- Hq in Hlo, Hup.
  destruct (decide (m mod 2 = 0)%nat) as [H0|H0].
  - left. replace (2 * (m / 2))%nat with m in Hlo by lia. congruence.
  - right. replace (2 * (m / 2) + 1)%nat with m in Hup by lia. congruence.
Qed.

Lemma next_column_lt (n_circ j : nat) :
  (j < n_circ)%nat -> ((j + 1) mod n_circ < n_circ)%nat.
Proof. intros Hj. apply Nat.mod_upper_bound. lia. Qed.

Lemma next_column_ne (n_circ j : nat) :
  (2 <= n_circ)%nat -> (j < n_circ)%nat -> (j + 1) mod n_circ <> j.
Proof.
  intros Hn Hj. destruct (decide (j + 1 = n_circ)%nat) as [Heq|Hne].
  - rewrite Heq, Nat.Div0.mod_same. lia.
  - rewrite Nat.mod_small by lia. lia.
Qed.

Lemma quad_in_range (n_circ n_axial i j : nat) :
  (i < n_axial - 1)%nat -> (j < n_circ)%nat ->
  (i * n_circ + j < n_circ * n_axial)%nat /\
  ((i + 1) * n_circ + j < n_circ * n_axial)%nat /\
  (i * n_circ + (j + 1) mod n_circ < n_circ * n_axial)%nat /\
  ((i + 1) * n_circ + (j + 1) mod n_circ < n_circ * n_axial)%nat.
Proof.
  intros Hi Hj. pose proof (next_column_lt n_circ j Hj).
  repeat split; apply row_index_lt; lia.
Qed.

Lemma generated_triangles_in_range (n_circ n_axial : nat)
    (triangles : list triangle) :
  List.length triangles = (2 * n_circ * (n_axial - 1))%nat ->
  (forall i j, (i < n_axial - 1)%nat -> (j < n_circ)%nat ->
     triangles !! (2 * (i * n_circ + j))%nat = Some (lower_triangle n_circ i j) /\
     triangles !! (2 * (i * n_circ + j) + 1)%nat
     = Some (upper_triangle n_circ i j)) ->
  forall a b c, (a, b, c) ∈ triangles ->
    (a < n_circ * n_axial)%nat /\ (b < n_circ * n_axial)%nat /\
    (c < n_circ * n_axial)%nat.
Proof.
  intros Hlen Hrows a b c Htri.
  destruct (generated_triangle_cases _ _ _ _ Hlen Hrows Htri)
    as (i & j & Hi & Hj & Hcase).
  destruct (quad_in_range n_circ n_axial i j Hi Hj) as (H00 & H10 & H01 & H11).
  destruct Hcase as [Heq|Heq]; injection Heq as -> -> ->; auto.
Qed.

(** X17: the triangles of a mesh that [generate_cylinder] returns.  The
    array has [2 n_circ (n_axial - 1)] rows and none is left at its initial
    zeros: rows [2q] and [2q + 1], for [q = i * n_circ + j], hold the two
    triangles of the quad between rows [i], [i + 1] and columns [j],
    [(j + 1) % n_circ], which share the diagonal from [v01] to [v10]; every
    row is one of these and names three vertices of the mesh. *)
Theorem cylinder_triangles_tile_the_quads (n_circ n_axial : nat)
    (length radius : R) (vertices : array) (triangles : list triangle)
    (ring_indices : list (list nat)) (end_vertices : list nat * list nat) :
  generate_cylinder n_circ n_axial length radius
  = Returns (vertices, triangles, ring_indices, end_vertices) ->
  List.length triangles = (2 * n_circ * (n_axial - 1))%nat /\
  (forall i j, (i < n_axial - 1)%nat -> (j < n_circ)%nat ->
     triangles !! (2 * (i * n_circ + j))%nat = Some (lower_triangle n_circ i j) /\
     triangles !! (2 * (i * n_circ + j) + 1)%nat
     = Some (upper_triangle n_circ i j) /\
     undirected_edge (lower_triangle n_circ i j)
       (i * n_circ + (j + 1) mod n_circ) ((i + 1) * n_circ + j) /\
     undirected_edge (upper_triangle n_circ i j)
       (i * n_circ + (j + 1) mod n_circ) ((i + 1) * n_circ + j)) /\
  (forall tri, tri ∈ triangles ->
     exists i j, (i < n_axial - 1)%nat /\ (j < n_circ)%nat /\
       (tri = lower_triangle n_circ i j \/ tri = upper_triangle n_circ i j)) /\
  (forall a b c, (a, b, c) ∈ triangles ->
     (a < List.length vertices)%nat /\ (b < List.length vertices)%nat /\
     (c < List.length vertices)%nat).
Proof.
  intros Hgen.
  apply generate_cylinder_inv in Hgen
    as (H1 & H0 & Hl & Hlen & _ & Htlen & Htris & _).
  split; [exact Htlen|]. split; [|split].
  - intros i j Hi Hj. destruct (Htris i j Hi Hj) as [Hlo Hup].
    split; [exact Hlo|]. split; [exact Hup|]. split.
    + right. unfold lower_triangle, sides.
      apply elem_of_cons. right. apply elem_of_cons. by left.
    + left. unfold upper_triangle, sides. apply elem_of_cons. by left.
  - intros tri Htri. by eapply generated_triangle_cases.
  - rewrite Hlen. by apply generated_triangles_in_range.
Qed.

Lemma cylinder_triangles_tile_the_quads_witness :
  exists m : mesh,
    generate_cylinder 3 2 TUBE_LENGTH TUBE_RADIUS = Returns m /\
    List.length m.1.1.2 = 6%nat /\
    m.1.1.2 !! 4%nat = Some (2, 5, 0)%nat /\
    m.1.1.2 !! 5%nat = Some (0, 5, 3)%nat.
Proof.
  destruct (generate_cylinder_total 3 2 TUBE_LENGTH TUBE_RADIUS)
    as ([[[vertices triangles] ring_indices] end_vertices] & Hgen & _);
    [lia | unfold TUBE_LENGTH; lra |].
  eexists. split; [exact Hgen|].
  destruct (cylinder_triangles_tile_the_quads _ _ _ _ _ _ _ _ Hgen)
    as (Hlen & Hrows & _).
  split; [exact Hlen|].
  destruct (Hrows 0%nat 2%nat) as (Hlo & Hup & _); [lia | lia |].
  split; [exact Hlo | exact Hup].
Defined.

Lemma quad_triangles_proper (n_circ i j : nat) :
  (2 <= n_circ)%nat -> (j < n_circ)%nat ->
  proper (lower_triangle n_circ i j) /\ proper (upper_triangle n_circ i j).
Proof.
  intros Hn Hj.
  pose proof (next_column_lt n_circ j Hj) as Hlt.
  pose proof (next_column_ne n_circ j Hn Hj) as Hne.
  unfold proper, lower_triangle, upper_triangle.
  repeat split; lia.
Qed.

Lemma build_springs_in_range (n : nat) (vertices : array)
    (triangles : list triangle) (springs : list spring) :
  (forall a b c, (a, b, c) ∈ triangles -> (a < n)%nat /\ (b < n)%nat /\ (c < n)%nat) ->
  build_springs vertices triangles = Ok springs ->
  forall s, s ∈ springs -> (spring_i s < n)%nat /\ (spring_j s < n)%nat.
Proof.
  intros Hrange Hbuild s Hs.
  assert (Hin : (spring_i s, spring_j s) ∈ map endpoints springs).
  { apply list_elem_of_fmap. by exists s. }
  apply (build_springs_pairs _ _ _ Hbuild) in Hin
    as (_ & [[a b] c] & Htri & Hedge).
  destruct (Hrange a b c Htri) as (Ha & Hb & Hc).
  unfold undirected_edge, sides in Hedge.
  destruct Hedge as [H|H]; mem_cases H; injection H as -> ->; auto.
Qed.

(** X18: with at least two vertices around, every triangle of a mesh that
    [generate_cylinder] returns names three different vertices, and every
    spring that [build_springs] makes from the mesh joins two different
    vertices, the lower index first.  With one vertex around,
    [(j + 1) % n_circ] is [j] itself and every triangle repeats a vertex. *)
Theorem cylinder_triangles_proper (n_circ n_axial : nat)
    (length radius : R) (vertices : array) (triangles : list triangle)
    (ring_indices : list (list nat)) (end_vertices : list nat * list nat) :
  generate_cylinder n_circ n_axial length radius
  = Returns (vertices, triangles, ring_indices, end_vertices) ->
  ((2 <= n_circ)%nat ->
   (forall tri, tri ∈ triangles -> proper tri) /\
   (forall springs, build_springs vertices triangles = Ok springs ->
      forall s, s ∈ springs -> (spring_i s < spring_j s)%nat)) /\
  (n_circ = 1%nat -> forall tri, tri ∈ triangles -> ~ proper tri).
Proof.
  intros Hgen.
  apply generate_cylinder_inv in Hgen
    as (H1 & H0 & Hl & Hlen & _ & Htlen & Htris & _).
  split.
  - intros Hn.
    assert (Hproper : forall tri, tri ∈ triangles -> proper tri).
    { intros tri Htri.
      destruct (generated_triangle_cases _ _ _ _ Htlen Htris Htri)
        as (i & j & _ & Hj & [-> | ->]); by apply quad_triangles_proper. }
    split; [exact Hproper|].
    intros springs Hbuild s Hs.
    assert (Hin : (spring_i s, spring_j s) ∈ map endpoints springs).
    { apply list_elem_of_fmap. by exists s. }
    apply (build_springs_pairs _ _ _ Hbuild) in Hin as (Hle & tri & Htri & Hedge).
    pose proof (undirected_edge_proper tri _ _ (Hproper tri Htri) Hedge). lia.
  - intros -> tri Htri.
    destruct (generated_triangle_cases _ _ _ _ Htlen Htris Htri)
      as (i & j & _ & Hj & [-> | ->]);
      unfold proper, lower_triangle, upper_triangle;
      rewrite Nat.mod_1_r; lia.
Qed.

Lemma cylinder_triangles_proper_witness :
  exists m : mesh,
    generate_cylinder 3 2 TUBE_LENGTH TUBE_RADIUS = Returns m /\
    forall tri, tri ∈ m.1.1.2 -> proper tri.
Proof.
  destruct (generate_cylinder_total 3 2 TUBE_LENGTH TUBE_RADIUS)
    as ([[[vertices triangles] ring_indices] end_vertices] & Hgen & _);
    [lia | unfold TUBE_LENGTH; lra |].
  eexists. split; [exact Hgen|].
  destruct (cylinder_triangles_proper _ _ _ _ _ _ _ _ Hgen) as [Hproper _].
  apply Hproper. lia.
Defined.

(** ** The rings and the end groups *)

Lemma py_round_bounds (a b : Z) (x : R) :
  IZR a <= x <= IZR b -> (a <= py_round x <= b)%Z.
Proof.
  intros [Ha Hb]. pose proof (Zfloor_bound x) as [Hlo Hhi].
  pose proof (Zfloor_lub a x Ha) as Hfloor.
  assert (Hnext : 0 < x - IZR (Zfloor x) -> (Zfloor x + 1 <= b)%Z).
  { intros Hfrac. assert (H : (Zfloor x < b)%Z) by (apply lt_IZR; lra). lia. }
  assert (Hsame : (Zfloor x <= b)%Z) by (apply le_IZR; lra).
  unfold py_round. cbv zeta.
  destruct (Rlt_dec (x - IZR (Zfloor x)) 0.5) as [_|Hge]; [lia|].
  assert (Hfrac : 0 < x - IZR (Zfloor x)) by lra. specialize (Hnext Hfrac).
  destruct (Rlt_dec 0.5 (x - IZR (Zfloor x))); [lia|].
  destruct (Z.even (Zfloor x)); lia.
Qed.

Lemma ring_quotient_bounds (n_axial ring : nat) (length : R) :
  (2 <= n_axial)%nat -> length <> 0 ->
  (ring < Z.to_nat (n_rings length))%nat ->
  IZR 0 <= INR ring * RING_SPACING * IZR (Z.of_nat n_axial - 1) / length
        <= IZR (Z.of_nat n_axial - 1).
Proof.
  intros Hn Hl Hring. rewrite IZR_rows.
  assert (Hden : 0 < INR n_axial - 1).
  { assert (H : INR 2 <= INR n_axial) by (apply le_INR; lia).
    simpl in H. lra. }
  unfold n_rings, py_int in Hring.
  destruct (Rle_dec 0 (length / RING_SPACING)) as [Hq|Hq].
  - assert (Hpos : 0 < length).
    { unfold RING_SPACING in Hq.
      destruct (Rlt_dec 0 length) as [|Hneg]; [done|].
      assert (length / 0.020 <= 0) by lra.
      assert (length / 0.020 = 0) by lra. lra. }
    assert (Hz : 0 <= INR ring * RING_SPACING <= length).
    { pose proof (pos_INR ring). split; [unfold RING_SPACING; nra|].
      pose proof (Zfloor_bound (length / RING_SPACING)) as [Hlo _].
      assert (Hle : (Z.of_nat ring <= Zfloor (length / RING_SPACING))%Z) by lia.
      apply IZR_le in Hle. rewrite <- INR_IZR_INZ in Hle.
      unfold RING_SPACING in *. lra. }
    set (z := INR ring * RING_SPACING) in *.
    assert (Hu : 0 <= z / length <= 1).
    { split.
      - apply Rmult_le_pos; [lra|]. left. by apply Rinv_0_lt_compat.
      - apply (Rmult_le_reg_r length); [exact Hpos|].
        unfold Rdiv. rewrite Rmult_assoc, Rinv_l by lra. lra. }
    replace (z * (INR n_axial - 1) / length)
      with (z / length * (INR n_axial - 1)) by (unfold Rdiv; ring).
    nra.
  - assert (Hneg : 0 < - (length / RING_SPACING)) by lra.
    assert (Hfloor : (0 <= Zfloor (- (length / RING_SPACING)))%Z).
    { apply (Zfloor_lub 0). lra. }
    assert (Hr : ring = 0%nat) by lia. subst ring. cbn [INR].
    unfold Rdiv. rewrite !Rmult_0_l. lra.
Qed.

Lemma mesh_row_first (n_circ : nat) : mesh_row n_circ 0 = seq 0 n_circ.
Proof. unfold mesh_row. cbn [Nat.mul Nat.add]. apply map_id. Qed.

Lemma ring_row_is_mesh_row (n_circ n_axial ring : nat) (length : R)
    (row : list nat) :
  (2 <= n_axial)%nat -> length <> 0 ->
  (ring < Z.to_nat (n_rings length))%nat ->
  ring_row length n_circ n_axial ring = Ok row ->
  exists i, (i < n_axial)%nat /\ row = mesh_row n_circ i /\
            (ring = 0%nat -> i = 0%nat).
Proof.
  intros Hn Hl Hring Hrow. unfold ring_row in Hrow.
  rewrite py_div_Ok in Hrow by exact Hl. cbn [rbind] in Hrow. cbv zeta in Hrow.
  injection Hrow as <-.
  pose proof (ring_quotient_bounds n_axial ring length Hn Hl Hring) as Hq.
  apply py_round_bounds in Hq.
  set (i_closest := py_round _) in *.
  exists (Z.to_nat i_closest). split; [lia|]. split.
  - unfold mesh_row. apply map_ext. intros j.
    rewrite Z2Nat.inj_add, Z2Nat.inj_mul, !Nat2Z.id by lia. reflexivity.
  - intros ->. subst i_closest. cbn [INR].
    replace (0 * RING_SPACING * IZR (Z.of_nat n_axial - 1) / length) with (IZR 0)
      by (unfold Rdiv; ring).
    pose proof (py_round_bounds 0 0 (IZR 0)) as H. lapply H; [lia | lra].
Qed.

Lemma generated_rings_rows (n_circ n_axial : nat) (length : R)
    (ring_indices : list (list nat)) :
  (2 <= n_axial)%nat -> length <> 0 ->
  Forall2 (fun ring row => ring_row length n_circ n_axial ring = Ok row)
          (seq 0 (Z.to_nat (n_rings length))) ring_indices ->
  forall ring, ring ∈ ring_indices ->
    exists i, (i < n_axial)%nat /\ ring = mesh_row n_circ i.
Proof.
  intros Hn Hl Hrings row Hin. apply list_elem_of_lookup in Hin as [k Hk].
  destruct (Forall2_lookup_r _ _ _ _ _ Hrings Hk) as (ring & Hseq & Hrow).
  apply lookup_seq in Hseq as [-> Hlt]. cbn [Nat.add] in Hrow.
  destruct (ring_row_is_mesh_row _ _ _ _ _ Hn Hl Hlt Hrow) as (i & Hi & -> & _).
  by exists i.
Qed.

Lemma mesh_row_in_range (n_circ n_axial i idx : nat) :
  (i < n_axial)%nat -> idx ∈ mesh_row n_circ i -> (idx < n_circ * n_axial)%nat.
Proof.
  intros Hi Hidx. unfold mesh_row in Hidx.
  apply list_elem_of_fmap in Hidx as (j & -> & Hj).
  apply elem_of_seq in Hj. apply row_index_lt; lia.
Qed.

(** X19: the rings of a mesh that [generate_cylinder] returns, for
    [n_circ > 0].  Every ring is a whole row of the mesh, the [n_circ]
    indices [i * n_circ + j] of some row [i < n_axial], so the ring indices
    are rows of the vertex array and [i_closest] is never negative nor past
    the last row; and the first ring is the first end group. *)
Theorem cylinder_rings_are_rows (n_circ n_axial : nat)
    (length radius : R) (vertices : array) (triangles : list triangle)
    (ring_indices : list (list nat)) (end_vertices : list nat * list nat) :
  generate_cylinder n_circ n_axial length radius
  = Returns (vertices, triangles, ring_indices, end_vertices) ->
  (0 < n_circ)%nat ->
  (forall ring, ring ∈ ring_indices ->
     exists i, (i < n_axial)%nat /\ ring = mesh_row n_circ i) /\
  rings_in_range (List.length vertices) ring_indices /\
  (ring_indices = [] \/ head ring_indices = Some end_vertices.1).
Proof.
  intros Hgen Hc.
  apply generate_cylinder_inv in Hgen
    as (H1 & H0 & Hl & Hlen & _ & _ & _ & Hrings & ->).
  assert (Hn : (2 <= n_axial)%nat) by lia.
  pose proof (generated_rings_rows _ _ _ _ Hn Hl Hrings) as Hrow.
  split; [exact Hrow|]. split.
  - unfold rings_in_range. apply Forall_forall. intros ring Hin.
    destruct (Hrow ring Hin) as (i & Hi & ->).
    apply Forall_forall. intros idx Hidx. rewrite Hlen.
    by eapply mesh_row_in_range.
  - destruct ring_indices as [|row rows]; [by left|]. right.
    cbn [head fst].
    destruct (Forall2_lookup_r _ _ _ 0%nat row Hrings eq_refl)
      as (ring & Hseq & Hrow0).
    apply lookup_seq in Hseq as [-> Hlt]. cbn [Nat.add] in Hrow0.
    destruct (ring_row_is_mesh_row _ _ _ _ _ Hn Hl Hlt Hrow0)
      as (i & _ & -> & Hi0).
    by rewrite (Hi0 eq_refl), mesh_row_first.
Qed.

Lemma cylinder_rings_are_rows_witness :
  exists m : mesh,
    generate_cylinder 3 2 TUBE_LENGTH TUBE_RADIUS = Returns m /\
    rings_in_range (List.length m.1.1.1) m.1.2.
Proof.
  destruct (generate_cylinder_total 3 2 TUBE_LENGTH TUBE_RADIUS)
    as ([[[vertices triangles] ring_indices] end_vertices] & Hgen & _);
    [lia | unfold TUBE_LENGTH; lra |].
  eexists. split; [exact Hgen|].
  destruct (cylinder_rings_are_rows _ _ _ _ _ _ _ _ Hgen) as (_ & Hrange & _);
    [lia | exact Hrange].
Defined.

Lemma mesh_row_NoDup (n_circ i : nat) : NoDup (mesh_row n_circ i).
Proof.
  unfold mesh_row. apply NoDup_fmap_2; [|apply NoDup_seq].
  intros j j' Heq. lia.
Qed.

Lemma mesh_row_elem (n_circ i idx : nat) :
  idx ∈ mesh_row n_circ i ->
  (i * n_circ <= idx < (i + 1) * n_circ)%nat.
Proof.
  unfold mesh_row. intros H. apply list_elem_of_fmap in H as (j & -> & Hj).
  apply elem_of_seq in Hj. lia.
Qed.

(** X20: the two end groups of a mesh that [generate_cylinder] returns,
    for [n_circ > 0]: the first row and the last row of the mesh.  Each has
    [n_circ] different indices, the two share none, and all are rows of the
    vertex array: the groups are of the kind for which the external load
    pushes with [load] on each end. *)
Theorem cylinder_end_groups (n_circ n_axial : nat)
    (length radius : R) (vertices : array) (triangles : list triangle)
    (ring_indices : list (list nat)) (end_vertices : list nat * list nat) :
  generate_cylinder n_circ n_axial length radius
  = Returns (vertices, triangles, ring_indices, end_vertices) ->
  (0 < n_circ)%nat ->
  end_vertices = (mesh_row n_circ 0, mesh_row n_circ (n_axial - 1)) /\
  NoDup end_vertices.1 /\ NoDup end_vertices.2 /\
  (forall idx, idx ∈ end_vertices.1 -> idx ∉ end_vertices.2) /\
  end_vertices.1 <> [] /\
  List.length end_vertices.1 = n_circ /\ List.length end_vertices.2 = n_circ /\
  (forall idx, idx ∈ end_vertices.1 ++ end_vertices.2 ->
     (idx < List.length vertices)%nat).
Proof.
  intros Hgen Hc.
  apply generate_cylinder_inv in Hgen
    as (H1 & H0 & Hl & Hlen & _ & _ & _ & _ & ->).
  assert (Hn : (2 <= n_axial)%nat) by lia.
  rewrite <- mesh_row_first. cbn [fst snd].
  split; [reflexivity|]. split; [apply mesh_row_NoDup|].
  split; [apply mesh_row_NoDup|]. split; [|split; [|split; [|split]]].
  - intros idx Hfirst Hlast.
    apply mesh_row_elem in Hfirst. apply mesh_row_elem in Hlast.
    assert (H : (1 * n_circ <= (n_axial - 1) * n_circ)%nat)
      by (apply Nat.mul_le_mono_r; lia).
    lia.
  - unfold mesh_row. destruct n_circ; [lia | discriminate].
  - unfold mesh_row. by rewrite length_map, length_seq.
  - unfold mesh_row. by rewrite length_map, length_seq.
  - intros idx Hidx. rewrite Hlen.
    apply elem_of_app in Hidx as [Hidx|Hidx]; apply mesh_row_elem in Hidx.
    + assert (H : ((0 + 1) * n_circ <= n_axial * n_circ)%nat)
        by (apply Nat.mul_le_mono_r; lia).
      lia.
    + assert (H : ((n_axial - 1 + 1) * n_circ <= n_axial * n_circ)%nat)
        by (apply Nat.mul_le_mono_r; lia).
      lia.
Qed.

Lemma cylinder_end_groups_witness :
  exists m : mesh,
    generate_cylinder 3 2 TUBE_LENGTH TUBE_RADIUS = Returns m /\
    m.2 = ([0; 1; 2]%nat, [3; 4; 5]%nat).
Proof.
  destruct (generate_cylinder_total 3 2 TUBE_LENGTH TUBE_RADIUS)
    as ([[[vertices triangles] ring_indices] end_vertices] & Hgen & _);
    [lia | unfold TUBE_LENGTH; lra |].
  eexists. split; [exact Hgen|].
  destruct (cylinder_end_groups _ _ _ _ _ _ _ _ Hgen) as (Hends & _);
    [lia | exact Hends].
Defined.

(** ** From the mesh to the frames *)

Lemma generated_valid_mesh (n_circ n_axial : nat) (length radius : R)
    (vertices : array) (triangles : list triangle)
    (ring_indices : list (list nat)) (end_vertices : list nat * list nat)
    (springs : list spring) :
  (2 <= n_axial)%nat -> length <> 0 -> (0 < n_circ)%nat ->
  generated n_circ n_axial length radius
    (vertices, triangles, ring_indices, end_vertices) ->
  build_springs vertices triangles = Ok springs ->
  valid_mesh (List.length vertices) triangles springs ring_indices end_vertices.
Proof.
  intros Hn Hl Hc (Hlen & _ & Htlen & Htris & Hrings & ->) Hbuild.
  pose proof (generated_triangles_in_range _ _ _ Htlen Htris) as Hrange.
  rewrite Hlen. split; [exact Hrange|]. split; [|split; [|split]].
  - by eapply build_springs_in_range.
  - unfold rings_in_range. apply Forall_forall. intros ring Hin.
    destruct (generated_rings_rows _ _ _ _ Hn Hl Hrings ring Hin) as (i & Hi & ->).
    apply Forall_forall. intros idx Hidx. by eapply mesh_row_in_range.
  - cbn [fst snd]. rewrite <- mesh_row_first. intros idx Hidx.
    apply elem_of_app in Hidx as [Hidx|Hidx];
      eapply mesh_row_in_range; try exact Hidx; lia.
  - left. cbn [fst]. destruct n_circ; [lia | discriminate].
Qed.

Lemma generated_mesh_springs (n_circ n_axial : nat) (length radius : R) :
  (2 <= n_axial)%nat -> length <> 0 -> (0 < n_circ)%nat ->
  exists (vertices : array) (triangles : list triangle)
         (ring_indices : list (list nat)) (end_vertices : list nat * list nat)
         (springs : list spring),
    generate_cylinder n_circ n_axial length radius
    = Returns (vertices, triangles, ring_indices, end_vertices) /\
    List.length vertices = (n_circ * n_axial)%nat /\
    build_springs vertices triangles = Ok springs /\
    valid_mesh (List.length vertices) triangles springs ring_indices end_vertices.
Proof.
  intros Hn Hl Hc.
  destruct (generate_cylinder_total n_circ n_axial length radius Hn Hl)
    as ([[[vertices triangles] ring_indices] end_vertices] & Hgen & Hm).
  pose proof Hm as (Hlen & _ & Htlen & Htris & _).
  destruct (build_springs_total vertices triangles) as [springs Hbuild].
  { rewrite Hlen. by apply generated_triangles_in_range. }
  exists vertices, triangles, ring_indices, end_vertices, springs.
  split; [exact Hgen|]. split; [exact Hlen|]. split; [exact Hbuild|].
  by eapply generated_valid_mesh.
Qed.

Lemma simulate_never_raises (fl : R -> R) (fuel : nat) (vertices : array)
    (triangles : list triangle) (springs : list spring)
    (ring_indices : list (list nat)) (end_vertices : list nat * list nat)
    (t_end dt fps : R) (e : exn) :
  valid_mesh (List.length vertices) triangles springs ring_indices
    end_vertices ->
  vertices <> [] -> fps <> 0 -> dt <> 0 ->
  simulate fl fuel None vertices triangles springs ring_indices end_vertices
    t_end dt fps <> Some (Raise e).
Proof.
  intros Hmesh Hn Hfps Hdt. unfold simulate.
  rewrite (prelude_Ok fl vertices t_end dt fps Hn Hfps Hdt).
  apply loop_never_raises;
    [exact Hmesh | apply repeat_length | apply initial_state_shaped].
Qed.

(** X21: the mesh provider, the spring builder and the integrator fit
    together.  On a mesh that [generate_cylinder] returns, with
    [n_circ > 0], [build_springs] returns and the mesh with these springs
    indexes into the vertex array, so that no pass of [simulate] raises: for
    a frame rate and a step other than zero, and a quotient [t_end/dt] in
    the range of the floats, a run without interrupt ends with no
    exception, whatever the rounding of the times, and it returns a list of
    frames when the step is positive and the floats below [t_end + dt]
    resolve it. *)
Theorem generated_mesh_simulates (fl : R -> R) (n_circ n_axial : nat)
    (length radius : R) (vertices : array) (triangles : list triangle)
    (ring_indices : list (list nat)) (end_vertices : list nat * list nat)
    (t_end dt fps : R) :
  generate_cylinder n_circ n_axial length radius
  = Returns (vertices, triangles, ring_indices, end_vertices) ->
  (0 < n_circ)%nat -> fps <> 0 -> dt <> 0 ->
  exists springs : list spring,
    build_springs vertices triangles = Ok springs /\
    valid_mesh (List.length vertices) triangles springs ring_indices
      end_vertices /\
    (Rabs (t_end / dt) < 2 ^ 1023 ->
     forall (fuel : nat) (e : exn),
       simulate fl fuel None vertices triangles springs ring_indices
         end_vertices t_end dt fps <> Some (Raise e)) /\
    (resolves fl t_end dt ->
       exists (fuel : nat) (frames : list array),
         forall fuel', (fuel <= fuel')%nat ->
           simulate fl fuel' None vertices triangles springs ring_indices
             end_vertices t_end dt fps = Some (Ok frames)).
Proof.
  intros Hgen Hc Hfps Hdt.
  apply generate_cylinder_inv in Hgen as (H1 & H0 & Hl & Hm).
  assert (Hn : (2 <= n_axial)%nat) by lia.
  pose proof Hm as (Hlen & _ & Htlen & Htris & _).
  destruct (build_springs_total vertices triangles) as [springs Hbuild].
  { rewrite Hlen. by apply generated_triangles_in_range. }
  pose proof (generated_valid_mesh _ _ _ _ _ _ _ _ _ Hn Hl Hc Hm Hbuild) as Hvalid.
  assert (Hne : vertices <> []).
  { intros ->. cbn [List.length] in Hlen.
    assert (0 < n_circ * n_axial)%nat by (apply Nat.mul_pos_pos; lia). lia. }
  exists springs. split; [exact Hbuild|]. split; [exact Hvalid|]. split.
  - intros _ fuel e. by apply simulate_never_raises.
  - intros Hres.
    destruct (simulate_returns fl vertices triangles springs ring_indices
                end_vertices t_end dt fps Hres Hvalid Hne Hfps)
      as (K & sK & _ & _ & Hrun).
    by exists K, (s_frames sK).
Qed.

Lemma generated_mesh_simulates_witness :
  exists (m : mesh) (springs : list spring) (fuel : nat) (frames : list array),
    generate_cylinder 3 2 TUBE_LENGTH TUBE_RADIUS = Returns m /\
    build_springs m.1.1.1 m.1.1.2 = Ok springs /\
    simulate unrounded fuel None m.1.1.1 m.1.1.2 springs m.1.2 m.2 1 DT 30
    = Some (Ok frames).
Proof.
  destruct (generate_cylinder_total 3 2 TUBE_LENGTH TUBE_RADIUS)
    as ([[[vertices triangles] ring_indices] end_vertices] & Hgen & _);
    [lia | unfold TUBE_LENGTH; lra |].
  destruct (generated_mesh_simulates unrounded 3 2 TUBE_LENGTH TUBE_RADIUS
              vertices triangles ring_indices end_vertices 1 DT 30 Hgen)
    as (springs & Hbuild & _ & _ & Hreturns);
    [lia | lra | unfold DT; lra |].
  destruct Hreturns as (fuel & frames & Hrun).
  { apply unrounded_resolves. unfold DT. lra. }
  exists (vertices, triangles, ring_indices, end_vertices), springs, fuel, frames.
  split; [exact Hgen|]. split; [exact Hbuild|].
  exact (Hrun fuel (Nat.le_refl fuel)).
Defined.

(** * The driver *)

Lemma driver_mesh (reduced_mesh : bool) :
  exists (vertices : array) (triangles : list triangle)
         (ring_indices : list (list nat)) (end_vertices : list nat * list nat)
         (springs : list spring),
    (if reduced_mesh
     then generate_cylinder 12 30 TUBE_LENGTH TUBE_RADIUS
     else generate_cylinder N_CIRCUMFERENTIAL N_AXIAL TUBE_LENGTH TUBE_RADIUS)
    = Returns (vertices, triangles, ring_indices, end_vertices) /\
    List.length vertices = (if reduced_mesh then 12 * 30 else 24 * 60)%nat /\
    vertices <> [] /\
    build_springs vertices triangles = Ok springs /\
    valid_mesh (List.length vertices) triangles springs ring_indices end_vertices.
Proof.
  destruct reduced_mesh.
  - destruct (generated_mesh_springs 12 30 TUBE_LENGTH TUBE_RADIUS)
      as (vertices & triangles & ring_indices & end_vertices & springs
          & Hgen & Hlen & Hbuild & Hvalid);
      [lia | unfold TUBE_LENGTH; lra | lia |].
    exists vertices, triangles, ring_indices, end_vertices, springs.
    split; [exact Hgen|]. split; [exact Hlen|]. split; [|by split].
    intros ->. discriminate Hlen.
  - destruct (generated_mesh_springs N_CIRCUMFERENTIAL N_AXIAL TUBE_LENGTH
                TUBE_RADIUS)
      as (vertices & triangles & ring_indices & end_vertices & springs
          & Hgen & Hlen & Hbuild & Hvalid);
      [unfold N_AXIAL; lia | unfold TUBE_LENGTH; lra
       | unfold N_CIRCUMFERENTIAL; lia |].
    exists vertices, triangles, ring_indices, end_vertices, springs.
    split; [exact Hgen|]. split; [exact Hlen|]. split; [|by split].
    intros ->. discriminate Hlen.
Qed.

Lemma simulate_frames_nonempty (fl : R -> R)
    (fuel : nat) (intr : option (nat * phase))
    (vertices : array) (triangles : list triangle) (springs : list spring)
    (ring_indices : list (list nat)) (end_vertices : list nat * list nat)
    (t_end dt fps : R) (frames : list array) :
  0 < t_end ->
  simulate fl fuel intr vertices triangles springs ring_indices end_vertices
    t_end dt fps = Some (Ok frames) ->
  frames <> [].
Proof.
  unfold simulate. intros Hend H.
  destruct (prelude fl vertices t_end dt fps) as [[mass frame_dt]|e]; [|discriminate].
  apply loop_result_reachable in H as (k & s & Hr & -> & Hstop).
  destruct k as [|k]; [|by eapply frames_nonempty_after_a_pass].
  inversion Hr; subst. destruct Hstop as [Hstop|Hne]; [|exact Hne].
  cbn [initial_state s_t] in Hstop. lra.
Qed.

Lemma simulate_frames_rows (fl : R -> R)
    (fuel : nat) (intr : option (nat * phase))
    (vertices : array) (triangles : list triangle) (springs : list spring)
    (ring_indices : list (list nat)) (end_vertices : list nat * list nat)
    (t_end dt fps : R) (frames : list array) :
  simulate fl fuel intr vertices triangles springs ring_indices end_vertices
    t_end dt fps = Some (Ok frames) ->
  Forall (fun frame : array => List.length frame = List.length vertices) frames.
Proof.
  unfold simulate. intros H.
  destruct (prelude fl vertices t_end dt fps) as [[mass frame_dt]|e] eqn:Hpre;
    [|discriminate].
  apply prelude_inv in Hpre as (_ & _ & _ & -> & _).
  apply loop_result_reachable in H as (k & s & Hr & -> & _).
  eapply reaches_frames_shaped; [apply initial_state_shaped | apply repeat_length
                                | | exact Hr].
  constructor.
Qed.

(** X22: a run of the driver with a positive duration and a frame rate
    other than zero, for a quotient [duration/DT] in the range of the
    floats, gets through the mesh provider, the spring builder and the
    integrator without an exception.  However it ends, it ends in the call
    of [create_animation], with the triangles of the mesh and a list of
    frames that is not empty, each frame with one row for each of the 1440
    vertices of the full mesh or the 360 of the reduced one; and it does end
    when the floats below [duration + DT] resolve the step [DT]. *)
Theorem run_simulation_renders (fl : R -> R) (sim_time duration fps : R)
    (reduced_mesh : bool) :
  0 < duration -> fps <> 0 ->
  (duration / DT < 2 ^ 1023 ->
   forall (fuel : nat) (e : failure),
     run_simulation fl fuel None sim_time duration fps reduced_mesh
     <> Some (Fails e)) /\
  (forall (fuel : nat) (end_ : ending),
     run_simulation fl fuel None sim_time duration fps reduced_mesh
     = Some (Returns end_) ->
     exists (frames : list array) (triangles : list triangle),
       end_ = CreateAnimation frames triangles fps /\
       frames <> [] /\
       forall frame, frame ∈ frames ->
         List.length frame = (if reduced_mesh then 360 else 1440)%nat) /\
  (resolves fl duration DT ->
     exists (fuel : nat) (frames : list array) (triangles : list triangle),
       forall fuel', (fuel <= fuel')%nat ->
         run_simulation fl fuel' None sim_time duration fps reduced_mesh
         = Some (Returns (CreateAnimation frames triangles fps))).
Proof.
  intros Hduration Hfps.
  destruct (driver_mesh reduced_mesh)
    as (vertices & triangles & ring_indices & end_vertices & springs
        & Hgen & Hlen & Hne & Hbuild & Hvalid).
  assert (HDT : DT <> 0) by (unfold DT; lra).
  split; [|split].
  - intros _ fuel e. unfold run_simulation. cbv zeta. rewrite Hgen, Hbuild.
    pose proof (fun e' => simulate_never_raises fl fuel vertices triangles
                  springs ring_indices end_vertices duration DT fps e'
                  Hvalid Hne Hfps HDT) as Hsafe.
    destruct (simulate fl fuel None vertices triangles springs ring_indices
                end_vertices duration DT fps) as [[frames|e']|];
      [|by destruct (Hsafe e')|discriminate].
    rewrite py_div_Ok by lra. by destruct frames.
  - intros fuel end_. unfold run_simulation. cbv zeta. rewrite Hgen, Hbuild.
    destruct (simulate fl fuel None vertices triangles springs ring_indices
                end_vertices duration DT fps) as [[frames|e']|] eqn:Hsim;
      [|discriminate..].
    rewrite py_div_Ok by lra.
    pose proof (simulate_frames_nonempty _ _ _ _ _ _ _ _ _ _ _ _ Hduration Hsim)
      as Hframes.
    destruct frames as [|frame0 frames]; [done|].
    intros H. injection H as <-.
    exists (frame0 :: frames), triangles. split; [reflexivity|].
    split; [exact Hframes|].
    intros frame Hframe.
    pose proof (simulate_frames_rows _ _ _ _ _ _ _ _ _ _ _ _ Hsim) as Hrows.
    rewrite Forall_forall in Hrows. rewrite (Hrows frame Hframe), Hlen.
    by destruct reduced_mesh.
  - intros Hres.
    destruct (simulate_returns fl vertices triangles springs ring_indices
                end_vertices duration DT fps Hres Hvalid Hne Hfps)
      as (K & sK & _ & _ & Hrun).
    pose proof (Hrun K (Nat.le_refl K)) as Hsim.
    pose proof (simulate_frames_nonempty _ _ _ _ _ _ _ _ _ _ _ _ Hduration Hsim)
      as Hframes.
    exists K, (s_frames sK), triangles.
    intros fuel' Hfuel. unfold run_simulation. cbv zeta.
    rewrite Hgen, Hbuild, (Hrun fuel' Hfuel), py_div_Ok by lra.
    by destruct (s_frames sK).
Qed.

Lemma run_simulation_renders_witness :
  exists (fuel : nat) (frames : list array) (triangles : list triangle),
    run_simulation unrounded fuel None 12 5.0 VIDEO_FPS true
    = Some (Returns (CreateAnimation frames triangles VIDEO_FPS)) /\
    frames <> [].
Proof.
  destruct (run_simulation_renders unrounded 12 5.0 VIDEO_FPS true)
    as (_ & Hends & Hreturns); [lra | unfold VIDEO_FPS; lra |].
  destruct Hreturns as (fuel & frames & triangles & Hrun).
  { apply unrounded_resolves. unfold DT. lra. }
  specialize (Hrun fuel (Nat.le_refl fuel)).
  destruct (Hends fuel _ Hrun) as (frames' & triangles' & Heq & Hne & _).
  injection Heq as <- <-.
  exists fuel, frames, triangles. split; [exact Hrun | exact Hne].
Defined.

(** X23: the driver's warning that no frames were collected is reached
    for a negative duration only.  A run ends with the warning exactly when
    the duration is negative and the frame rate is not zero, whatever the
    mesh resolution, the fuel and the interrupts: for a positive duration
    there are frames or an exception, and for a duration of zero the log line
    fails first. *)
Theorem run_simulation_no_frames (fl : R -> R)
    (fuel : nat) (intr : option (nat * phase))
    (sim_time duration fps : R) (reduced_mesh : bool) :
  run_simulation fl fuel intr sim_time duration fps reduced_mesh
  = Some (Returns NoFramesWarning)
  <-> duration < 0 /\ fps <> 0.
Proof.
  destruct (driver_mesh reduced_mesh)
    as (vertices & triangles & ring_indices & end_vertices & springs
        & Hgen & Hlen & Hne & Hbuild & Hvalid).
  unfold run_simulation. cbv zeta. rewrite Hgen, Hbuild. split.
  - intros Hrun.
    destruct (simulate fl fuel intr vertices triangles springs ring_indices
                end_vertices duration DT fps) as [[frames|e]|] eqn:Hsim;
      try discriminate.
    unfold py_div in Hrun.
    destruct (Req_EM_T duration 0) as [|Hd]; [discriminate|].
    destruct frames as [|frame frames]; [|discriminate].
    split.
    + destruct (Rlt_dec 0 duration) as [Hpos|Hneg]; [|lra].
      by pose proof (simulate_frames_nonempty _ _ _ _ _ _ _ _ _ _ _ _ Hpos Hsim).
    + unfold simulate in Hsim.
      destruct (prelude fl vertices duration DT fps) as [[mass frame_dt]|e] eqn:Hpre;
        [|discriminate].
      by apply prelude_inv in Hpre as (_ & Hfps & _).
  - intros [Hd Hfps]. unfold simulate.
    rewrite (prelude_Ok fl vertices duration DT fps Hne Hfps)
      by (unfold DT; lra).
    assert (Hloop : forall mass frame_dt,
      loop fl triangles springs ring_indices end_vertices vertices mass duration
        DT frame_dt fuel intr (initial_state vertices) = Some (Ok [])).
    { intros mass frame_dt.
      destruct fuel; cbn [loop initial_state s_t s_frames];
        destruct (Rlt_dec 0.0 duration); (lra || reflexivity). }
    rewrite Hloop, py_div_Ok by lra. reflexivity.
Qed.

(** X24: a duration of zero or a frame rate of zero ends the driver with
    [ZeroDivisionError]: a frame rate of zero in [simulate], at
    [1.0 / fps]; a duration of zero after [simulate] has returned no frames,
    at the quotient [sim_time/duration] of the log line, before the warning
    could be given. *)
Theorem run_simulation_zero_division (fl : R -> R)
    (fuel : nat) (intr : option (nat * phase))
    (sim_time duration fps : R) (reduced_mesh : bool) :
  duration = 0 \/ fps = 0 ->
  run_simulation fl fuel intr sim_time duration fps reduced_mesh
  = Some (Fails (Builtin ZeroDivisionError)).
Proof.
  intros Hzero.
  destruct (driver_mesh reduced_mesh)
    as (vertices & triangles & ring_indices & end_vertices & springs
        & Hgen & Hlen & Hne & Hbuild & Hvalid).
  unfold run_simulation. cbv zeta. rewrite Hgen, Hbuild.
  destruct (Req_EM_T fps 0) as [->|Hfps].
  - unfold simulate, prelude, vertex_mass.
    rewrite py_div_Ok by (apply not_0_INR; by destruct vertices).
    cbn [rbind]. by rewrite py_div_zero.
  - destruct Hzero as [->|Hz]; [|done]. unfold simulate.
    rewrite (prelude_Ok fl vertices 0 DT fps Hne Hfps) by (unfold DT; lra).
    assert (Hloop : forall mass frame_dt,
      loop fl triangles springs ring_indices end_vertices vertices mass 0
        DT frame_dt fuel intr (initial_state vertices) = Some (Ok [])).
    { intros mass frame_dt.
      destruct fuel; cbn [loop initial_state s_t s_frames];
        destruct (Rlt_dec 0.0 0); (lra || reflexivity). }
    by rewrite Hloop, py_div_zero.
Qed.

Lemma run_simulation_zero_division_witness :
  run_simulation unrounded 0 None 1 0 VIDEO_FPS false
  = Some (Fails (Builtin ZeroDivisionError)).
Proof.
  apply (run_simulation_zero_division unrounded). by left.
Defined.

(** * The pressure on the generated tube *)

Lemma next_column_angle (n_circ j : nat) :
  (3 <= n_circ)%nat -> (j < n_circ)%nat ->
  sin (2 * PI * INR ((j + 1) mod n_circ) / INR n_circ)
    * cos (2 * PI * INR j / INR n_circ)
  - cos (2 * PI * INR ((j + 1) mod n_circ) / INR n_circ)
    * sin (2 * PI * INR j / INR n_circ)
  = sin (2 * PI / INR n_circ) /\
  0 < sin (2 * PI / INR n_circ).
Proof.
  intros Hn Hj.
  assert (Hn3 : 3 <= INR n_circ).
  { apply (le_INR 3) in Hn. simpl in Hn. lra. }
  pose proof PI_RGT_0 as Hpi.
  assert (Hstep : 0 < 2 * PI / INR n_circ < PI).
  { split.
    - apply Rmult_lt_0_compat; [lra|]. apply Rinv_0_lt_compat. lra.
    - apply (Rmult_lt_reg_r (INR n_circ)); [lra|].
      unfold Rdiv. rewrite Rmult_assoc, Rinv_l by lra. nra. }
  split; [|apply sin_gt_0; lra].
  rewrite <- sin_minus.
  destruct (decide (j + 1 = n_circ)%nat) as [Heq|Hne].
  - rewrite Heq, Nat.Div0.mod_same. cbn [INR].
    assert (Hj1 : INR j = INR n_circ - 1).
    { rewrite <- Heq, plus_INR. simpl. lra. }
    rewrite Hj1.
    replace (2 * PI * 0 / INR n_circ - 2 * PI * (INR n_circ - 1) / INR n_circ)
      with (2 * PI / INR n_circ - 2 * PI) by (field; lra).
    rewrite sin_minus, cos_2PI, sin_2PI. ring.
  - rewrite Nat.mod_small by lia. f_equal. rewrite plus_INR. simpl. field. lra.
Qed.

(** The normals of the two triangles of a quad of the cylinder, in
    coordinates: [c], [s] are the cosine and sine of the angle of column
    [j], [c'], [s'] those of the next column, [z], [z'] the heights of the
    two rows. *)
Lemma quad_normals (r c s c' s' z z' : R) :
  let v00 := V3 (r * c) (r * s) z in
  let v10 := V3 (r * c) (r * s) z' in
  let v01 := V3 (r * c') (r * s') z in
  let v11 := V3 (r * c') (r * s') z' in
  let lower := cross (vsub v10 v00) (vsub v01 v00) in
  let upper := cross (vsub v10 v01) (vsub v11 v01) in
  let inwards := - ((z' - z) * (r * r) * (s' * c - c' * s)) in
  (vz lower = 0 /\ radial lower v00 = inwards /\ radial lower v10 = inwards /\
   radial lower v01 = inwards) /\
  (vz upper = 0 /\ radial upper v01 = inwards /\ radial upper v10 = inwards /\
   radial upper v11 = inwards).
Proof.
  cbv zeta. unfold radial, cross, vsub. cbn [vx vy vz].
  repeat split; ring.
Qed.

Lemma radial_pressure_force (pressure : R) (n v : vec3) :
  vz n = 0 ->
  vz (vadd vzero (vscale (pressure / 6) n)) = 0 /\
  radial (vadd vzero (vscale (pressure / 6) n)) v = pressure / 6 * radial n v.
Proof.
  intros Hz. unfold radial, vadd, vscale, vzero. cbn [vx vy vz].
  rewrite Hz. split; ring.
Qed.

(** X25: on the tube that [generate_cylinder] returns, for a positive
    length, [n_circ >= 3] and a radius other than zero, a positive pressure
    pushes the wall towards the axis.  For every triangle of the mesh, the
    force that [compute_pressure_forces] gives a corner is zero (the triangle
    was skipped) or has no axial part and the in-plane product
    [-(pressure / 6) (length / (n_axial - 1)) radius^2 sin (2 pi / n_circ)]
    with the position of the corner, which is negative: with the winding
    [(v00, v10, v01)], [(v01, v10, v11)] the normal
    [(v1 - v0) x (v2 - v0)] points inwards. *)
Theorem pressure_pushes_the_tube_inwards (n_circ n_axial : nat)
    (length radius pressure : R) (vertices : array) (triangles : list triangle)
    (ring_indices : list (list nat)) (end_vertices : list nat * list nat)
    (tri : triangle) :
  generate_cylinder n_circ n_axial length radius
  = Returns (vertices, triangles, ring_indices, end_vertices) ->
  (3 <= n_circ)%nat -> 0 < length -> radius <> 0 -> 0 < pressure ->
  tri ∈ triangles ->
  exists forces : array,
    compute_pressure_forces Rdiv vertices [tri] pressure = Ok forces /\
    forall idx v F, vertices !! idx = Some v -> forces !! idx = Some F ->
      F = vzero \/
      (idx ∈ [tri.1.1; tri.1.2; tri.2] /\ vz F = 0 /\
       radial F v
       = - (pressure / 6 * (length / (INR n_axial - 1)) * (radius * radius)
            * sin (2 * PI / INR n_circ)) /\
       radial F v < 0).
Proof.
  intros Hgen Hn Hlength Hradius Hp Htri.
  apply generate_cylinder_inv in Hgen
    as (H1 & H0 & _ & Hlen & Hrows & Htlen & Htris & _).
  destruct (generated_triangle_cases _ _ _ _ Htlen Htris Htri)
    as (i & j & Hi & Hj & Hcase).
  pose proof (next_column_lt n_circ j Hj) as Hjn.
  destruct (next_column_angle n_circ j Hn Hj) as [Hangle Hsin].
  assert (Hden : 0 < INR n_axial - 1).
  { assert (H : INR 2 <= INR n_axial) by (apply le_INR; lia).
    simpl in H. lra. }
  (* the four corners of the quad *)
  pose proof (Hrows i j ltac:(lia) Hj) as H00.
  pose proof (Hrows (i + 1)%nat j ltac:(lia) Hj) as H10.
  pose proof (Hrows i ((j + 1) mod n_circ)%nat ltac:(lia) Hjn) as H01.
  pose proof (Hrows (i + 1)%nat ((j + 1) mod n_circ)%nat ltac:(lia) Hjn) as H11.
  unfold cylinder_vertex in H00, H10, H01, H11.
  set (c := cos (2 * PI * INR j / INR n_circ)) in *.
  set (s := sin (2 * PI * INR j / INR n_circ)) in *.
  set (c' := cos (2 * PI * INR ((j + 1) mod n_circ) / INR n_circ)) in *.
  set (s' := sin (2 * PI * INR ((j + 1) mod n_circ) / INR n_circ)) in *.
  set (z := length * INR i / IZR (Z.of_nat n_axial - 1)) in *.
  set (z' := length * INR (i + 1) / IZR (Z.of_nat n_axial - 1)) in *.
  assert (Hz : z' - z = length / (INR n_axial - 1)).
  { unfold z, z'. rewrite IZR_rows, plus_INR. simpl. field. lra. }
  destruct (quad_normals radius c s c' s' z z') as [Hlower Hupper].
  cbv zeta in Hlower, Hupper. rewrite Hz, Hangle in Hlower, Hupper.
  set (inwards := - (length / (INR n_axial - 1) * (radius * radius)
                     * sin (2 * PI / INR n_circ))) in *.
  assert (Hin : inwards < 0).
  { unfold inwards.
    assert (0 < length / (INR n_axial - 1))
      by (apply Rmult_lt_0_compat; [lra | by apply Rinv_0_lt_compat]).
    assert (0 < radius * radius) by nra.
    assert (0 < length / (INR n_axial - 1) * (radius * radius))
      by (by apply Rmult_lt_0_compat).
    nra. }
  assert (Hforce : forall n v : vec3, vz n = 0 -> radial n v = inwards ->
    vz (vadd vzero (vscale (pressure / 6) n)) = 0 /\
    radial (vadd vzero (vscale (pressure / 6) n)) v
    = - (pressure / 6 * (length / (INR n_axial - 1)) * (radius * radius)
         * sin (2 * PI / INR n_circ)) /\
    radial (vadd vzero (vscale (pressure / 6) n)) v < 0).
  { intros n v Hvz Hrad.
    destruct (radial_pressure_force pressure n v Hvz) as [HFz HFr].
    split; [exact HFz|]. rewrite HFr, Hrad. unfold inwards. split; [ring|].
    fold inwards. nra. }
  assert (Hzeros : Datatypes.length (zeros_like vertices)
                   = Datatypes.length vertices) by apply zeros_like_length.
  unfold compute_pressure_forces. cbv zeta.
  destruct (Rle_dec pressure 0) as [Hle|_]; [lra|]. cbn [foldM].
  destruct Hcase as [-> | ->]; unfold lower_triangle, upper_triangle;
    cbn [fst snd].
  - (* the lower triangle (v00, v10, v01) *)
    destruct (Rlt_dec (0.5 * norm (cross
                (vsub (V3 (radius * c) (radius * s) z') (V3 (radius * c) (radius * s) z))
                (vsub (V3 (radius * c') (radius * s') z) (V3 (radius * c) (radius * s) z))))
              1e-10) as [Hflat|Hbig].
    + rewrite (pressure_step_skip Rdiv vertices _ pressure _ _ _ _ _ _
                 H00 H10 H01 Hflat). cbn [rbind].
      exists (zeros_like vertices). split; [reflexivity|].
      intros idx v F _ HF. left. by eapply zeros_like_lookup.
    + destruct (pressure_step_adds vertices (zeros_like vertices) _ _ _ _ _ _
                  pressure H00 H10 H01 ltac:(lra) Hzeros)
        as (_ & forces & -> & Hforces & _).
      cbn [rbind]. exists forces. split; [reflexivity|].
      intros idx v F Hv HF.
      rewrite (Hforces idx vzero) in HF
        by (apply zeros_like_lookup_lt; by eapply lookup_lt_Some).
      destruct (bool_decide_reflect
                  (idx ∈ [(i * n_circ + j)%nat; ((i + 1) * n_circ + j)%nat;
                          (i * n_circ + (j + 1) mod n_circ)%nat])) as [Hcorner|_];
        injection HF as <-; [right | by left].
      split; [exact Hcorner|].
      destruct Hlower as (Hnz & Hr00 & Hr10 & Hr01).
      mem_cases Hcorner.
      * rewrite H00 in Hv. injection Hv as <-. by apply Hforce.
      * rewrite H10 in Hv. injection Hv as <-. by apply Hforce.
      * rewrite H01 in Hv. injection Hv as <-. by apply Hforce.
  - (* the upper triangle (v01, v10, v11) *)
    destruct (Rlt_dec (0.5 * norm (cross
                (vsub (V3 (radius * c) (radius * s) z') (V3 (radius * c') (radius * s') z))
                (vsub (V3 (radius * c') (radius * s') z') (V3 (radius * c') (radius * s') z))))
              1e-10) as [Hflat|Hbig].
    + rewrite (pressure_step_skip Rdiv vertices _ pressure _ _ _ _ _ _
                 H01 H10 H11 Hflat). cbn [rbind].
      exists (zeros_like vertices). split; [reflexivity|].
      intros idx v F _ HF. left. by eapply zeros_like_lookup.
    + destruct (pressure_step_adds vertices (zeros_like vertices) _ _ _ _ _ _
                  pressure H01 H10 H11 ltac:(lra) Hzeros)
        as (_ & forces & -> & Hforces & _).
      cbn [rbind]. exists forces. split; [reflexivity|].
      intros idx v F Hv HF.
      rewrite (Hforces idx vzero) in HF
        by (apply zeros_like_lookup_lt; by eapply lookup_lt_Some).
      destruct (bool_decide_reflect
                  (idx ∈ [(i * n_circ + (j + 1) mod n_circ)%nat;
                          ((i + 1) * n_circ + j)%nat;
                          ((i + 1) * n_circ + (j + 1) mod n_circ)%nat]))
        as [Hcorner|_];
        injection HF as <-; [right | by left].
      split; [exact Hcorner|].
      destruct Hupper as (Hnz & Hr01 & Hr10 & Hr11).
      mem_cases Hcorner.
      * rewrite H01 in Hv. injection Hv as <-. by apply Hforce.
      * rewrite H10 in Hv. injection Hv as <-. by apply Hforce.
      * rewrite H11 in Hv. injection Hv as <-. by apply Hforce.
Qed.

Lemma pressure_pushes_the_tube_inwards_witness :
  exists (m : mesh) (forces : array),
    generate_cylinder 3 2 TUBE_LENGTH TUBE_RADIUS = Returns m /\
    compute_pressure_forces Rdiv m.1.1.1 [(0, 3, 1)%nat] PRESSURE_AMPLITUDE
    = Ok forces.
Proof.
  destruct (generate_cylinder_total 3 2 TUBE_LENGTH TUBE_RADIUS)
    as ([[[vertices triangles] ring_indices] end_vertices] & Hgen & Hm);
    [lia | unfold TUBE_LENGTH; lra |].
  destruct Hm as (_ & _ & _ & Htris & _).
  destruct (Htris 0%nat 0%nat) as [Hlower _]; [lia | lia |].
  destruct (pressure_pushes_the_tube_inwards 3 2 TUBE_LENGTH TUBE_RADIUS
              PRESSURE_AMPLITUDE vertices triangles ring_indices end_vertices
              (0, 3, 1)%nat Hgen) as (forces & Hok & _);
    [lia | unfold TUBE_LENGTH; lra | unfold TUBE_RADIUS; lra
     | unfold PRESSURE_AMPLITUDE; lra | |].
  - by apply (list_elem_of_lookup_2 _ _ _ Hlower).
  - exists (vertices, triangles, ring_indices, end_vertices), forces.
    split; [exact Hgen | exact Hok].
Defined.

(** ** The area of the triangles *)

Lemma next_column_chord (n_circ j : nat) :
  (2 <= n_circ)%nat -> (j < n_circ)%nat ->
  cos (2 * PI * INR ((j + 1) mod n_circ) / INR n_circ)
    * cos (2 * PI * INR j / INR n_circ)
  + sin (2 * PI * INR ((j + 1) mod n_circ) / INR n_circ)
    * sin (2 * PI * INR j / INR n_circ)
  = 1 - 2 * sin (PI / INR n_circ) * sin (PI / INR n_circ) /\
  0 <= sin (PI / INR n_circ).
Proof.
  intros Hn Hj.
  assert (Hn2 : 2 <= INR n_circ).
  { apply (le_INR 2) in Hn. simpl in Hn. lra. }
  pose proof PI_RGT_0 as Hpi.
  assert (Hstep : 0 < PI / INR n_circ < PI).
  { split.
    - apply Rmult_lt_0_compat; [lra|]. apply Rinv_0_lt_compat. lra.
    - apply (Rmult_lt_reg_r (INR n_circ)); [lra|].
      unfold Rdiv. rewrite Rmult_assoc, Rinv_l by lra. nra. }
  split; [|left; apply sin_gt_0; lra].
  rewrite <- cos_minus, <- cos_2a_sin.
  destruct (decide (j + 1 = n_circ)%nat) as [Heq|Hne].
  - rewrite Heq, Nat.Div0.mod_same. cbn [INR].
    assert (Hj1 : INR j = INR n_circ - 1).
    { rewrite <- Heq, plus_INR. simpl. lra. }
    rewrite Hj1.
    replace (2 * PI * 0 / INR n_circ - 2 * PI * (INR n_circ - 1) / INR n_circ)
      with (2 * (PI / INR n_circ) - 2 * PI) by (field; lra).
    rewrite cos_minus, cos_2PI, sin_2PI. ring.
  - rewrite Nat.mod_small by lia. f_equal. rewrite plus_INR. simpl. field. lra.
Qed.

Lemma quad_areas (r c s c' s' z z' h chord : R) :
  c * c + s * s = 1 -> c' * c' + s' * s' = 1 ->
  c' * c + s' * s = 1 - 2 * chord * chord ->
  z' - z = h -> 0 <= h -> 0 <= chord ->
  let v00 := V3 (r * c) (r * s) z in
  let v10 := V3 (r * c) (r * s) z' in
  let v01 := V3 (r * c') (r * s') z in
  let v11 := V3 (r * c') (r * s') z' in
  0.5 * norm (cross (vsub v10 v00) (vsub v01 v00)) = h * Rabs r * chord /\
  0.5 * norm (cross (vsub v10 v01) (vsub v11 v01)) = h * Rabs r * chord.
Proof.
  intros Hcs Hcs' Hchord Hz Hh Hc. cbv zeta.
  assert (Hside : 0 <= 2 * (h * Rabs r * chord)).
  { pose proof (Rabs_pos r).
    assert (0 <= h * Rabs r) by (by apply Rmult_le_pos).
    assert (0 <= h * Rabs r * chord) by (by apply Rmult_le_pos). lra. }
  assert (Hr : Rabs r * Rabs r = r * r).
  { unfold Rabs. destruct (Rcase_abs r); ring. }
  assert (Hnorm : forall n : vec3,
    vx n * vx n + vy n * vy n + vz n * vz n
    = 2 * (h * Rabs r * chord) * (2 * (h * Rabs r * chord)) ->
    0.5 * norm n = h * Rabs r * chord).
  { intros n Hn. unfold norm. rewrite Hn, sqrt_square by exact Hside. lra. }
  assert (Hsq : h * h * (r * r) * ((s' - s) * (s' - s) + (c' - c) * (c' - c))
                = 2 * (h * Rabs r * chord) * (2 * (h * Rabs r * chord))).
  { replace ((s' - s) * (s' - s) + (c' - c) * (c' - c))
      with ((c * c + s * s) + (c' * c' + s' * s') - 2 * (c' * c + s' * s))
      by ring.
    rewrite Hcs, Hcs', Hchord, <- Hr. ring. }
  split; apply Hnorm; rewrite <- Hsq, <- Hz;
    unfold cross, vsub; cbn [vx vy vz]; ring.
Qed.

(** X28: the triangles of the tube all have the same area.  In a mesh
    that [generate_cylinder] returns, for a positive length and
    [n_circ >= 2], the area [0.5 |(v1 - v0) x (v2 - v0)|] that
    [compute_pressure_forces] computes for a triangle is
    [length / (n_axial - 1) * |radius| * sin (pi / n_circ)], whichever
    triangle it is; the triangle is skipped when this is below 1e-10. *)
Theorem cylinder_triangles_area (n_circ n_axial : nat)
    (length radius : R) (vertices : array) (triangles : list triangle)
    (ring_indices : list (list nat)) (end_vertices : list nat * list nat)
    (t0 t1 t2 : nat) (v0 v1 v2 : vec3) :
  generate_cylinder n_circ n_axial length radius
  = Returns (vertices, triangles, ring_indices, end_vertices) ->
  (2 <= n_circ)%nat -> 0 < length ->
  (t0, t1, t2) ∈ triangles ->
  vertices !! t0 = Some v0 -> vertices !! t1 = Some v1 ->
  vertices !! t2 = Some v2 ->
  0.5 * norm (cross (vsub v1 v0) (vsub v2 v0))
  = length / (INR n_axial - 1) * Rabs radius * sin (PI / INR n_circ).
Proof.
  intros Hgen Hn Hlength Htri Hv0 Hv1 Hv2.
  apply generate_cylinder_inv in Hgen
    as (H1 & H0 & _ & Hlen & Hrows & Htlen & Htris & _).
  destruct (generated_triangle_cases _ _ _ _ Htlen Htris Htri)
    as (i & j & Hi & Hj & Hcase).
  pose proof (next_column_lt n_circ j Hj) as Hjn.
  destruct (next_column_chord n_circ j Hn Hj) as [Hchord Hsin].
  assert (Hden : 0 < INR n_axial - 1).
  { assert (H : INR 2 <= INR n_axial) by (apply le_INR; lia).
    simpl in H. lra. }
  pose proof (Hrows i j ltac:(lia) Hj) as H00.
  pose proof (Hrows (i + 1)%nat j ltac:(lia) Hj) as H10.
  pose proof (Hrows i ((j + 1) mod n_circ)%nat ltac:(lia) Hjn) as H01.
  pose proof (Hrows (i + 1)%nat ((j + 1) mod n_circ)%nat ltac:(lia) Hjn) as H11.
  unfold cylinder_vertex in H00, H10, H01, H11.
  assert (Hunit : forall x, cos x * cos x + sin x * sin x = 1).
  { intros x. pose proof (sin2_cos2 x) as H. unfold Rsqr in H. lra. }
  destruct (quad_areas radius
              (cos (2 * PI * INR j / INR n_circ))
              (sin (2 * PI * INR j / INR n_circ))
              (cos (2 * PI * INR ((j + 1) mod n_circ) / INR n_circ))
              (sin (2 * PI * INR ((j + 1) mod n_circ) / INR n_circ))
              (length * INR i / IZR (Z.of_nat n_axial - 1))
              (length * INR (i + 1) / IZR (Z.of_nat n_axial - 1))
              (length / (INR n_axial - 1)) (sin (PI / INR n_circ)))
    as [Hlower Hupper]; try done.
  { rewrite IZR_rows, plus_INR. simpl. field. lra. }
  { left. apply Rmult_lt_0_compat; [lra | by apply Rinv_0_lt_compat]. }
  cbv zeta in Hlower, Hupper.
  destruct Hcase as [Heq|Heq]; injection Heq as -> -> ->.
  - rewrite H00 in Hv0. rewrite H10 in Hv1. rewrite H01 in Hv2.
    injection Hv0 as <-. injection Hv1 as <-. injection Hv2 as <-.
    exact Hlower.
  - rewrite H01 in Hv0. rewrite H10 in Hv1. rewrite H11 in Hv2.
    injection Hv0 as <-. injection Hv1 as <-. injection Hv2 as <-.
    exact Hupper.
Qed.

Lemma cylinder_triangles_area_witness :
  exists (m : mesh) (v0 v1 v2 : vec3),
    generate_cylinder 3 2 TUBE_LENGTH TUBE_RADIUS = Returns m /\
    m.1.1.1 !! 0%nat = Some v0 /\ m.1.1.1 !! 3%nat = Some v1 /\
    m.1.1.1 !! 1%nat = Some v2 /\
    0.5 * norm (cross (vsub v1 v0) (vsub v2 v0))
    = TUBE_LENGTH / (INR 2 - 1) * Rabs TUBE_RADIUS * sin (PI / INR 3).
Proof.
  destruct (generate_cylinder_total 3 2 TUBE_LENGTH TUBE_RADIUS)
    as ([[[vertices triangles] ring_indices] end_vertices] & Hgen & Hm);
    [lia | unfold TUBE_LENGTH; lra |].
  destruct Hm as (_ & Hrows & _ & Htris & _).
  destruct (Htris 0%nat 0%nat) as [Hlower _]; [lia | lia |].
  pose proof (Hrows 0%nat 0%nat ltac:(lia) ltac:(lia)) as H0.
  pose proof (Hrows 1%nat 0%nat ltac:(lia) ltac:(lia)) as H3.
  pose proof (Hrows 0%nat 1%nat ltac:(lia) ltac:(lia)) as H1.
  eexists (vertices, triangles, ring_indices, end_vertices), _, _, _.
  split; [exact Hgen|]. split; [exact H0|]. split; [exact H3|].
  split; [exact H1|].
  apply (cylinder_triangles_area 3 2 TUBE_LENGTH TUBE_RADIUS vertices triangles
           ring_indices end_vertices 0 3 1 _ _ _ Hgen);
    [lia | unfold TUBE_LENGTH; lra | | exact H0 | exact H3 | exact H1].
  by apply (list_elem_of_lookup_2 _ _ _ Hlower).
Defined.

(** * Further properties of the spring builder and of the masses *)

(** On the reduced mesh of the driver, 12 vertices around, the spring
    between vertex 0 and vertex 12, the one above it, is axial; its
    stiffness is computed with [N_CIRCUMFERENTIAL = 24] all the same. *)
Lemma reduced_mesh_axial_spring :
  exists (m : mesh) (springs : list spring) (s : spring) (v_i v_j : vec3),
    generate_cylinder 12 30 TUBE_LENGTH TUBE_RADIUS = Returns m /\
    build_springs m.1.1.1 m.1.1.2 = Ok springs /\
    s ∈ springs /\ endpoints s = (0, 12)%nat /\
    m.1.1.1 !! 0%nat = Some v_i /\ m.1.1.1 !! 12%nat = Some v_j /\
    0.25 * RING_SPACING <= Rabs (vz v_i - vz v_j) /\
    0 < spring_rest s /\
    spring_k s = ELASTIC_MODULUS * WALL_THICKNESS
                 * (2 * PI * TUBE_RADIUS / 24) / spring_rest s /\
    spring_k s <> ELASTIC_MODULUS * WALL_THICKNESS
                  * (2 * PI * TUBE_RADIUS / 12) / spring_rest s.
Proof.
  destruct (generate_cylinder_total 12 30 TUBE_LENGTH TUBE_RADIUS)
    as ([[[vertices triangles] ring_indices] end_vertices] & Hgen & Hm);
    [lia | unfold TUBE_LENGTH; lra |].
  pose proof Hm as (Hlen & Hverts & Htlen & Htris & _).
  destruct (build_springs_total vertices triangles) as [springs Hbuild].
  { rewrite Hlen. by apply generated_triangles_in_range. }
  assert (H012 : (0%nat, 12%nat) ∈ map endpoints springs).
  { apply (build_springs_pairs _ _ _ Hbuild). split; [lia|].
    exists (lower_triangle 12 0 0). split.
    - destruct (Htris 0%nat 0%nat) as [Hlo _]; [lia | lia |].
      eapply list_elem_of_lookup_2. exact Hlo.
    - left. left. }
  apply list_elem_of_fmap in H012 as (s & Hs & Hin).
  pose proof Hbuild as Hall. unfold build_springs in Hall. apply mapM_Ok in Hall.
  pose proof Hin as Hin'. apply list_elem_of_lookup in Hin' as [n Hn].
  destruct (Forall2_lookup_r _ _ _ _ _ Hall Hn) as (e & _ & He).
  apply make_spring_Ok in He as (_ & v_i & v_j & Hi & Hj & Hrest & Hk).
  injection Hs as Hsi Hsj. rewrite <- Hsi in Hi. rewrite <- Hsj in Hj.
  pose proof (Hverts 0%nat 0%nat ltac:(lia) ltac:(lia)) as H0.
  cbn [Nat.mul Nat.add] in H0.
  rewrite H0 in Hi. injection Hi as <-.
  pose proof (Hverts 1%nat 0%nat ltac:(lia) ltac:(lia)) as H1.
  cbn [Nat.mul Nat.add] in H1.
  rewrite H1 in Hj. injection Hj as <-.
  set (v_i := cylinder_vertex 12 30 TUBE_LENGTH TUBE_RADIUS 0 0) in *.
  set (v_j := cylinder_vertex 12 30 TUBE_LENGTH TUBE_RADIUS 1 0) in *.
  assert (Hx : vx v_i - vx v_j = 0) by (unfold v_i, v_j; cbn; lra).
  assert (Hy : vy v_i - vy v_j = 0) by (unfold v_i, v_j; cbn; lra).
  assert (Hz : vz v_i - vz v_j = - (0.30 / 29)).
  { unfold v_i, v_j, cylinder_vertex, TUBE_LENGTH. cbn [vz INR].
    change (Z.of_nat 30 - 1)%Z with 29%Z. lra. }
  assert (Haxial : 0.25 * RING_SPACING <= Rabs (vz v_i - vz v_j)).
  { rewrite Hz, Rabs_Ropp, Rabs_pos_eq by lra. unfold RING_SPACING. lra. }
  assert (Hpos : 0 < spring_rest s).
  { rewrite Hrest. unfold norm, vsub. cbn [vx vy vz].
    rewrite Hx, Hy, Hz. apply sqrt_lt_R0. lra. }
  exists (vertices, triangles, ring_indices, end_vertices), springs, s, v_i, v_j.
  cbn [fst snd].
  split; [exact Hgen|]. split; [exact Hbuild|]. split; [exact Hin|].
  split; [unfold endpoints; congruence|].
  split; [exact H0|]. split; [exact H1|]. split; [exact Haxial|].
  split; [exact Hpos|].
  destruct Hk as [[Hcirc _]|[_ Hk]]; [lra|].
  replace (INR N_CIRCUMFERENTIAL) with 24 in Hk
    by (unfold N_CIRCUMFERENTIAL; simpl; lra).
  split; [exact Hk|].
  rewrite Hk. intros Heq.
  pose proof (Rinv_0_lt_compat _ Hpos) as Hinv.
  pose proof PI_RGT_0 as Hpi.
  assert (Hprod : 0 < PI * / spring_rest s) by (by apply Rmult_lt_0_compat).
  unfold ELASTIC_MODULUS, WALL_THICKNESS, TUBE_RADIUS, Rdiv in Heq. nra.
Qed.

(** C2 as stated fails in two ways.  On a triangle that repeats an index
    the side [(0, 0)] of the triangle [(0, 0, 1)] becomes a spring from
    vertex 0 to itself, so [vertex_i < vertex_j] does not hold for it.  And
    the axial stiffness is computed with the constant
    [N_CIRCUMFERENTIAL = 24], whatever the mesh: on the reduced mesh of the
    driver, whose circumferential vertex count is 12, the axial spring from
    vertex 0 to vertex 12 gets
    [E * wall_thickness * (2 * pi * radius / 24) / rest_length], half of the
    stiffness [E * wall_thickness * (2 * pi * radius / 12) / rest_length] of
    the claim. *)
Lemma build_springs_counterexamples :
  (exists (springs : list spring) (s : spring),
     build_springs [V3 0 0 0; V3 1 0 0] [(0, 0, 1)]%nat = Ok springs /\
     s ∈ springs /\ spring_i s = 0%nat /\ spring_j s = 0%nat /\
     ~ (spring_i s < spring_j s)%nat) /\
  (let circumferential_vertex_count := 12%nat in
   exists (m : mesh) (springs : list spring) (s : spring) (v_i v_j : vec3),
     generate_cylinder circumferential_vertex_count 30 TUBE_LENGTH TUBE_RADIUS
     = Returns m /\
     build_springs m.1.1.1 m.1.1.2 = Ok springs /\
     s ∈ springs /\
     m.1.1.1 !! spring_i s = Some v_i /\ m.1.1.1 !! spring_j s = Some v_j /\
     0.25 * RING_SPACING <= Rabs (vz v_i - vz v_j) /\
     spring_k s
     <> ELASTIC_MODULUS * WALL_THICKNESS
        * (2 * PI * TUBE_RADIUS / INR circumferential_vertex_count)
        / spring_rest s /\
     2 * spring_k s
     = ELASTIC_MODULUS * WALL_THICKNESS
       * (2 * PI * TUBE_RADIUS / INR circumferential_vertex_count)
       / spring_rest s).
Proof.
  split; [exact build_springs_self_edge|]. cbv zeta.
  destruct reduced_mesh_axial_spring
    as (m & springs & s & v_i & v_j & Hgen & Hbuild & Hin & Hends & Hi & Hj
        & Haxial & Hpos & Hk & Hne).
  injection Hends as Hsi Hsj.
  exists m, springs, s, v_i, v_j.
  split; [exact Hgen|]. split; [exact Hbuild|]. split; [exact Hin|].
  split; [by rewrite Hsi|]. split; [by rewrite Hsj|].
  split; [exact Haxial|].
  replace (INR 12) with 12 by (simpl; lra).
  split; [exact Hne|].
  rewrite Hk. unfold Rdiv. lra.
Qed.

Lemma mapM_Raise {A B : Type} (f : A -> result B) (l : list A) (e : exn) :
  mapM f l = Raise e -> exists x, x ∈ l /\ f x = Raise e.
Proof.
  induction l as [|x l IH]; [discriminate|]. cbn [mapM]. intros H.
  destruct (f x) as [y|e'] eqn:Hx; cbn [rbind] in H.
  - destruct (mapM f l) as [ys|e'']; [discriminate|]. cbn [rbind] in H.
    destruct (IH H) as (x' & Hin & Hx'). exists x'. split; [by right | exact Hx'].
  - injection H as ->. exists x. split; [left | exact Hx].
Qed.

Lemma make_spring_Raise (vertices : array) (edge : nat * nat) (e : exn) :
  make_spring vertices edge = Raise e -> e = IndexError.
Proof.
  destruct edge as [i j]. unfold make_spring, get.
  destruct (vertices !! i); [|by intros [= <-]]. cbn [rbind].
  destruct (vertices !! j); [discriminate | by intros [= <-]].
Qed.

Lemma make_spring_in_range (vertices : array) (i j : nat) (s : spring) :
  make_spring vertices (i, j) = Ok s ->
  (i < List.length vertices)%nat /\ (j < List.length vertices)%nat.
Proof.
  unfold make_spring. intros H.
  apply rbind_Ok in H as (v_i & Hi & H). apply rbind_Ok in H as (v_j & Hj & _).
  apply get_Ok in Hi, Hj. split; by eapply lookup_lt_Some.
Qed.

(** X26: [build_springs] checks nothing but the indices.  For triangles
    whose indices are not negative, it returns exactly when the three
    indices of every triangle are below the number of rows of [vertices],
    and then every spring joins two rows of [vertices]; when some index is at
    or above the number of rows it raises [IndexError], in whatever order
    the set of edges is iterated.  (An index below zero is outside the
    embedding.) *)
Theorem build_springs_index_check (vertices : array) (triangles : list triangle) :
  ((forall a b c, (a, b, c) ∈ triangles ->
      (a < List.length vertices)%nat /\ (b < List.length vertices)%nat /\
      (c < List.length vertices)%nat) /\
   exists springs : list spring,
     build_springs vertices triangles = Ok springs /\
     forall s, s ∈ springs ->
       (spring_i s < List.length vertices)%nat /\
       (spring_j s < List.length vertices)%nat) \/
  (~ (forall a b c, (a, b, c) ∈ triangles ->
        (a < List.length vertices)%nat /\ (b < List.length vertices)%nat /\
        (c < List.length vertices)%nat) /\
   build_springs vertices triangles = Raise IndexError).
Proof.
  destruct (build_springs vertices triangles) as [springs|e] eqn:Hbuild.
  - left.
    assert (Hrange : forall a b c, (a, b, c) ∈ triangles ->
              (a < List.length vertices)%nat /\ (b < List.length vertices)%nat /\
              (c < List.length vertices)%nat).
    { intros a b c Htri.
      assert (Hedge : forall i j, (i, j) ∈ tri_edges (a, b, c) ->
                (i < List.length vertices)%nat /\ (j < List.length vertices)%nat).
      { intros i j Hij.
        assert (Hin : (i, j) ∈ elements (edge_set triangles)).
        { apply elem_of_elements, edge_set_spec. by exists (a, b, c). }
        apply list_elem_of_lookup in Hin as [k Hk].
        unfold build_springs in Hbuild. apply mapM_Ok in Hbuild.
        destruct (Forall2_lookup_l _ _ _ _ _ Hbuild Hk) as (s & _ & Hs).
        by eapply make_spring_in_range. }
      destruct (Hedge (Nat.min a b) (Nat.max a b)) as [Hab Hab'];
        [unfold tri_edges; apply elem_of_cons; by left|].
      destruct (Hedge (Nat.min b c) (Nat.max b c)) as [Hbc Hbc'];
        [unfold tri_edges; apply elem_of_cons; right; apply elem_of_cons; by left|].
      lia. }
    split; [exact Hrange|]. exists springs. split; [reflexivity|].
    by eapply build_springs_in_range.
  - right.
    assert (He : e = IndexError).
    { unfold build_springs in Hbuild. apply mapM_Raise in Hbuild as (x & _ & Hx).
      by eapply make_spring_Raise. }
    subst e. split; [|reflexivity].
    intros Hrange. destruct (build_springs_total vertices triangles Hrange)
      as [springs Hok]. congruence.
Qed.

Lemma total_repeat (m : R) (n : nat) : total (repeat m n) = INR n * m.
Proof.
  induction n as [|n IH]; [simpl; lra|].
  cbn [repeat total foldr]. fold (total (repeat m n)). rewrite IH, S_INR. lra.
Qed.

(** X27: the mass array of [simulate].  For a mesh with vertices, every
    vertex gets the same positive mass, the thin-shell mass of the tube
    divided by the number of vertices, and the masses add up to the mass of
    the tube. *)
Theorem vertex_masses_share_the_tube (n_vertices : nat) :
  n_vertices <> 0%nat ->
  exists mass : list R,
    vertex_mass n_vertices = Ok mass /\
    List.length mass = n_vertices /\
    (forall m, m ∈ mass -> m = shell_mass / INR n_vertices /\ 0 < m) /\
    total mass = shell_mass.
Proof.
  intros Hn.
  assert (Hpos : 0 < INR n_vertices) by (apply lt_0_INR; lia).
  assert (Hshell : 0 < shell_mass).
  { unfold shell_mass, TUBE_RADIUS, TUBE_LENGTH, WALL_THICKNESS, WALL_DENSITY.
    pose proof PI_RGT_0. nra. }
  unfold vertex_mass. cbv zeta. rewrite py_div_Ok by lra. cbn [rbind].
  fold shell_mass. eexists. split; [reflexivity|].
  split; [apply repeat_length|]. split.
  - intros m Hm. apply list_elem_of_In, repeat_spec in Hm. subst m.
    split; [lra|]. rewrite Rmult_1_l.
    apply Rmult_lt_0_compat; [exact Hshell | by apply Rinv_0_lt_compat].
  - rewrite total_repeat. field. lra.
Qed.

Lemma vertex_masses_share_the_tube_witness :
  exists mass : list R,
    vertex_mass 1440 = Ok mass /\ total mass = shell_mass.
Proof.
  destruct (vertex_masses_share_the_tube 1440) as (mass & Hok & _ & _ & Hsum);
    [discriminate|].
  exists mass. by split.
Defined.
